(** * SimpleVector: a shallow embedding of [simple_vector.h]

    The container is embedded as a small object program: vector objects
    live in an object store, their backing arrays in a heap of blocks, and
    every member function is a computation in a state-and-exception monad
    over both.  Iterators are raw pointers (block, offset). *)

From stdpp Require Import base numbers option list gmap.

Local Open Scope N_scope.

(** ** [size_t]: 64-bit unsigned arithmetic, wrap-around written out *)

Definition size_t_modulus : N := 2 ^ 64.
Definition PTRDIFF_MAX : N := 2 ^ 63 - 1.

Definition size_t_wrap (x : N) : N := x mod size_t_modulus.
(** [++x], [--x] and [x * 2] on a [size_t]. *)
Definition size_t_incr (x : N) : N := size_t_wrap (x + 1).
Definition size_t_decr (x : N) : N := size_t_wrap (x + size_t_modulus - 1).
Definition size_t_twice (x : N) : N := size_t_wrap (x * 2).

(** ** Pointers, exceptions, outcomes *)

Definition addr := positive.
Definition loc := nat.

(** A [Type*]: the block it points into ([None] for the null pointer) and
    the element offset inside that block. *)
Definition ptr : Type := option addr * N.

Definition nullptr : ptr := (None, 0).
Definition ptr_add (p : ptr) (k : N) : ptr := (p.1, p.2 + k).
Definition ptr_pred (p : ptr) : ptr := (p.1, N.pred p.2).
(** [p <= q] and [p < q] as the assertions of the source compare them:
    meaningful only inside one block. *)
Definition ptr_le (p q : ptr) : bool := bool_decide (p.1 = q.1) && (p.2 <=? q.2).
Definition ptr_lt (p q : ptr) : bool := bool_decide (p.1 = q.1) && (p.2 <? q.2).

Inductive exn := bad_alloc | out_of_range.

(** Result of running a member function from a state: normal return,
    a thrown exception (with the state at the throw), or undefined
    behaviour (a failed [assert], an access outside a block). *)
Inductive outcome (S A : Type) :=
  | Ok (a : A) (s : S)
  | Throw (e : exn) (s : S)
  | Undefined.
Arguments Ok {S A} a s.
Arguments Throw {S A} e s.
Arguments Undefined {S A}.

Section SimpleVector.

Context {T : Type}.
(** [Type()], the value-initialised element. *)
Variable default_value : T.
(** What is left in an element after it has been moved from. *)
Variable moved_from : T → T.
(** The largest number of slots the allocator can supply in one request. *)
Variable max_slots : N.

(** A slot of a block: [None] while it is uninitialised. *)
Abbreviation slot := (option T).

(** The slot an element was moved out of. *)
Definition moved_slot (x : slot) : slot := option_map moved_from x.

Record SimpleVector := mkSimpleVector {
  data_ptr_ : option addr;
  size_ : N;
  capacity_ : N
}.

Record state := mkState {
  objs : gmap loc SimpleVector;
  mem : gmap addr (list slot)
}.

Definition M (A : Type) : Type := state → outcome state A.

Definition ret {A} (a : A) : M A := λ s, Ok a s.
Definition bind {A B} (m : M A) (k : A → M B) : M B :=
  λ s, match m s with
       | Ok a s' => k a s'
       | Throw e s' => Throw e s'
       | Undefined => Undefined
       end.
Definition throw {A} (e : exn) : M A := λ s, Throw e s.
Definition undefined {A} : M A := λ _, Undefined.
Definition assert (b : bool) : M unit := if b then ret () else undefined.

Notation "'let*' x := m 'in' k" := (bind m (λ x, k))
  (at level 10, x name, m at level 100, k at level 200, only parsing).
Notation "m ;;; k" := (bind m (λ _, k))
  (at level 100, k at level 200, right associativity, only parsing).

(** ** Memory *)

Definition load (p : ptr) : M slot := λ s,
  match p.1 with
  | Some a =>
      match mem s !! a with
      | Some blk =>
          match blk !! N.to_nat p.2 with
          | Some x => Ok x s
          | None => Undefined
          end
      | None => Undefined
      end
  | None => Undefined
  end.

Definition store (p : ptr) (x : slot) : M unit := λ s,
  match p.1 with
  | Some a =>
      match mem s !! a with
      | Some blk =>
          if bool_decide (N.to_nat p.2 < length blk)%nat
          then Ok () (mkState (objs s) (<[a := <[N.to_nat p.2 := x]> blk]> (mem s)))
          else Undefined
      | None => Undefined
      end
  | None => Undefined
  end.

(** ** ArrayPtr *)

(** Modelled from the spec: [array_ptr.h] is not part of the sources.  The
    spec's RawBuffer "owns zero or one heap allocation sized to a fixed slot
    count", "a buffer with capacity 0 holds no allocation", [allocate(n)]
    gives "n uninitialized slots" and "fails with OutOfMemory if allocation
    cannot be satisfied".  A request is satisfied when it is within the
    allocator's [max_slots] and the array fits the address space. *)
Definition alloc_ok (n : N) : bool :=
  bool_decide (n ≤ max_slots) && bool_decide (n ≤ PTRDIFF_MAX).

Definition ArrayPtr_new (n : N) : M (option addr) := λ s,
  if bool_decide (n = 0) then Ok None s
  else if alloc_ok n then
    let a := fresh (dom (mem s)) in
    Ok (Some a) (mkState (objs s) (<[a := replicate (N.to_nat n) None]> (mem s)))
  else Throw bad_alloc s.

(** Modelled from the spec: the RawBuffer's [release()], run when an
    [ArrayPtr] goes out of scope: "deallocates the held allocation; no-op if
    empty". *)
Definition ArrayPtr_delete (p : option addr) : M unit := λ s,
  match p with
  | Some a =>
      match mem s !! a with
      | Some _ => Ok () (mkState (objs s) (delete a (mem s)))
      | None => Undefined
      end
  | None => Ok () s
  end.

(** ** The standard algorithms the container calls *)

(** [std::copy(first, last, d_first)], for [n = last - first]. *)
Fixpoint copy_loop (n : nat) (first d_first : ptr) : M ptr :=
  match n with
  | O => ret d_first
  | S n' =>
      let* x := load first in
      store d_first x;;;
      copy_loop n' (ptr_add first 1) (ptr_add d_first 1)
  end.

Definition std_copy (first last d_first : ptr) : M ptr :=
  assert (ptr_le first last);;;
  copy_loop (N.to_nat (last.2 - first.2)) first d_first.

(** [std::copy] through [std::make_move_iterator]: each source element is
    left in its moved-from state. *)
Fixpoint move_loop (n : nat) (first d_first : ptr) : M ptr :=
  match n with
  | O => ret d_first
  | S n' =>
      let* x := load first in
      store d_first x;;;
      store first (moved_slot x);;;
      move_loop n' (ptr_add first 1) (ptr_add d_first 1)
  end.

Definition std_move_copy (first last d_first : ptr) : M ptr :=
  assert (ptr_le first last);;;
  move_loop (N.to_nat (last.2 - first.2)) first d_first.

(** [std::copy_backward(std::make_move_iterator(first),
    std::make_move_iterator(last), d_last)]: from the last element down,
    each source slot left moved-from. *)
Fixpoint move_backward_loop (n : nat) (last d_last : ptr) : M ptr :=
  match n with
  | O => ret d_last
  | S n' =>
      let* x := load (ptr_pred last) in
      store (ptr_pred d_last) x;;;
      store (ptr_pred last) (moved_slot x);;;
      move_backward_loop n' (ptr_pred last) (ptr_pred d_last)
  end.

Definition std_move_copy_backward (first last d_last : ptr) : M ptr :=
  assert (ptr_le first last);;;
  move_backward_loop (N.to_nat (last.2 - first.2)) last d_last.

(** [std::generate(first, last, g)] and [std::fill(first, last, value)]:
    both store one value per slot; [g] is [[]() { return Type(); }] or
    yields [value]. *)
Fixpoint fill_loop (n : nat) (first : ptr) (x : T) : M unit :=
  match n with
  | O => ret ()
  | S n' => store first (Some x);;; fill_loop n' (ptr_add first 1) x
  end.

Definition std_fill (first last : ptr) (x : T) : M unit :=
  assert (ptr_le first last);;;
  fill_loop (N.to_nat (last.2 - first.2)) first x.

(** Reading an element as a value: undefined on an uninitialised slot. *)
Definition load_value (p : ptr) : M T :=
  let* x := load p in
  match x with
  | Some v => ret v
  | None => undefined
  end.

(** [std::copy] out of an [initializer_list], which lives outside the heap. *)
Fixpoint copy_from_list (init : list T) (d_first : ptr) : M ptr :=
  match init with
  | [] => ret d_first
  | x :: init' => store d_first (Some x);;; copy_from_list init' (ptr_add d_first 1)
  end.

(** [std::generate(first, last, [&value]() { return std::move(value); })]:
    every call hands out [value] and leaves it moved-from for the next. *)
Fixpoint generate_moved_loop (n : nat) (first : ptr) (value : T) : M unit :=
  match n with
  | O => ret ()
  | S n' =>
      store first (Some value);;;
      generate_moved_loop n' (ptr_add first 1) (moved_from value)
  end.

(** [std::equal(first1, last1, first2)] with the element type's [==]. *)
Variable eqb : T → T → bool.

Fixpoint equal_loop (n : nat) (first1 first2 : ptr) : M bool :=
  match n with
  | O => ret true
  | S n' =>
      let* x := load_value first1 in
      let* y := load_value first2 in
      if eqb x y then equal_loop n' (ptr_add first1 1) (ptr_add first2 1)
      else ret false
  end.

Definition std_equal (first1 last1 first2 : ptr) : M bool :=
  assert (ptr_le first1 last1);;;
  equal_loop (N.to_nat (last1.2 - first1.2)) first1 first2.

(** What [std::equal] answers on two ranges holding [xs] and [ys], the
    second at least as long as the first. *)
Fixpoint all_equal (xs ys : list T) : bool :=
  match xs, ys with
  | x :: xs', y :: ys' => if eqb x y then all_equal xs' ys' else false
  | _, _ => true
  end.

(** [std::distance(first, last)] on pointers into one array. *)
Definition std_distance (first last : ptr) : N := last.2 - first.2.

(** ** Objects *)

Definition self (this : loc) : M SimpleVector := λ s,
  match objs s !! this with
  | Some v => Ok v s
  | None => Undefined
  end.

Definition put (this : loc) (v : SimpleVector) : M unit := λ s,
  Ok () (mkState (<[this := v]> (objs s)) (mem s)).

Definition set_data_ptr_ (this : loc) (p : option addr) : M unit :=
  let* v := self this in put this (mkSimpleVector p (size_ v) (capacity_ v)).
Definition set_size_ (this : loc) (n : N) : M unit :=
  let* v := self this in put this (mkSimpleVector (data_ptr_ v) n (capacity_ v)).
Definition set_capacity_ (this : loc) (n : N) : M unit :=
  let* v := self this in put this (mkSimpleVector (data_ptr_ v) (size_ v) n).

(** A constructor: [this] names storage that holds no object yet, the
    member initialisers run first, then the body.  When the body throws,
    the members built so far are destroyed and no object comes to exist. *)
Definition unwind (this : loc) (s : state) : state :=
  match objs s !! this with
  | Some v =>
      mkState (delete this (objs s))
              (match data_ptr_ v with
               | Some a => delete a (mem s)
               | None => mem s
               end)
  | None => s
  end.

Definition constructor (this : loc) (init : M SimpleVector) (body : M unit) : M unit := λ s,
  match objs s !! this with
  | Some _ => Undefined
  | None =>
      match (let* v := init in put this v;;; body) s with
      | Throw e s' => Throw e (unwind this s')
      | r => r
      end
  end.

(** The implicit destructor: the [ArrayPtr] member releases its array. *)
Definition destructor (this : loc) : M unit :=
  let* v := self this in
  ArrayPtr_delete (data_ptr_ v);;;
  λ s, Ok () (mkState (delete this (objs s)) (mem s)).

(** ** ReserveProxyObj *)

Record ReserveProxyObj := mkReserveProxyObj { proxy_capacity_ : N }.

Definition ReserveProxyObj_GetCapacity (o : ReserveProxyObj) : N := proxy_capacity_ o.

(** The free function [Reserve(size_t)]. *)
Definition Reserve_proxy (reserved_capacity : N) : ReserveProxyObj :=
  mkReserveProxyObj reserved_capacity.

(** ** SimpleVector: iterators and observers *)

Definition begin (this : loc) : M ptr :=
  let* v := self this in ret (data_ptr_ v, 0).
Definition end_ (this : loc) : M ptr :=
  let* v := self this in ret (ptr_add (data_ptr_ v, 0) (size_ v)).
Definition cbegin (this : loc) : M ptr :=
  let* v := self this in ret (data_ptr_ v, 0).
Definition cend (this : loc) : M ptr :=
  let* v := self this in ret (ptr_add (data_ptr_ v, 0) (size_ v)).

Definition GetSize (this : loc) : M N := let* v := self this in ret (size_ v).
Definition GetCapacity (this : loc) : M N := let* v := self this in ret (capacity_ v).
Definition IsEmpty (this : loc) : M bool :=
  let* v := self this in ret (bool_decide (size_ v = 0)).

(** [operator[]]: a reference to slot [index]. *)
Definition subscript (this : loc) (index : N) : M ptr :=
  let* v := self this in
  assert (bool_decide (index < size_ v));;;
  ret (data_ptr_ v, index).

Definition At (this : loc) (index : N) : M ptr :=
  let* v := self this in
  if bool_decide (size_ v ≤ index) then throw out_of_range
  else ret (data_ptr_ v, index).

(** [capacity_ * 2 >= wanted ? capacity_ * 2 : wanted], the capacity the
    copy constructor and [Resize] allocate. *)
Definition enlarged (capacity wanted : N) : N :=
  if bool_decide (wanted ≤ size_t_twice capacity) then size_t_twice capacity else wanted.

(** ** SimpleVector: constructors *)

Definition SimpleVector_default (this : loc) : M unit :=
  constructor this (ret (mkSimpleVector None 0 0)) (ret ()).

Definition SimpleVector_sized (this : loc) (size : N) : M unit :=
  constructor this
    (let* p := ArrayPtr_new size in ret (mkSimpleVector p size size))
    (let* b := begin this in
     let* e := end_ this in
     std_fill b e default_value).

Definition SimpleVector_filled (this : loc) (size : N) (value : T) : M unit :=
  constructor this
    (let* p := ArrayPtr_new size in ret (mkSimpleVector p size size))
    (let* b := begin this in
     let* e := end_ this in
     std_fill b e value).

Definition SimpleVector_filled_move (this : loc) (size : N) (value : T) : M unit :=
  constructor this
    (let* p := ArrayPtr_new size in ret (mkSimpleVector p size size))
    (let* b := begin this in
     let* e := end_ this in
     assert (ptr_le b e);;;
     generate_moved_loop (N.to_nat (e.2 - b.2)) b value).

Definition SimpleVector_init (this : loc) (init : list T) : M unit :=
  constructor this
    (let size := N.of_nat (length init) in
     let* p := ArrayPtr_new size in ret (mkSimpleVector p size size))
    (let* b := begin this in
     copy_from_list init b;;; ret ()).

Definition SimpleVector_copy (this other : loc) : M unit :=
  constructor this (ret (mkSimpleVector None 0 0))
    (let* v := self this in
     let* o := self other in
     (if bool_decide (size_ o ≤ capacity_ v) then
        let* ob := cbegin other in
        let* oe := cend other in
        let* b := begin this in
        std_copy ob oe b;;; ret ()
      else
        let new_capacity := enlarged (capacity_ v) (size_ o) in
        let* new_ptr := ArrayPtr_new new_capacity in
        let* ob := cbegin other in
        let* oe := cend other in
        std_copy ob oe (new_ptr, 0);;;
        set_data_ptr_ this new_ptr;;;
        set_capacity_ this new_capacity;;;
        ArrayPtr_delete (data_ptr_ v));;;
     set_size_ this (size_ o)).

Definition SimpleVector_reserved (this : loc) (other : ReserveProxyObj) : M unit :=
  constructor this
    (let* p := ArrayPtr_new (ReserveProxyObj_GetCapacity other) in
     ret (mkSimpleVector p 0 (ReserveProxyObj_GetCapacity other)))
    (ret ()).

(** ** SimpleVector: swap and assignment *)

Definition swap (this other : loc) : M unit :=
  let* a := self this in
  let* b := self other in
  set_data_ptr_ this (data_ptr_ b);;;
  set_data_ptr_ other (data_ptr_ a);;;
  set_size_ this (size_ b);;;
  set_size_ other (size_ a);;;
  set_capacity_ this (capacity_ b);;;
  set_capacity_ other (capacity_ a).

Definition SimpleVector_move (this other : loc) : M unit :=
  constructor this (ret (mkSimpleVector None 0 0)) (swap this other).

Definition fresh_object : M loc := λ s, Ok (fresh (dom (objs s))) s.

(** [operator=(const SimpleVector&)] *)
Definition assign_copy (this rhs : loc) : M loc :=
  (if bool_decide (this ≠ rhs) then
     let* rhs_copy := fresh_object in
     SimpleVector_copy rhs_copy rhs;;;
     swap this rhs_copy;;;
     destructor rhs_copy
   else ret ());;;
  ret this.

(** [operator=(SimpleVector&&)] *)
Definition assign_move (this rhs : loc) : M loc :=
  (if bool_decide (this ≠ rhs) then swap this rhs else ret ());;;
  ret this.

(** ** SimpleVector: modifiers *)

Definition PopBack (this : loc) : M unit :=
  let* v := self this in
  assert (bool_decide (size_ v ≠ 0));;;
  set_size_ this (size_t_decr (size_ v)).

(** The capacity a full vector grows to. *)
Definition grown (capacity : N) : N :=
  if bool_decide (capacity = 0) then 1 else size_t_twice capacity.

(** [PushBack(const Type&)].  The argument is taken as the value the
    reference denotes. *)
Definition PushBack (this : loc) (value : T) : M unit :=
  let* v := self this in
  if bool_decide (size_ v ≠ capacity_ v) then
    store (data_ptr_ v, size_ v) (Some value);;;
    set_size_ this (size_t_incr (size_ v))
  else
    let new_capacity := grown (capacity_ v) in
    let* new_ptr := ArrayPtr_new new_capacity in
    let* b := begin this in
    let* e := end_ this in
    std_copy b e (new_ptr, 0);;;
    store (new_ptr, size_ v) (Some value);;;
    set_data_ptr_ this new_ptr;;;
    set_capacity_ this new_capacity;;;
    set_size_ this (size_t_incr (size_ v));;;
    ArrayPtr_delete (data_ptr_ v).

(** [PushBack(Type&&)] *)
Definition PushBack_move (this : loc) (value : T) : M unit :=
  let* v := self this in
  if bool_decide (size_ v ≠ capacity_ v) then
    store (data_ptr_ v, size_ v) (Some value);;;
    set_size_ this (size_t_incr (size_ v))
  else
    let new_capacity := grown (capacity_ v) in
    let* new_ptr := ArrayPtr_new new_capacity in
    let* b := begin this in
    let* e := end_ this in
    std_move_copy b e (new_ptr, 0);;;
    store (new_ptr, size_ v) (Some value);;;
    set_data_ptr_ this new_ptr;;;
    set_capacity_ this new_capacity;;;
    set_size_ this (size_t_incr (size_ v));;;
    ArrayPtr_delete (data_ptr_ v).

Definition Erase (this : loc) (pos : ptr) : M ptr :=
  let* b := begin this in
  let* e := end_ this in
  assert (ptr_le b pos && ptr_lt pos e);;;
  let* cb := cbegin this in
  let n := std_distance cb pos in
  let* v := self this in
  let* last := end_ this in
  std_move_copy (data_ptr_ v, n + 1) last (data_ptr_ v, n);;;
  set_size_ this (size_t_decr (size_ v));;;
  ret (data_ptr_ v, n).

(** [Insert(ConstIterator, Type&&)].  This is the one overload of [Insert]
    a program can call.  [Insert(ConstIterator, const Type&)] has no model:
    its body passes [pos], a [const Type*], and [begin()] or [end()], a
    [Type*], as the two ends of one range to [std::copy_backward] and
    [std::copy], whose range ends are of one deduced type, so the member
    cannot be instantiated and a call that selects it (an lvalue or a
    [const] argument) does not compile. *)
Definition Insert_move (this : loc) (pos : ptr) (value : T) : M ptr :=
  let* b := begin this in
  let* e := end_ this in
  assert (ptr_le b pos && ptr_le pos e);;;
  let* cb := cbegin this in
  let n := std_distance cb pos in
  let* v := self this in
  if bool_decide (size_ v ≠ capacity_ v) then
    let* last := end_ this in
    std_move_copy_backward (data_ptr_ v, n) last (data_ptr_ v, size_t_incr (size_ v));;;
    store (data_ptr_ v, n) (Some value);;;
    set_size_ this (size_t_incr (size_ v));;;
    ret (data_ptr_ v, n)
  else
    let new_capacity := grown (capacity_ v) in
    let* new_ptr := ArrayPtr_new new_capacity in
    let* first := begin this in
    let* pos_in_new := std_move_copy first (data_ptr_ v, n) (new_ptr, 0) in
    store pos_in_new (Some value);;;
    let* last := end_ this in
    std_move_copy (data_ptr_ v, n) last (ptr_add pos_in_new 1);;;
    set_data_ptr_ this new_ptr;;;
    set_capacity_ this new_capacity;;;
    set_size_ this (size_t_incr (size_ v));;;
    ArrayPtr_delete (data_ptr_ v);;;
    ret pos_in_new.

Definition Reserve (this : loc) (new_capacity : N) : M unit :=
  let* v := self this in
  if bool_decide (capacity_ v < new_capacity) then
    let* new_ptr := ArrayPtr_new new_capacity in
    let* b := begin this in
    let* e := end_ this in
    std_copy b e (new_ptr, 0);;;
    set_data_ptr_ this new_ptr;;;
    set_capacity_ this new_capacity;;;
    ArrayPtr_delete (data_ptr_ v)
  else ret ().

Definition Clear (this : loc) : M unit := set_size_ this 0.

Definition Resize (this : loc) (new_size : N) : M unit :=
  let* v := self this in
  if bool_decide (new_size ≤ size_ v) then
    set_size_ this new_size
  else if bool_decide (size_ v < new_size) && bool_decide (new_size ≤ capacity_ v) then
    let* e := end_ this in
    let* b := begin this in
    std_fill e (ptr_add b new_size) default_value;;;
    set_size_ this new_size
  else if bool_decide (size_ v < new_size) && bool_decide (capacity_ v < new_size) then
    let new_capacity := enlarged (capacity_ v) new_size in
    let* new_ptr := ArrayPtr_new new_capacity in
    let* b := begin this in
    let* e := end_ this in
    std_move_copy b e (new_ptr, 0);;;
    std_fill (ptr_add (new_ptr, 0) (size_ v)) (ptr_add (new_ptr, 0) new_size) default_value;;;
    set_data_ptr_ this new_ptr;;;
    set_capacity_ this new_capacity;;;
    set_size_ this new_size;;;
    ArrayPtr_delete (data_ptr_ v)
  else ret ().

(** [v[index] = value;] and [v.At(index) = value;] *)
Definition assign_element (this : loc) (index : N) (value : T) : M unit :=
  let* p := subscript this index in store p (Some value).

Definition assign_element_At (this : loc) (index : N) (value : T) : M unit :=
  let* p := At this index in store p (Some value).

(** ** Comparison *)

(** [operator==] *)
Definition equal (lhs rhs : loc) : M bool :=
  let* n := GetSize lhs in
  let* m := GetSize rhs in
  if bool_decide (n = m) then
    let* b := cbegin lhs in
    let* e := cend lhs in
    let* rb := cbegin rhs in
    std_equal b e rb
  else ret false.

(** [operator!=] *)
Definition not_equal (lhs rhs : loc) : M bool :=
  let* r := equal lhs rhs in ret (negb r).

(** [std::lexicographical_compare(first1, last1, first2, last2)] with the
    element type's [<], for [n1 = last1 - first1] and [n2 = last2 - first2]:
    the loop runs while both ranges have elements, and afterwards answers
    whether the first range ended and the second did not. *)
Variable ltb : T → T → bool.

Fixpoint lexicographical_compare_loop (n1 n2 : nat) (first1 first2 : ptr) : M bool :=
  match n1, n2 with
  | S n1', S n2' =>
      let* x := load_value first1 in
      let* y := load_value first2 in
      if ltb x y then ret true
      else if ltb y x then ret false
      else lexicographical_compare_loop n1' n2' (ptr_add first1 1) (ptr_add first2 1)
  | O, S _ => ret true
  | _, O => ret false
  end.

Definition std_lexicographical_compare (first1 last1 first2 last2 : ptr) : M bool :=
  assert (ptr_le first1 last1);;;
  assert (ptr_le first2 last2);;;
  lexicographical_compare_loop
    (N.to_nat (last1.2 - first1.2)) (N.to_nat (last2.2 - first2.2)) first1 first2.

(** What [std::lexicographical_compare] answers on two ranges holding [xs]
    and [ys]. *)
Fixpoint lex_less (xs ys : list T) : bool :=
  match xs, ys with
  | x :: xs', y :: ys' =>
      if ltb x y then true else if ltb y x then false else lex_less xs' ys'
  | [], _ :: _ => true
  | _, [] => false
  end.

(** [operator<] *)
Definition less (lhs rhs : loc) : M bool :=
  let* b := cbegin lhs in
  let* e := cend lhs in
  let* rb := cbegin rhs in
  let* re := cend rhs in
  std_lexicographical_compare b e rb re.

(** [operator<=] *)
Definition less_equal (lhs rhs : loc) : M bool :=
  let* r := less rhs lhs in ret (negb r).

(** [operator>] *)
Definition greater (lhs rhs : loc) : M bool := less rhs lhs.

(** [operator>=] *)
Definition greater_equal (lhs rhs : loc) : M bool :=
  let* r := less lhs rhs in ret (negb r).

(** ** The class invariant and what a vector holds *)

(** The array part of the class invariant: a vector of capacity 0 holds no
    array; otherwise its array has [capacity_] slots and the first
    [length xs] of them are initialised to [xs]. *)
Definition array_holds (m : gmap addr (list slot)) (v : SimpleVector) (xs : list T) : Prop :=
  match data_ptr_ v with
  | None => capacity_ v = 0
  | Some a =>
      capacity_ v ≠ 0 ∧
      ∃ blk, m !! a = Some blk ∧
             length blk = N.to_nat (capacity_ v) ∧
             take (length xs) blk = Some <$> xs
  end.

(** In state [s] the object [this] has the fields [v], satisfies the class
    invariant, and its live elements, in order, are [xs]. *)
Definition is_vector (s : state) (this : loc) (v : SimpleVector) (xs : list T) : Prop :=
  objs s !! this = Some v ∧
  size_ v = N.of_nat (length xs) ∧
  size_ v ≤ capacity_ v ∧
  capacity_ v ≤ PTRDIFF_MAX ∧
  array_holds (mem s) v xs.

(** The heap once the array behind [p] is released. *)
Definition release (p : option addr) (m : gmap addr (list slot)) : gmap addr (list slot) :=
  match p with
  | Some a => delete a m
  | None => m
  end.

(** A block after the [n] elements from offset [i] were moved from. *)
Definition moved_range (i n : nat) (blk : list slot) : list slot :=
  take i blk ++ (moved_slot <$> take n (drop i blk)) ++ drop (i + n) blk.

(** The live elements as the iterators [begin() .. end()) read them;
    [None] when the object, its array or one of the values is missing. *)
Definition contents (s : state) (this : loc) : option (list T) :=
  match objs s !! this with
  | Some v =>
      match data_ptr_ v with
      | Some a =>
          match mem s !! a with
          | Some blk =>
              if bool_decide (N.to_nat (size_ v) ≤ length blk)%nat
              then mapM id (take (N.to_nat (size_ v)) blk)
              else None
          | None => None
          end
      | None => if bool_decide (size_ v = 0) then Some [] else None
      end
  | None => None
  end.

(** What an operation on [this] leaves alone: every other object, and every
    array that is not the one [this] held; the array [this] holds afterwards
    is its old one or a newly allocated one. *)
Definition frame (this : loc) (s s' : state) : Prop :=
  (∀ y, y ≠ this → objs s' !! y = objs s !! y) ∧
  (∀ a blk, mem s !! a = Some blk →
            (∀ v, objs s !! this = Some v → data_ptr_ v ≠ Some a) →
            mem s' !! a = Some blk) ∧
  (∀ v' a, objs s' !! this = Some v' → data_ptr_ v' = Some a →
           (∃ v, objs s !! this = Some v ∧ data_ptr_ v = Some a) ∨ mem s !! a = None).

(** The values [std::generate] stores from one repeatedly moved value:
    [value], then what moving from it leaves, and so on. *)
Fixpoint moved_values (n : nat) (value : T) : list T :=
  match n with
  | O => []
  | S n' => value :: moved_values n' (moved_from value)
  end.

(** ** Client programs used in the statements *)

(** A call [v.PushBack(x)], resolved to the [Type&&] overload when the
    argument is an rvalue. *)
Definition push_back (rvalue : bool) (this : loc) (value : T) : M unit :=
  if rvalue then PushBack_move this value else PushBack this value.

(** [for (...) v.PushBack(x);] over [values], in order. *)
Fixpoint push_all (rvalue : bool) (this : loc) (values : list T) : M unit :=
  match values with
  | [] => ret ()
  | x :: rest => push_back rvalue this x;;; push_all rvalue this rest
  end.

(** One call of a modifier on a vector. *)
Inductive modifier :=
  | call_PushBack (value : T)
  | call_PushBack_move (value : T)
  | call_PopBack
  | call_Insert_move (pos : ptr) (value : T)
  | call_Erase (pos : ptr)
  | call_Reserve (new_capacity : N)
  | call_Resize (new_size : N)
  | call_Clear
  | call_assign_element (index : N) (value : T)
  | call_assign_element_At (index : N) (value : T).

Definition modify (this : loc) (m : modifier) : M unit :=
  match m with
  | call_PushBack value => PushBack this value
  | call_PushBack_move value => PushBack_move this value
  | call_PopBack => PopBack this
  | call_Insert_move pos value => Insert_move this pos value;;; ret ()
  | call_Erase pos => Erase this pos;;; ret ()
  | call_Reserve new_capacity => Reserve this new_capacity
  | call_Resize new_size => Resize this new_size
  | call_Clear => Clear this
  | call_assign_element index value => assign_element this index value
  | call_assign_element_At index value => assign_element_At this index value
  end.

Fixpoint modify_all (this : loc) (ms : list modifier) : M unit :=
  match ms with
  | [] => ret ()
  | m :: rest => modify this m;;; modify_all this rest
  end.

(** One public operation of a client program: a declaration with one of
    the constructors, a modifier call, [swap], an assignment, or the end
    of an object's life. *)
Inductive operation :=
  | declare_default (this : loc)
  | declare_sized (this : loc) (size : N)
  | declare_filled (this : loc) (size : N) (value : T)
  | declare_filled_move (this : loc) (size : N) (value : T)
  | declare_init (this : loc) (init : list T)
  | declare_copy (this other : loc)
  | declare_move (this other : loc)
  | declare_reserved (this : loc) (capacity : N)
  | call_modifier (this : loc) (m : modifier)
  | call_swap (this other : loc)
  | call_assign_copy (this rhs : loc)
  | call_assign_move (this rhs : loc)
  | end_of_life (this : loc).

Definition perform (o : operation) : M unit :=
  match o with
  | declare_default this => SimpleVector_default this
  | declare_sized this size => SimpleVector_sized this size
  | declare_filled this size value => SimpleVector_filled this size value
  | declare_filled_move this size value => SimpleVector_filled_move this size value
  | declare_init this init => SimpleVector_init this init
  | declare_copy this other => SimpleVector_copy this other
  | declare_move this other => SimpleVector_move this other
  | declare_reserved this capacity => SimpleVector_reserved this (Reserve_proxy capacity)
  | call_modifier this m => modify this m
  | call_swap this other => swap this other
  | call_assign_copy this rhs => assign_copy this rhs;;; ret ()
  | call_assign_move this rhs => assign_move this rhs;;; ret ()
  | end_of_life this => destructor this
  end.

(** The states a client can bring about: from the empty program state by
    operations that return, or that throw and are caught. *)
Inductive reachable : state → Prop :=
  | reachable_start : reachable (mkState ∅ ∅)
  | reachable_return o s s' :
      reachable s → perform o s = Ok () s' → reachable s'
  | reachable_catch o e s s' :
      reachable s → perform o s = Throw e s' → reachable s'.

(** Every object satisfies the class invariant, and no two objects hold
    the same array. *)
Definition wf_state (s : state) : Prop :=
  (∀ x v, objs s !! x = Some v → ∃ xs, is_vector s x v xs) ∧
  (∀ x y vx vy a,
     objs s !! x = Some vx → objs s !! y = Some vy →
     data_ptr_ vx = Some a → data_ptr_ vy = Some a → x = y).

(** [P] holds of the state an operation leaves, whether it returned or
    threw; nothing is asked of undefined behaviour. *)
Definition safe_outcome {A} (P : state → Prop) (r : outcome state A) : Prop :=
  match r with
  | Ok _ s' | Throw _ s' => P s'
  | Undefined => True
  end.

(** What a run of modifiers on [d] maintains about another vector [c]:
    [c] is as it was, and [d] is a valid vector on an array of its own. *)
Definition apart (d c : loc) (vc : SimpleVector) (xc : list T) (s : state) : Prop :=
  is_vector s c vc xc ∧
  ∃ vd xd, is_vector s d vd xd ∧
           ∀ a, data_ptr_ vd = Some a → data_ptr_ vc ≠ Some a.

(** The first power of two that is at least [k] (0 for [k = 0]). *)
Definition capacity_after (k : N) : N :=
  if bool_decide (k = 0) then 0 else 2 ^ N.log2_up k.

(** [PushBack(const Type&)] with the argument as the reference it is: the
    pointer [value] is read where the body reads [value], which on a full
    vector is after the elements have been copied to the new array and
    before the old one is released.  This is the call [v.PushBack(v[k])]. *)
Definition PushBack_ref (this : loc) (value : ptr) : M unit :=
  let* v := self this in
  if bool_decide (size_ v ≠ capacity_ v) then
    let* x := load_value value in
    store (data_ptr_ v, size_ v) (Some x);;;
    set_size_ this (size_t_incr (size_ v))
  else
    let new_capacity := grown (capacity_ v) in
    let* new_ptr := ArrayPtr_new new_capacity in
    let* b := begin this in
    let* e := end_ this in
    std_copy b e (new_ptr, 0);;;
    let* x := load_value value in
    store (new_ptr, size_ v) (Some x);;;
    set_data_ptr_ this new_ptr;;;
    set_capacity_ this new_capacity;;;
    set_size_ this (size_t_incr (size_ v));;;
    ArrayPtr_delete (data_ptr_ v).

(** [x = v[index];] and [x = v.At(index);] *)
Definition read_element (this : loc) (index : N) : M T :=
  let* p := subscript this index in load_value p.

Definition read_element_At (this : loc) (index : N) : M T :=
  let* p := At this index in load_value p.

(** ** Effects of a call *)

(** What [m] establishes when run from [s]: [Q] of the result and state it
    returns, [R] of the exception and state it throws; nothing is asked of
    undefined behaviour. *)
Definition wp {A} (m : M A) (Q : A → state → Prop) (R : exn → state → Prop)
    (s : state) : Prop :=
  match m s with
  | Ok a s' => Q a s'
  | Throw e s' => R e s'
  | Undefined => True
  end.

(** [m] only reads: it never throws and leaves the state as it is. *)
Definition readonly {A} (m : M A) : Prop :=
  ∀ s (Q : A → state → Prop) R, (∀ a, Q a s) → wp m Q R s.

(** [m] never throws, and leaves the objects and the set of allocated
    arrays as they are (the elements in the arrays may change). *)
Definition quiet {A} (m : M A) : Prop :=
  ∀ s (Q : A → state → Prop) R,
    (∀ a m', dom m' = dom (mem s) → Q a (mkState (objs s) m')) → wp m Q R s.

(** A call on [this], whose fields were [v], that worked in place: the
    array pointer and the capacity are the same, and nothing was allocated
    or released. *)
Definition in_place (this : loc) (v : SimpleVector) (s s' : state) : Prop :=
  ∃ v', objs s' = <[this := v']> (objs s) ∧
        data_ptr_ v' = data_ptr_ v ∧
        capacity_ v' = capacity_ v ∧
        dom (mem s') = dom (mem s).

(** A call on [this] that moved to a larger array: the new array was not
    allocated before, the old one is released, and no other array came or
    went. *)
Definition reallocated (this : loc) (v : SimpleVector) (s s' : state) : Prop :=
  ∃ v' b, objs s' = <[this := v']> (objs s) ∧
          data_ptr_ v' = Some b ∧
          mem s !! b = None ∧
          capacity_ v < capacity_ v' ∧
          dom (mem s') = {[ b ]} ∪ dom (release (data_ptr_ v) (mem s)).

(** What a modifier call on [this] may have done when it returns: worked
    in place, or moved the elements to a larger array. *)
Definition modifier_effect (this : loc) (s s' : state) : Prop :=
  ∀ v xs, is_vector s this v xs → in_place this v s s' ∨ reallocated this v s s'.

(** A constructor call that returned: [this] is a new object that holds no
    array, or one that was not allocated before; no other array came or
    went. *)
Definition constructed (this : loc) (s s' : state) : Prop :=
  objs s !! this = None ∧
  ∃ v', objs s' = <[this := v']> (objs s) ∧
        ((data_ptr_ v' = None ∧ dom (mem s') = dom (mem s)) ∨
         (∃ b, data_ptr_ v' = Some b ∧ mem s !! b = None ∧
               dom (mem s') = {[ b ]} ∪ dom (mem s))).

(** The exception an operation throws, when it throws: [At] reports a bad
    index, everything else a failed allocation. *)
Definition thrown_by (o : operation) : exn :=
  match o with
  | call_modifier _ (call_assign_element_At _ _) => out_of_range
  | _ => bad_alloc
  end.

(** What a modifier call does to the sequence of elements, as an operation
    on lists; a position is taken by its index. *)
Definition list_after (m : modifier) (xs : list T) : list T :=
  match m with
  | call_PushBack x | call_PushBack_move x => xs ++ [x]
  | call_PopBack => take (length xs - 1) xs
  | call_Insert_move pos x =>
      take (N.to_nat pos.2) xs ++ x :: drop (N.to_nat pos.2) xs
  | call_Erase pos => take (N.to_nat pos.2) xs ++ drop (S (N.to_nat pos.2)) xs
  | call_Reserve _ => xs
  | call_Resize n =>
      take (N.to_nat n) xs ++ replicate (N.to_nat n - length xs) default_value
  | call_Clear => []
  | call_assign_element i x | call_assign_element_At i x => <[N.to_nat i := x]> xs
  end.

(** What a modifier asserts of its arguments, on a vector with fields [v]:
    [PopBack] a non-empty vector, [Insert] and [Erase] a position within
    [begin() .. end()] (short of [end()] for [Erase]), [operator[]] an
    index below the size; the others assert nothing. *)
Definition asserted (v : SimpleVector) (m : modifier) : Prop :=
  match m with
  | call_PopBack => size_ v ≠ 0
  | call_Insert_move pos _ => pos.1 = data_ptr_ v ∧ pos.2 ≤ size_ v
  | call_Erase pos => pos.1 = data_ptr_ v ∧ pos.2 < size_ v
  | call_assign_element index _ => index < size_ v
  | _ => True
  end.

(** The number of slots a modifier asks the allocator for, if any. *)
Definition requested (v : SimpleVector) (m : modifier) : option N :=
  match m with
  | call_PushBack _ | call_PushBack_move _ | call_Insert_move _ _ =>
      if bool_decide (size_ v = capacity_ v) then Some (grown (capacity_ v)) else None
  | call_Reserve n => if bool_decide (capacity_ v < n) then Some n else None
  | call_Resize n =>
      if bool_decide (capacity_ v < n) then Some (enlarged (capacity_ v) n) else None
  | _ => None
  end.

(** The exception a modifier call raises, if any: [out_of_range] from [At]
    on an index that is not below the size, [bad_alloc] when the requested
    allocation fails. *)
Definition raised (v : SimpleVector) (m : modifier) : option exn :=
  match m with
  | call_assign_element_At index _ =>
      if bool_decide (size_ v ≤ index) then Some out_of_range else None
  | _ =>
      match requested v m with
      | Some n => if alloc_ok n then None else Some bad_alloc
      | None => None
      end
  end.

(** Every allocated array is the array of some live vector. *)
Definition no_leak (s : state) : Prop :=
  ∀ a, a ∈ dom (mem s) → ∃ x v, objs s !! x = Some v ∧ data_ptr_ v = Some a.

(** * Proofs *)

(** ** Running the monad *)

Lemma bind_Ok {A B} (m : M A) (k : A → M B) s a s' :
  m s = Ok a s' → bind m k s = k a s'.
Proof. unfold bind. by intros ->. Qed.

Lemma bind_Throw {A B} (m : M A) (k : A → M B) s e s' :
  m s = Throw e s' → bind m k s = Throw e s'.
Proof. unfold bind. by intros ->. Qed.

Lemma bind_Undefined {A B} (m : M A) (k : A → M B) s :
  m s = Undefined → bind m k s = Undefined.
Proof. unfold bind. by intros ->. Qed.

Lemma self_Ok s this v : objs s !! this = Some v → self this s = Ok v s.
Proof. unfold self. by intros ->. Qed.

Lemma set_size_Ok s this v n :
  objs s !! this = Some v →
  set_size_ this n s =
    Ok () (mkState (<[this := mkSimpleVector (data_ptr_ v) n (capacity_ v)]> (objs s)) (mem s)).
Proof. intros H. unfold set_size_. by rewrite (bind_Ok _ _ _ _ _ (self_Ok _ _ _ H)). Qed.

Lemma set_capacity_Ok s this v n :
  objs s !! this = Some v →
  set_capacity_ this n s =
    Ok () (mkState (<[this := mkSimpleVector (data_ptr_ v) (size_ v) n]> (objs s)) (mem s)).
Proof. intros H. unfold set_capacity_. by rewrite (bind_Ok _ _ _ _ _ (self_Ok _ _ _ H)). Qed.

Lemma set_data_ptr_Ok s this v p :
  objs s !! this = Some v →
  set_data_ptr_ this p s =
    Ok () (mkState (<[this := mkSimpleVector p (size_ v) (capacity_ v)]> (objs s)) (mem s)).
Proof. intros H. unfold set_data_ptr_. by rewrite (bind_Ok _ _ _ _ _ (self_Ok _ _ _ H)). Qed.

(** ** [size_t] arithmetic below the wrap *)

Lemma size_t_incr_small x : x ≤ PTRDIFF_MAX → size_t_incr x = x + 1.
Proof.
  unfold size_t_incr, size_t_wrap, size_t_modulus, PTRDIFF_MAX. intros H.
  apply N.mod_small. lia.
Qed.

Lemma size_t_decr_small x : x ≠ 0 → x ≤ PTRDIFF_MAX → size_t_decr x = x - 1.
Proof.
  unfold size_t_decr, size_t_wrap, size_t_modulus, PTRDIFF_MAX. intros H0 H.
  replace (x + 2 ^ 64 - 1) with ((x - 1) + 1 * 2 ^ 64) by lia.
  rewrite N.Div0.mod_add. apply N.mod_small. lia.
Qed.

Lemma size_t_twice_small x : x ≤ PTRDIFF_MAX → size_t_twice x = x * 2.
Proof.
  unfold size_t_twice, size_t_wrap, size_t_modulus, PTRDIFF_MAX. intros H.
  apply N.mod_small. lia.
Qed.

(** ** Loads, stores and the copy loops on blocks *)

Lemma load_Ok s a blk i x :
  mem s !! a = Some blk → blk !! N.to_nat i = Some x → load (Some a, i) s = Ok x s.
Proof. unfold load. cbn. by intros -> ->. Qed.

Lemma store_Ok s a blk i x :
  mem s !! a = Some blk → (N.to_nat i < length blk)%nat →
  store (Some a, i) x s =
    Ok () (mkState (objs s) (<[a := <[N.to_nat i := x]> blk]> (mem s))).
Proof. unfold store. cbn. intros -> H. by rewrite bool_decide_true. Qed.

Lemma state_eta s : mkState (objs s) (mem s) = s.
Proof. by destruct s. Qed.

Lemma to_nat_succ (i : N) : N.to_nat (i + 1) = S (N.to_nat i).
Proof. lia. Qed.

(** [std::copy] from one block into another. *)
Lemma copy_loop_run a b n : ∀ i j A B s,
  a ≠ b → mem s !! a = Some A → mem s !! b = Some B →
  (N.to_nat i + n ≤ length A)%nat → (N.to_nat j + n ≤ length B)%nat →
  copy_loop n (Some a, i) (Some b, j) s =
    Ok (Some b, j + N.of_nat n)
       (mkState (objs s)
          (<[b := take (N.to_nat j) B ++ take n (drop (N.to_nat i) A)
                  ++ drop (N.to_nat j + n) B]> (mem s))).
Proof.
  induction n as [|n IH]; intros i j A B s Hab HA HB Hi Hj.
  - cbn. unfold ret. rewrite N.add_0_r, Nat.add_0_r, take_0, app_nil_l, take_drop.
    by rewrite insert_id, state_eta.
  - destruct (lookup_lt_is_Some_2 A (N.to_nat i)) as [x Hx]; [lia|].
    cbn [copy_loop].
    rewrite (bind_Ok _ _ _ _ _ (load_Ok _ _ _ _ _ HA Hx)).
    assert (Hj' : (N.to_nat j < length B)%nat) by lia.
    rewrite (bind_Ok _ _ _ _ _ (store_Ok _ _ _ _ x HB Hj')).
    unfold ptr_add. cbn [fst snd].
    rewrite (IH _ _ A (<[N.to_nat j := x]> B)); cbn [objs mem].
    + f_equal; [f_equal; lia|]. f_equal. rewrite insert_insert_eq. f_equal.
      rewrite !to_nat_succ.
      rewrite (take_S_r _ _ x) by (apply list_lookup_insert_eq; lia).
      rewrite take_insert_ge by lia.
      rewrite drop_insert_lt by lia.
      rewrite (drop_S _ _ _ Hx). cbn [take].
      rewrite <- app_assoc. cbn. by rewrite Nat.add_succ_r.
    + done.
    + by rewrite lookup_insert_ne.
    + by rewrite lookup_insert_eq.
    + lia.
    + rewrite length_insert. lia.
Qed.

(** [std::copy] over move iterators from one block into another: the
    target receives the elements, the source is left moved-from. *)
Lemma move_loop_run a b n : ∀ i j A B s,
  a ≠ b → mem s !! a = Some A → mem s !! b = Some B →
  (N.to_nat i + n ≤ length A)%nat → (N.to_nat j + n ≤ length B)%nat →
  move_loop n (Some a, i) (Some b, j) s =
    Ok (Some b, j + N.of_nat n)
       (mkState (objs s)
          (<[b := take (N.to_nat j) B ++ take n (drop (N.to_nat i) A)
                  ++ drop (N.to_nat j + n) B]>
             (<[a := moved_range (N.to_nat i) n A]> (mem s)))).
Proof.
  induction n as [|n IH]; intros i j A B s Hab HA HB Hi Hj.
  - cbn. unfold ret, moved_range.
    rewrite N.add_0_r, !Nat.add_0_r, !take_0, fmap_nil, !app_nil_l, !take_drop.
    rewrite (insert_id (mem s) a A HA). by rewrite insert_id, state_eta.
  - destruct (lookup_lt_is_Some_2 A (N.to_nat i)) as [x Hx]; [lia|].
    assert (Hi' : (N.to_nat i < length A)%nat) by lia.
    assert (Hj' : (N.to_nat j < length B)%nat) by lia.
    set (s1 := mkState (objs s) (<[b := <[N.to_nat j := x]> B]> (mem s))).
    assert (HA1 : mem s1 !! a = Some A) by (cbn; by rewrite lookup_insert_ne).
    set (s2 := mkState (objs s1)
                 (<[a := <[N.to_nat i := moved_slot x]> A]> (mem s1))).
    pose proof (IH (i + 1) (j + 1) (<[N.to_nat i := moved_slot x]> A)
                 (<[N.to_nat j := x]> B) s2 Hab) as Hrun.
    cbn [objs mem s1 s2] in Hrun.
    rewrite lookup_insert_eq, lookup_insert_ne, lookup_insert_eq in Hrun by done.
    rewrite !length_insert in Hrun.
    specialize (Hrun eq_refl eq_refl ltac:(lia) ltac:(lia)).
    cbn [move_loop].
    rewrite (bind_Ok _ _ _ _ _ (load_Ok _ _ _ _ _ HA Hx)).
    rewrite (bind_Ok _ _ _ _ _ (store_Ok _ _ _ _ x HB Hj')).
    rewrite (bind_Ok _ _ _ _ _ (store_Ok _ _ A _ (moved_slot x) HA1 Hi')).
    unfold ptr_add. cbn [fst snd]. subst s1 s2. cbn [objs mem] in *.
    refine (eq_trans Hrun _).
    f_equal; [f_equal; lia|]. f_equal.
    unfold moved_range. rewrite !to_nat_succ.
    rewrite (take_S_r (<[N.to_nat j := x]> B) _ x)
      by (apply list_lookup_insert_eq; lia).
    rewrite (take_S_r (<[N.to_nat i := moved_slot x]> A) _ (moved_slot x))
      by (apply list_lookup_insert_eq; lia).
    rewrite !take_insert_ge by lia.
    rewrite !drop_insert_lt by lia.
    rewrite (drop_S _ _ _ Hx). cbn [take fmap list_fmap].
    rewrite <- !app_assoc. cbn. rewrite !Nat.add_succ_r.
    apply map_eq. intros k.
    destruct (decide (k = b)) as [->|]; [by rewrite !lookup_insert_eq|].
    rewrite !(lookup_insert_ne _ b) by done.
    destruct (decide (k = a)) as [->|]; [by rewrite !lookup_insert_eq|].
    by rewrite !lookup_insert_ne by done.
Qed.

(** [std::copy] over move iterators inside one block, one slot to the left
    (the loop of [Erase]). *)
Lemma move_loop_shift a n : ∀ i A s,
  mem s !! a = Some A → (S (N.to_nat i) + n ≤ length A)%nat →
  ∃ A', length A' = length A ∧
    take (N.to_nat i + n) A' = take (N.to_nat i) A ++ take n (drop (S (N.to_nat i)) A) ∧
    move_loop n (Some a, i + 1) (Some a, i) s =
      Ok (Some a, i + N.of_nat n) (mkState (objs s) (<[a := A']> (mem s))).
Proof.
  induction n as [|n IH]; intros i A s HA Hi.
  - exists A. split; [done|]. split.
    + by rewrite Nat.add_0_r, take_0, app_nil_r.
    + cbn. unfold ret. by rewrite N.add_0_r, insert_id, state_eta.
  - destruct (lookup_lt_is_Some_2 A (S (N.to_nat i))) as [x Hx]; [lia|].
    assert (Hi0 : (N.to_nat i < length A)%nat) by lia.
    set (A1 := <[N.to_nat i := x]> A).
    set (s1 := mkState (objs s) (<[a := A1]> (mem s))).
    assert (HA1 : mem s1 !! a = Some A1) by (cbn; by rewrite lookup_insert_eq).
    assert (Hi1 : (N.to_nat (i + 1) < length A1)%nat)
      by (unfold A1; rewrite length_insert; lia).
    set (A2 := <[N.to_nat (i + 1) := moved_slot x]> A1).
    set (s2 := mkState (objs s1) (<[a := A2]> (mem s1))).
    destruct (IH (i + 1) A2 s2) as (A' & HlenA' & Htake & Hrun).
    { cbn. by rewrite lookup_insert_eq. }
    { unfold A2, A1. rewrite !length_insert. lia. }
    exists A'. split; [|split].
    + rewrite HlenA'. unfold A2, A1. by rewrite !length_insert.
    + rewrite to_nat_succ in Htake.
      replace (N.to_nat i + S n)%nat with (S (N.to_nat i) + n)%nat by lia.
      rewrite Htake. unfold A2, A1. rewrite to_nat_succ.
      rewrite take_insert_ge by lia. rewrite drop_insert_lt by lia.
      rewrite drop_insert_lt by lia.
      rewrite (take_S_r _ _ x) by (apply list_lookup_insert_eq; lia).
      rewrite take_insert_ge by lia.
      rewrite (drop_S _ _ _ Hx). cbn [take]. by rewrite <- app_assoc.
    + cbn [move_loop].
      rewrite (bind_Ok _ _ s x s); last first.
      { apply (load_Ok _ _ A); [done|]. by rewrite to_nat_succ. }
      rewrite (bind_Ok _ _ _ _ _ (store_Ok _ _ _ _ x HA Hi0)).
      fold A1 s1.
      rewrite (bind_Ok _ _ _ _ _ (store_Ok _ _ _ _ (moved_slot x) HA1 Hi1)).
      fold A2 s2. unfold ptr_add. cbn [fst snd].
      refine (eq_trans Hrun _). f_equal; [f_equal; lia|].
      subst s2 s1. cbn [objs mem]. f_equal. by rewrite !insert_insert_eq.
Qed.

(** [std::copy_backward] over move iterators inside one block, one slot to
    the right (the loop of [Insert(Type&&)]). *)
Lemma move_backward_loop_shift a n : ∀ i A s,
  mem s !! a = Some A → (S (N.to_nat i + n) ≤ length A)%nat →
  ∃ A', length A' = length A ∧
    take (N.to_nat i) A' = take (N.to_nat i) A ∧
    drop (S (N.to_nat i)) A' =
      take n (drop (N.to_nat i) A) ++ drop (S (N.to_nat i + n)) A ∧
    move_backward_loop n (Some a, i + N.of_nat n) (Some a, i + N.of_nat n + 1) s =
      Ok (Some a, i + 1) (mkState (objs s) (<[a := A']> (mem s))).
Proof.
  induction n as [|n IH]; intros i A s HA Hi.
  - exists A. repeat split.
    + by rewrite take_0, Nat.add_0_r.
    + cbn. unfold ret. by rewrite N.add_0_r, insert_id, state_eta.
  - destruct (lookup_lt_is_Some_2 A (N.to_nat i + n)) as [x Hx]; [lia|].
    set (A1 := <[S (N.to_nat i + n) := x]> A).
    set (s1 := mkState (objs s) (<[a := A1]> (mem s))).
    set (A2 := <[(N.to_nat i + n)%nat := moved_slot x]> A1).
    set (s2 := mkState (objs s1) (<[a := A2]> (mem s1))).
    destruct (IH i A2 s2) as (A' & HlenA' & Htake & Hdrop & Hrun).
    { cbn. by rewrite lookup_insert_eq. }
    { unfold A2, A1. rewrite !length_insert. lia. }
    exists A'. split; [|split; [|split]].
    + rewrite HlenA'. unfold A2, A1. by rewrite !length_insert.
    + rewrite Htake. unfold A2, A1. by rewrite !take_insert_ge by lia.
    + rewrite Hdrop. unfold A2.
      rewrite (drop_insert_lt _ (S (N.to_nat i + n))) by lia.
      rewrite drop_insert_ge by lia.
      rewrite take_insert_ge by lia.
      unfold A1. rewrite drop_insert_ge by lia. rewrite take_insert_ge by lia.
      rewrite insert_take_drop by lia.
      rewrite drop_app_length' by (rewrite length_take; lia).
      rewrite (take_S_r _ n x) by (by rewrite lookup_drop).
      rewrite <- !app_assoc. cbn. by rewrite Nat.add_succ_r.
    + cbn [move_backward_loop]. unfold ptr_pred. cbn [fst snd].
      rewrite (bind_Ok _ _ s x s); last first.
      { apply (load_Ok _ _ A); [done|].
        replace (N.to_nat (N.pred (i + N.of_nat (S n)))) with (N.to_nat i + n)%nat by lia.
        done. }
      rewrite (bind_Ok _ _ s () s1); last first.
      { rewrite (store_Ok _ _ A) by (done || lia). unfold s1, A1. do 4 f_equal. lia. }
      rewrite (bind_Ok _ _ s1 () s2); last first.
      { rewrite (store_Ok _ _ A1); [| by (cbn; rewrite lookup_insert_eq) |].
        - unfold s2, A2. do 4 f_equal. lia.
        - unfold A1. rewrite length_insert. lia. }
      replace (N.pred (i + N.of_nat (S n))) with (i + N.of_nat n) by lia.
      replace (N.pred (i + N.of_nat (S n) + 1)) with (i + N.of_nat n + 1) by lia.
      refine (eq_trans Hrun _). f_equal.
      subst s2 s1. cbn [objs mem]. f_equal. by rewrite !insert_insert_eq.
Qed.

(** [std::fill] / [std::generate] with a constant. *)
Lemma fill_loop_run a x n : ∀ i A s,
  mem s !! a = Some A → (N.to_nat i + n ≤ length A)%nat →
  fill_loop n (Some a, i) x s =
    Ok () (mkState (objs s)
             (<[a := take (N.to_nat i) A ++ replicate n (Some x)
                     ++ drop (N.to_nat i + n) A]> (mem s))).
Proof.
  induction n as [|n IH]; intros i A s HA Hi.
  - cbn. unfold ret. rewrite Nat.add_0_r, take_drop.
    by rewrite insert_id, state_eta.
  - cbn [fill_loop].
    assert (Hi' : (N.to_nat i < length A)%nat) by lia.
    rewrite (bind_Ok _ _ _ _ _ (store_Ok _ _ A _ (Some x) HA Hi')).
    unfold ptr_add. cbn [fst snd].
    rewrite (IH _ (<[N.to_nat i := Some x]> A)); cbn [objs mem].
    + do 2 f_equal. rewrite insert_insert_eq. f_equal.
      rewrite to_nat_succ.
      rewrite (take_S_r _ _ (Some x)) by (apply list_lookup_insert_eq; lia).
      rewrite take_insert_ge by lia.
      rewrite drop_insert_lt by lia.
      rewrite <- app_assoc. cbn. by rewrite Nat.add_succ_r.
    + by rewrite lookup_insert_eq.
    + rewrite length_insert. lia.
Qed.

(** ** The algorithms on ranges *)

Lemma ptr_le_refl p : ptr_le p p = true.
Proof.
  unfold ptr_le. rewrite bool_decide_true by done. cbn. apply N.leb_refl.
Qed.

Lemma ptr_le_same (p : option addr) i k : i ≤ k → ptr_le (p, i) (p, k) = true.
Proof.
  intros H. unfold ptr_le. cbn. rewrite bool_decide_true by done. cbn.
  by apply N.leb_le.
Qed.

Lemma std_copy_empty p d s : std_copy p p d s = Ok d s.
Proof. unfold std_copy, bind. by rewrite ptr_le_refl, N.sub_diag. Qed.

Lemma std_move_copy_empty p d s : std_move_copy p p d s = Ok d s.
Proof. unfold std_move_copy, bind. by rewrite ptr_le_refl, N.sub_diag. Qed.

Lemma std_move_copy_backward_empty p d s : std_move_copy_backward p p d s = Ok d s.
Proof. unfold std_move_copy_backward, bind. by rewrite ptr_le_refl, N.sub_diag. Qed.

Lemma std_fill_empty p x s : std_fill p p x s = Ok () s.
Proof. unfold std_fill, bind. by rewrite ptr_le_refl, N.sub_diag. Qed.

Lemma std_copy_run a b i k j A B s :
  a ≠ b → mem s !! a = Some A → mem s !! b = Some B →
  i ≤ k → (N.to_nat k ≤ length A)%nat →
  (N.to_nat j + N.to_nat (k - i) ≤ length B)%nat →
  std_copy (Some a, i) (Some a, k) (Some b, j) s =
    Ok (Some b, j + (k - i))
       (mkState (objs s)
          (<[b := take (N.to_nat j) B
                  ++ take (N.to_nat (k - i)) (drop (N.to_nat i) A)
                  ++ drop (N.to_nat j + N.to_nat (k - i)) B]> (mem s))).
Proof.
  intros Hab HA HB Hik Hk Hj. unfold std_copy, bind.
  rewrite ptr_le_same by done. cbn [assert ret fst snd].
  rewrite (copy_loop_run a b _ i j A B) by (done || lia).
  by rewrite N2Nat.id.
Qed.

Lemma std_move_copy_run a b i k j A B s :
  a ≠ b → mem s !! a = Some A → mem s !! b = Some B →
  i ≤ k → (N.to_nat k ≤ length A)%nat →
  (N.to_nat j + N.to_nat (k - i) ≤ length B)%nat →
  std_move_copy (Some a, i) (Some a, k) (Some b, j) s =
    Ok (Some b, j + (k - i))
       (mkState (objs s)
          (<[b := take (N.to_nat j) B
                  ++ take (N.to_nat (k - i)) (drop (N.to_nat i) A)
                  ++ drop (N.to_nat j + N.to_nat (k - i)) B]>
             (<[a := moved_range (N.to_nat i) (N.to_nat (k - i)) A]> (mem s)))).
Proof.
  intros Hab HA HB Hik Hk Hj. unfold std_move_copy, bind.
  rewrite ptr_le_same by done. cbn [assert ret fst snd].
  rewrite (move_loop_run a b _ i j A B) by (done || lia).
  by rewrite N2Nat.id.
Qed.

Lemma std_move_copy_shift a i k A s :
  mem s !! a = Some A → i < k → (N.to_nat k ≤ length A)%nat →
  ∃ A', length A' = length A ∧
    take (N.to_nat k - 1) A' =
      take (N.to_nat i) A ++ take (N.to_nat k - S (N.to_nat i)) (drop (S (N.to_nat i)) A) ∧
    std_move_copy (Some a, i + 1) (Some a, k) (Some a, i) s =
      Ok (Some a, k - 1) (mkState (objs s) (<[a := A']> (mem s))).
Proof.
  intros HA Hik Hk.
  destruct (move_loop_shift a (N.to_nat (k - (i + 1))) i A s HA) as (A' & Hlen & Htake & Hrun);
    [lia|].
  exists A'. split; [done|]. split.
  - replace (N.to_nat k - 1)%nat with (N.to_nat i + N.to_nat (k - (i + 1)))%nat by lia.
    rewrite Htake. do 2 f_equal. lia.
  - unfold std_move_copy, bind. rewrite ptr_le_same by lia. cbn [assert ret fst snd].
    refine (eq_trans Hrun _). do 2 f_equal. lia.
Qed.

Lemma std_move_copy_backward_shift a i k A s :
  mem s !! a = Some A → i ≤ k → (S (N.to_nat k) ≤ length A)%nat →
  ∃ A', length A' = length A ∧
    take (N.to_nat i) A' = take (N.to_nat i) A ∧
    drop (S (N.to_nat i)) A' =
      take (N.to_nat (k - i)) (drop (N.to_nat i) A) ++ drop (S (N.to_nat k)) A ∧
    std_move_copy_backward (Some a, i) (Some a, k) (Some a, k + 1) s =
      Ok (Some a, i + 1) (mkState (objs s) (<[a := A']> (mem s))).
Proof.
  intros HA Hik Hk.
  destruct (move_backward_loop_shift a (N.to_nat (k - i)) i A s HA)
    as (A' & Hlen & Htake & Hdrop & Hrun); [lia|].
  replace (i + N.of_nat (N.to_nat (k - i))) with k in Hrun by lia.
  replace (N.to_nat i + N.to_nat (k - i))%nat with (N.to_nat k) in Hdrop by lia.
  exists A'. repeat split; try done.
  unfold std_move_copy_backward, bind.
  rewrite ptr_le_same by done. by cbn [assert ret fst snd].
Qed.

Lemma std_fill_run a i k x A s :
  mem s !! a = Some A → i ≤ k → (N.to_nat k ≤ length A)%nat →
  std_fill (Some a, i) (Some a, k) x s =
    Ok () (mkState (objs s)
             (<[a := take (N.to_nat i) A ++ replicate (N.to_nat (k - i)) (Some x)
                     ++ drop (N.to_nat k) A]> (mem s))).
Proof.
  intros HA Hik Hk. unfold std_fill, bind.
  rewrite ptr_le_same by done. cbn [assert ret fst snd].
  rewrite (fill_loop_run a x _ i A) by (done || lia).
  by replace (N.to_nat i + N.to_nat (k - i))%nat with (N.to_nat k) by lia.
Qed.

(** Transferring the first [k] elements of a block to the front of a
    newly allocated one. *)
Lemma std_copy_to_new a b k A n s :
  a ≠ b → mem s !! a = Some A → mem s !! b = Some (replicate n None) →
  (N.to_nat k ≤ length A)%nat → (N.to_nat k ≤ n)%nat →
  std_copy (Some a, 0) (Some a, 0 + k) (Some b, 0) s =
    Ok (Some b, k)
       (mkState (objs s)
          (<[b := take (N.to_nat k) A ++ replicate (n - N.to_nat k) None]> (mem s))).
Proof.
  intros Hab HA HB Hk Hn.
  rewrite (std_copy_run a b 0 (0 + k) 0 A (replicate n None))
    by (done || rewrite ?length_replicate; lia).
  rewrite N.add_0_l, N.sub_0_r. change (N.to_nat 0) with 0%nat.
  by rewrite take_0, drop_0, app_nil_l, Nat.add_0_l, drop_replicate.
Qed.

Lemma std_move_copy_to_new a b k A n s :
  a ≠ b → mem s !! a = Some A → mem s !! b = Some (replicate n None) →
  (N.to_nat k ≤ length A)%nat → (N.to_nat k ≤ n)%nat →
  std_move_copy (Some a, 0) (Some a, 0 + k) (Some b, 0) s =
    Ok (Some b, k)
       (mkState (objs s)
          (<[b := take (N.to_nat k) A ++ replicate (n - N.to_nat k) None]>
             (<[a := moved_range 0 (N.to_nat k) A]> (mem s)))).
Proof.
  intros Hab HA HB Hk Hn.
  rewrite (std_move_copy_run a b 0 (0 + k) 0 A (replicate n None))
    by (done || rewrite ?length_replicate; lia).
  rewrite N.add_0_l, N.sub_0_r. change (N.to_nat 0) with 0%nat.
  by rewrite take_0, drop_0, app_nil_l, Nat.add_0_l, drop_replicate.
Qed.

Lemma insert_after_prefix (l : list slot) n m x :
  length l = n → (n < m)%nat →
  <[n := x]> (l ++ replicate (m - n) None) = (l ++ [x]) ++ replicate (m - S n) None.
Proof.
  intros <- Hm. replace (m - length l)%nat with (S (m - S (length l))) by lia.
  rewrite insert_app_r_alt by lia. rewrite Nat.sub_diag. cbn.
  by rewrite <- app_assoc.
Qed.

(** ** Allocation and release *)

Lemma fresh_block (m : gmap addr (list slot)) : m !! fresh (dom m) = None.
Proof. apply not_elem_of_dom, is_fresh. Qed.

Lemma alloc_ok_bound n : alloc_ok n = true → n ≤ PTRDIFF_MAX.
Proof.
  unfold alloc_ok. intros [_ H]%andb_prop. by apply bool_decide_eq_true in H.
Qed.

Lemma ArrayPtr_new_Ok n s :
  n ≠ 0 → alloc_ok n = true →
  ArrayPtr_new n s =
    Ok (Some (fresh (dom (mem s))))
       (mkState (objs s)
          (<[fresh (dom (mem s)) := replicate (N.to_nat n) None]> (mem s))).
Proof. intros Hn Hok. unfold ArrayPtr_new. by rewrite bool_decide_false, Hok. Qed.

Lemma ArrayPtr_new_Throw n s :
  n ≠ 0 → alloc_ok n = false → ArrayPtr_new n s = Throw bad_alloc s.
Proof. intros Hn Hok. unfold ArrayPtr_new. by rewrite bool_decide_false, Hok. Qed.

Lemma ArrayPtr_delete_Ok p s :
  (∀ a, p = Some a → is_Some (mem s !! a)) →
  ArrayPtr_delete p s = Ok () (mkState (objs s) (release p (mem s))).
Proof.
  intros H. destruct p as [a|]; cbn; [|by rewrite state_eta].
  by destruct (H a eq_refl) as [blk ->].
Qed.

Lemma release_insert_ne p b X (m : gmap addr (list slot)) :
  p ≠ Some b → release p (<[b := X]> m) = <[b := X]> (release p m).
Proof.
  intros H. destruct p as [a|]; cbn; [|done].
  apply delete_insert_ne. congruence.
Qed.

Lemma release_insert_eq a X (m : gmap addr (list slot)) :
  release (Some a) (<[a := X]> m) = release (Some a) m.
Proof. cbn. apply delete_insert_eq. Qed.

(** ** Framing and re-establishing the invariant *)

Lemma frame_intro this s v v' m' :
  objs s !! this = Some v →
  (∀ a blk, mem s !! a = Some blk → data_ptr_ v ≠ Some a → m' !! a = Some blk) →
  (∀ a, data_ptr_ v' = Some a → data_ptr_ v = Some a ∨ mem s !! a = None) →
  frame this s (mkState (<[this := v']> (objs s)) m').
Proof.
  intros Hobj Hmem Hptr. repeat split; cbn.
  - intros y Hy. by rewrite lookup_insert_ne.
  - intros a blk Ha Hv. apply Hmem; [done|]. by apply Hv.
  - intros v'' a. rewrite lookup_insert_eq. intros [= <-] Ha.
    destruct (Hptr a Ha) as [?|?]; [left; by exists v | by right].
Qed.

Lemma frame_refl this s : frame this s s.
Proof.
  repeat split; try done. intros v' a Hv Ha. left. by exists v'.
Qed.

Lemma array_holds_slice m v xs a blk i n :
  array_holds m v xs → data_ptr_ v = Some a → m !! a = Some blk →
  (i + n ≤ length xs)%nat →
  take n (drop i blk) = Some <$> take n (drop i xs).
Proof.
  unfold array_holds. intros H Ha Hblk Hin. rewrite Ha in H.
  destruct H as (_ & blk' & Hblk' & _ & Htake).
  assert (blk' = blk) as -> by congruence.
  rewrite fmap_take, fmap_drop, <- Htake.
  rewrite !take_drop_commute, take_take. do 2 f_equal. lia.
Qed.

(** ** PopBack *)

Lemma PopBack_run s this v xs :
  is_vector s this v xs → size_ v ≠ 0 →
  let v' := mkSimpleVector (data_ptr_ v) (size_ v - 1) (capacity_ v) in
  let s' := mkState (<[this := v']> (objs s)) (mem s) in
  PopBack this s = Ok () s' ∧ is_vector s' this v' (take (length xs - 1) xs).
Proof.
  intros (Hobj & Hsz & Hle & Hcap & Hblk) Hne v' s'. split.
  - unfold PopBack. rewrite (bind_Ok _ _ _ _ _ (self_Ok _ _ _ Hobj)).
    rewrite bool_decide_true by done. cbn.
    rewrite (set_size_Ok _ _ _ _ Hobj).
    rewrite size_t_decr_small by lia. done.
  - unfold is_vector. subst s' v'. cbn. rewrite lookup_insert_eq.
    rewrite length_take. repeat split; try lia.
    unfold array_holds in *. cbn.
    destruct (data_ptr_ v) as [a|]; [|done].
    destruct Hblk as (Hc & blk & Hm & Hlen & Htake). split; [done|].
    exists blk. repeat split; try done.
    by rewrite length_take, fmap_take, <- Htake, take_take.
Qed.

(** ** PushBack *)

Ltac mred := cbv beta iota; cbn [objs mem fst snd data_ptr_ size_ capacity_].
Ltac munfold :=
  repeat progress
    (unfold bind, ret, self, put, set_data_ptr_, set_size_, set_capacity_,
            begin, end_, cbegin, cend, assert, undefined, throw, ptr_add; mred).
Ltac mrun H := repeat progress (munfold; rewrite ?H, ?lookup_insert_eq).

Lemma grown_small c : c ≤ PTRDIFF_MAX → grown c = if bool_decide (c = 0) then 1 else c * 2.
Proof. intros H. unfold grown. by rewrite size_t_twice_small. Qed.

Lemma PushBack_run s this v xs x :
  is_vector s this v xs →
  (size_ v = capacity_ v → alloc_ok (grown (capacity_ v)) = true) →
  ∃ s' v',
    PushBack this x s = Ok () s' ∧
    is_vector s' this v' (xs ++ [x]) ∧
    frame this s s' ∧
    capacity_ v' =
      (if bool_decide (size_ v = capacity_ v) then grown (capacity_ v) else capacity_ v) ∧
    (size_ v ≠ capacity_ v → data_ptr_ v' = data_ptr_ v).
Proof.
  intros (Hobj & Hsz & Hle & Hcap & Hblk) Hmem.
  destruct (decide (size_ v = capacity_ v)) as [Hfull|Hfree].
  - (* growth *)
    specialize (Hmem Hfull).
    assert (Hg : grown (capacity_ v) ≠ 0).
    { rewrite grown_small by done. case_bool_decide; lia. }
    set (b := fresh (dom (mem s))).
    assert (Hb : mem s !! b = None) by apply fresh_block.
    set (c2 := grown (capacity_ v)) in *.
    set (v' := mkSimpleVector (Some b) (size_ v + 1) c2).
    set (blk' := (Some <$> (xs ++ [x])) ++ replicate (N.to_nat c2 - S (length xs)) None).
    assert (Hc2 : size_ v + 1 ≤ c2).
    { unfold c2. rewrite grown_small by done. case_bool_decide; lia. }
    exists (mkState (<[this := v']> (objs s)) (<[b := blk']> (release (data_ptr_ v) (mem s)))), v'.
    split; [|split; [|split; [|split]]].
    + unfold PushBack. munfold. rewrite Hobj. mred.
      rewrite bool_decide_false by (intros ?; done). fold c2.
      rewrite (ArrayPtr_new_Ok c2) by done. fold b. mrun Hobj.
      unfold array_holds in Hblk. destruct (data_ptr_ v) as [a|] eqn:Hp.
      * destruct Hblk as (Hc & A & HA & Hlen & Htake).
        assert (Hab : a ≠ b) by congruence.
        rewrite (std_copy_to_new a b _ A (N.to_nat c2));
          [|done|by cbn; rewrite lookup_insert_ne|by cbn; rewrite lookup_insert_eq|lia|lia].
        mred. rewrite insert_insert_eq.
        erewrite store_Ok; [|by apply lookup_insert_eq|].
        2: { rewrite !length_app, length_take, !length_replicate. cbn. lia. }
        mrun Hobj.
        rewrite ArrayPtr_delete_Ok.
        2: { intros ? [= <-]. cbn. rewrite !lookup_insert_ne by done. by rewrite HA. }
        mred. rewrite size_t_incr_small by lia.
        f_equal. f_equal; [by rewrite !insert_insert_eq|].
        rewrite !insert_insert_eq, release_insert_ne by congruence. f_equal.
        rewrite Hsz, Nat2N.id, Htake.
        rewrite insert_after_prefix by (rewrite ?length_fmap; lia).
        unfold blk'. by rewrite fmap_app.
      * assert (Hxs : xs = []) by (apply length_zero_iff_nil; lia).
        assert (Hc2' : c2 = 1).
        { unfold c2. rewrite grown_small by done. by rewrite bool_decide_true. }
        assert (Hs0 : size_ v = 0) by lia.
        unfold v'. rewrite Hs0. change (0 + 0) with 0.
        rewrite std_copy_empty. mred.
        erewrite store_Ok; [|by apply lookup_insert_eq|].
        2: { rewrite length_replicate. lia. }
        mrun Hobj. cbn [ArrayPtr_delete release]. rewrite size_t_incr_small by lia.
        f_equal. f_equal; [by rewrite !insert_insert_eq|].
        rewrite !insert_insert_eq. f_equal.
        unfold blk'. rewrite Hxs, Hc2'. done.
    + split; [|split; [|split; [|split]]]; cbn.
      * by rewrite lookup_insert_eq.
      * rewrite length_app. cbn. lia.
      * done.
      * by apply alloc_ok_bound.
      * unfold array_holds. cbn. split; [done|].
        exists blk'. split; [by apply lookup_insert_eq|].
        unfold blk'. split.
        -- rewrite length_app, length_fmap, length_replicate, length_app. cbn. lia.
        -- by rewrite take_app_length' by (by rewrite length_fmap).
    + apply (frame_intro this s v); [done| |].
      * intros a' blk Ha' Hne. rewrite lookup_insert_ne by congruence.
        destruct (data_ptr_ v) as [a|]; cbn; [|done].
        rewrite lookup_delete_ne; [done|congruence].
      * intros a' [= <-]. by right.
    + cbn. by rewrite bool_decide_true.
    + done.
  - unfold array_holds in Hblk. destruct (data_ptr_ v) as [a|] eqn:Hp; [|lia].
    destruct Hblk as (Hc & A & HA & Hlen & Htake).
    set (v' := mkSimpleVector (Some a) (size_ v + 1) (capacity_ v)).
    exists (mkState (<[this := v']> (objs s))
              (<[a := <[N.to_nat (size_ v) := Some x]> A]> (mem s))), v'.
    split; [|split; [|split; [|split]]].
    + unfold PushBack. munfold. rewrite Hobj. mred.
      rewrite bool_decide_true by done. rewrite Hp.
      rewrite (store_Ok _ _ A) by (done || lia). munfold.
      rewrite Hobj. mred. rewrite size_t_incr_small by lia. by rewrite Hp.
    + split; [|split; [|split; [|split]]]; cbn.
      * by rewrite lookup_insert_eq.
      * rewrite length_app. cbn. lia.
      * lia.
      * done.
      * unfold array_holds. cbn. split; [done|].
        eexists. split; [by apply lookup_insert_eq|].
        split; [by rewrite length_insert|].
        rewrite length_app. cbn. rewrite Hsz, Nat2N.id, Nat.add_1_r.
        rewrite (take_S_r _ _ (Some x)) by (apply list_lookup_insert_eq; lia).
        rewrite take_insert_ge by lia. by rewrite Htake, fmap_app.
    + apply (frame_intro this s v); [done| |].
      * intros a' blk Ha' Hne. rewrite lookup_insert_ne; [done|]. congruence.
      * intros a' [= <-]. by left.
    + cbn. by rewrite bool_decide_false.
    + done.
Qed.

Lemma PushBack_move_run s this v xs x :
  is_vector s this v xs →
  (size_ v = capacity_ v → alloc_ok (grown (capacity_ v)) = true) →
  ∃ s' v',
    PushBack_move this x s = Ok () s' ∧
    is_vector s' this v' (xs ++ [x]) ∧
    frame this s s' ∧
    capacity_ v' =
      (if bool_decide (size_ v = capacity_ v) then grown (capacity_ v) else capacity_ v) ∧
    (size_ v ≠ capacity_ v → data_ptr_ v' = data_ptr_ v).
Proof.
  intros (Hobj & Hsz & Hle & Hcap & Hblk) Hmem.
  destruct (decide (size_ v = capacity_ v)) as [Hfull|Hfree].
  - (* growth *)
    specialize (Hmem Hfull).
    assert (Hg : grown (capacity_ v) ≠ 0).
    { rewrite grown_small by done. case_bool_decide; lia. }
    set (b := fresh (dom (mem s))).
    assert (Hb : mem s !! b = None) by apply fresh_block.
    set (c2 := grown (capacity_ v)) in *.
    set (v' := mkSimpleVector (Some b) (size_ v + 1) c2).
    set (blk' := (Some <$> (xs ++ [x])) ++ replicate (N.to_nat c2 - S (length xs)) None).
    assert (Hc2 : size_ v + 1 ≤ c2).
    { unfold c2. rewrite grown_small by done. case_bool_decide; lia. }
    exists (mkState (<[this := v']> (objs s)) (<[b := blk']> (release (data_ptr_ v) (mem s)))), v'.
    split; [|split; [|split; [|split]]].
    + unfold PushBack_move. munfold. rewrite Hobj. mred.
      rewrite bool_decide_false by (intros ?; done). fold c2.
      rewrite (ArrayPtr_new_Ok c2) by done. fold b. mrun Hobj.
      unfold array_holds in Hblk. destruct (data_ptr_ v) as [a|] eqn:Hp.
      * destruct Hblk as (Hc & A & HA & Hlen & Htake).
        assert (Hab : a ≠ b) by congruence.
        rewrite (std_move_copy_to_new a b _ A (N.to_nat c2));
          [|done|by cbn; rewrite lookup_insert_ne|by cbn; rewrite lookup_insert_eq|lia|lia].
        mred.
        erewrite store_Ok; [|by apply lookup_insert_eq|].
        2: { rewrite !length_app, length_take, !length_replicate. cbn. lia. }
        mrun Hobj.
        rewrite ArrayPtr_delete_Ok.
        2: { intros ? [= <-]. cbn. rewrite !(lookup_insert_ne _ b) by done.
             by rewrite lookup_insert_eq. }
        mred. rewrite size_t_incr_small by lia.
        f_equal. f_equal; [by rewrite !insert_insert_eq|].
        rewrite !insert_insert_eq, release_insert_ne by congruence.
        rewrite release_insert_eq, release_insert_ne by congruence.
        rewrite insert_insert_eq. f_equal.
        rewrite Hsz, Nat2N.id, Htake.
        rewrite insert_after_prefix by (rewrite ?length_fmap; lia).
        unfold blk'. by rewrite fmap_app.
      * assert (Hxs : xs = []) by (apply length_zero_iff_nil; lia).
        assert (Hc2' : c2 = 1).
        { unfold c2. rewrite grown_small by done. by rewrite bool_decide_true. }
        assert (Hs0 : size_ v = 0) by lia.
        unfold v'. rewrite Hs0. change (0 + 0) with 0.
        rewrite std_move_copy_empty. mred.
        erewrite store_Ok; [|by apply lookup_insert_eq|].
        2: { rewrite length_replicate. lia. }
        mrun Hobj. cbn [ArrayPtr_delete release]. rewrite size_t_incr_small by lia.
        f_equal. f_equal; [by rewrite !insert_insert_eq|].
        rewrite !insert_insert_eq. f_equal.
        unfold blk'. rewrite Hxs, Hc2'. done.
    + split; [|split; [|split; [|split]]]; cbn.
      * by rewrite lookup_insert_eq.
      * rewrite length_app. cbn. lia.
      * done.
      * by apply alloc_ok_bound.
      * unfold array_holds. cbn. split; [done|].
        exists blk'. split; [by apply lookup_insert_eq|].
        unfold blk'. split.
        -- rewrite length_app, length_fmap, length_replicate, length_app. cbn. lia.
        -- by rewrite take_app_length' by (by rewrite length_fmap).
    + apply (frame_intro this s v); [done| |].
      * intros a' blk Ha' Hne. rewrite lookup_insert_ne by congruence.
        destruct (data_ptr_ v) as [a|]; cbn; [|done].
        rewrite lookup_delete_ne; [done|congruence].
      * intros a' [= <-]. by right.
    + cbn. by rewrite bool_decide_true.
    + done.
  - unfold array_holds in Hblk. destruct (data_ptr_ v) as [a|] eqn:Hp; [|lia].
    destruct Hblk as (Hc & A & HA & Hlen & Htake).
    set (v' := mkSimpleVector (Some a) (size_ v + 1) (capacity_ v)).
    exists (mkState (<[this := v']> (objs s))
              (<[a := <[N.to_nat (size_ v) := Some x]> A]> (mem s))), v'.
    split; [|split; [|split; [|split]]].
    + unfold PushBack_move. munfold. rewrite Hobj. mred.
      rewrite bool_decide_true by done. rewrite Hp.
      rewrite (store_Ok _ _ A) by (done || lia). munfold.
      rewrite Hobj. mred. rewrite size_t_incr_small by lia. by rewrite Hp.
    + split; [|split; [|split; [|split]]]; cbn.
      * by rewrite lookup_insert_eq.
      * rewrite length_app. cbn. lia.
      * lia.
      * done.
      * unfold array_holds. cbn. split; [done|].
        eexists. split; [by apply lookup_insert_eq|].
        split; [by rewrite length_insert|].
        rewrite length_app. cbn. rewrite Hsz, Nat2N.id, Nat.add_1_r.
        rewrite (take_S_r _ _ (Some x)) by (apply list_lookup_insert_eq; lia).
        rewrite take_insert_ge by lia. by rewrite Htake, fmap_app.
    + apply (frame_intro this s v); [done| |].
      * intros a' blk Ha' Hne. rewrite lookup_insert_ne; [done|]. congruence.
      * intros a' [= <-]. by left.
    + cbn. by rewrite bool_decide_false.
    + done.
Qed.

Lemma push_back_run rvalue s this v xs x :
  is_vector s this v xs →
  (size_ v = capacity_ v → alloc_ok (grown (capacity_ v)) = true) →
  ∃ s' v',
    push_back rvalue this x s = Ok () s' ∧
    is_vector s' this v' (xs ++ [x]) ∧
    frame this s s' ∧
    capacity_ v' =
      (if bool_decide (size_ v = capacity_ v) then grown (capacity_ v) else capacity_ v) ∧
    (size_ v ≠ capacity_ v → data_ptr_ v' = data_ptr_ v).
Proof.
  destruct rvalue; [apply PushBack_move_run|apply PushBack_run].
Qed.

Lemma alloc_ok_mono n m : m ≤ n → alloc_ok n = true → alloc_ok m = true.
Proof.
  unfold alloc_ok. intros Hle [H1 H2]%andb_prop.
  apply bool_decide_eq_true in H1, H2.
  apply andb_true_intro. split; apply bool_decide_eq_true; lia.
Qed.

Lemma capacity_after_ge k : k ≤ capacity_after k.
Proof.
  unfold capacity_after. case_bool_decide; [lia|].
  destruct (decide (k = 1)) as [->|]; [done|].
  apply N.log2_up_spec. lia.
Qed.

Lemma capacity_after_succ k :
  capacity_after (k + 1) =
    if bool_decide (k = capacity_after k)
    then (if bool_decide (capacity_after k = 0) then 1 else capacity_after k * 2)
    else capacity_after k.
Proof.
  unfold capacity_after at 1. rewrite bool_decide_false by lia.
  destruct (decide (k = 0)) as [->|Hk0].
  { by cbn. }
  unfold capacity_after. rewrite !(bool_decide_false (k = 0)) by done.
  assert (Hpos : 2 ^ N.log2_up k ≠ 0) by (apply N.pow_nonzero; lia).
  destruct (decide (k = 1)) as [->|Hk1].
  { by cbn. }
  pose proof (N.log2_up_spec k ltac:(lia)) as [Hlo Hhi].
  pose proof (N.log2_up_pos k ltac:(lia)) as Hm.
  case_bool_decide as Hfull.
  - rewrite bool_decide_false by done.
    rewrite (N.log2_up_unique (k + 1) (N.succ (N.log2_up k))).
    + rewrite N.pow_succ_r'. lia.
    + lia.
    + rewrite N.pred_succ, N.pow_succ_r'. lia.
  - f_equal. apply N.log2_up_unique; [done|]. lia.
Qed.

Lemma capacity_after_mono k n : k ≤ n → capacity_after k ≤ capacity_after n.
Proof.
  intros H. unfold capacity_after. repeat case_bool_decide; try lia.
  apply N.pow_le_mono_r; [lia|]. by apply N.log2_up_le_mono.
Qed.

Lemma SimpleVector_default_run s this :
  objs s !! this = None →
  let v := mkSimpleVector None 0 0 in
  let s' := mkState (<[this := v]> (objs s)) (mem s) in
  SimpleVector_default this s = Ok () s' ∧ is_vector s' this v [].
Proof.
  intros Hnew v s'. split.
  - unfold SimpleVector_default, constructor. rewrite Hnew. by munfold.
  - split; [|split; [|split; [|split]]]; cbn; try done.
    by rewrite lookup_insert_eq.
Qed.

Lemma push_all_run rvalue this values : ∀ s v xs,
  is_vector s this v xs →
  capacity_ v = capacity_after (size_ v) →
  alloc_ok (capacity_after (size_ v + N.of_nat (length values))) = true →
  ∃ s' v',
    push_all rvalue this values s = Ok () s' ∧
    is_vector s' this v' (xs ++ values) ∧
    capacity_ v' = capacity_after (size_ v').
Proof.
  induction values as [|x rest IH]; intros s v xs Hv Hcap Hok.
  - exists s, v. cbn. by rewrite app_nil_r.
  - assert (Hgrow : capacity_after (size_ v + 1) =
                     if bool_decide (size_ v = capacity_ v) then grown (capacity_ v)
                     else capacity_ v).
    { rewrite capacity_after_succ, <- Hcap.
      case_bool_decide; [|done]. by rewrite grown_small by apply Hv. }
    destruct (push_back_run rvalue s this v xs x Hv) as (s1 & v1 & Hrun & Hv1 & _ & Hc1 & _).
    { intros Hfull. rewrite bool_decide_true in Hgrow by done. rewrite <- Hgrow.
      apply (alloc_ok_mono (capacity_after (size_ v + N.of_nat (length (x :: rest)))));
        [|done].
      apply capacity_after_mono. cbn [length]. lia. }
    assert (Hs1 : size_ v1 = size_ v + 1).
    { destruct Hv as (_ & -> & _), Hv1 as (_ & -> & _). rewrite length_app. cbn. lia. }
    destruct (IH s1 v1 (xs ++ [x]) Hv1) as (s2 & v2 & Hrun2 & Hv2 & Hc2).
    { by rewrite Hc1, Hs1. }
    { rewrite Hs1. cbn [length] in Hok.
      by replace (size_ v + 1 + N.of_nat (length rest))
        with (size_ v + N.of_nat (S (length rest))) by lia. }
    exists s2, v2. split; [|split; [|done]].
    + cbn [push_all]. by rewrite (bind_Ok _ _ _ _ _ Hrun).
    + by rewrite <- app_assoc in Hv2.
Qed.

Lemma push_all_app rvalue this l1 l2 s :
  push_all rvalue this (l1 ++ l2) s =
    (push_all rvalue this l1;;; push_all rvalue this l2) s.
Proof.
  revert s. induction l1 as [|x l1 IH]; intros s; [done|].
  cbn [push_all app]. unfold bind.
  destruct (push_back rvalue this x s) as [[] s1|e s1|]; [|done|done].
  rewrite IH. by unfold bind.
Qed.

Lemma mapM_id_Some (xs : list T) : mapM id (Some <$> xs) = Some xs.
Proof.
  apply mapM_Some. cbn. induction xs; by constructor.
Qed.

Lemma is_vector_contents s this v xs :
  is_vector s this v xs → contents s this = Some xs.
Proof.
  intros (Hobj & Hsz & Hle & Hcap & Hblk). unfold contents. rewrite Hobj.
  unfold array_holds in Hblk. destruct (data_ptr_ v) as [a|].
  - destruct Hblk as (_ & blk & -> & Hlen & Htake).
    rewrite bool_decide_true by lia.
    rewrite Hsz, Nat2N.id, Htake. apply mapM_id_Some.
  - rewrite bool_decide_true by lia.
    f_equal. symmetry. apply length_zero_iff_nil. lia.
Qed.

(** C3: pushing the values of a non-empty list one by one, through either
    overload of [PushBack], onto a default-constructed vector returns
    normally (memory permitting) with the values as its elements in
    insertion order, size [N] and capacity [2 ^ log2_up N], the first power
    of two that is at least [N]; and the run splits at every push into a
    prefix, that one [PushBack] and the rest, where the push leaves the
    capacity alone unless the vector is full and then takes it to
    [capacity == 0 ? 1 : capacity * 2]. *)
Theorem PushBack_doubles_to_first_power_of_two rvalue s this values :
  objs s !! this = None →
  values ≠ [] →
  alloc_ok (capacity_after (N.of_nat (length values))) = true →
  let n := N.of_nat (length values) in
  ∃ s' v',
    (SimpleVector_default this;;; push_all rvalue this values) s = Ok () s' ∧
    is_vector s' this v' values ∧
    contents s' this = Some values ∧
    size_ v' = n ∧
    capacity_ v' = 2 ^ N.log2_up n ∧
    n ≤ 2 ^ N.log2_up n ∧
    (∀ j, n ≤ 2 ^ j → 2 ^ N.log2_up n ≤ 2 ^ j) ∧
    ∀ k x, values !! k = Some x →
      ∃ sk vk sk' vk',
        (SimpleVector_default this;;; push_all rvalue this (take k values)) s = Ok () sk ∧
        is_vector sk this vk (take k values) ∧
        push_back rvalue this x sk = Ok () sk' ∧
        is_vector sk' this vk' (take (S k) values) ∧
        push_all rvalue this (drop (S k) values) sk' = Ok () s' ∧
        capacity_ vk' =
          if bool_decide (size_ vk = capacity_ vk)
          then (if bool_decide (capacity_ vk = 0) then 1 else capacity_ vk * 2)
          else capacity_ vk.
Proof.
  intros Hnew Hne Hok n.
  destruct (SimpleVector_default_run s this Hnew) as [Hrun0 Hv0].
  set (v0 := mkSimpleVector None 0 0) in *.
  set (s0 := mkState (<[this := v0]> (objs s)) (mem s)) in *.
  assert (Hn : n ≠ 0).
  { unfold n. destruct values; [done|]. cbn [length]. lia. }
  destruct (push_all_run rvalue this values s0 v0 [] Hv0) as (s' & v' & Hrun & Hv' & Hc').
  { done. }
  { by cbn. }
  cbn [app] in Hv'.
  pose proof Hv' as (_ & Hsz' & _). fold n in Hsz'.
  exists s', v'. split; [|split; [done|split; [|split; [done|split; [|split; [|split]]]]]].
  - by rewrite (bind_Ok _ _ _ _ _ Hrun0).
  - by apply (is_vector_contents _ _ v').
  - rewrite Hc', Hsz'. unfold capacity_after. by rewrite bool_decide_false.
  - pose proof (capacity_after_ge n) as Hge. unfold capacity_after in Hge.
    by rewrite bool_decide_false in Hge.
  - intros j Hj. apply N.pow_le_mono_r; [lia|].
    apply N.log2_up_le_pow2; [lia|done].
  - intros k x Hk.
    pose proof (lookup_lt_Some _ _ _ Hk) as Hklt.
    assert (Hsplit : values = take k values ++ x :: drop (S k) values)
      by (symmetry; by apply take_drop_middle).
    destruct (push_all_run rvalue this (take k values) s0 v0 [] Hv0)
      as (sk & vk & Hrunk & Hvk & Hck).
    { done. }
    { apply (alloc_ok_mono (capacity_after n)); [|done].
      apply capacity_after_mono. cbn. rewrite length_take. lia. }
    cbn [app] in Hvk.
    assert (Hgrow : capacity_after (size_ vk + 1) =
                     if bool_decide (size_ vk = capacity_ vk) then grown (capacity_ vk)
                     else capacity_ vk).
    { rewrite capacity_after_succ, <- Hck.
      case_bool_decide; [|done]. by rewrite grown_small by apply Hvk. }
    assert (Hszk : size_ vk = N.of_nat k).
    { destruct Hvk as (_ & -> & _). rewrite length_take. lia. }
    destruct (push_back_run rvalue sk this vk (take k values) x Hvk)
      as (sk' & vk' & Hpush & Hvk' & _ & Hck' & _).
    { intros Hfull. rewrite bool_decide_true in Hgrow by done. rewrite <- Hgrow.
      apply (alloc_ok_mono (capacity_after n)); [|done].
      apply capacity_after_mono. rewrite Hszk. lia. }
    rewrite <- (take_S_r _ _ _ Hk) in Hvk'.
    exists sk, vk, sk', vk'.
    split; [by rewrite (bind_Ok _ _ _ _ _ Hrun0)|].
    split; [done|]. split; [done|]. split; [done|]. split.
    + rewrite Hsplit in Hrun. rewrite push_all_app in Hrun.
      rewrite (bind_Ok _ _ _ _ _ Hrunk) in Hrun. cbn [push_all] in Hrun.
      by rewrite (bind_Ok _ _ _ _ _ Hpush) in Hrun.
    + rewrite Hck'. case_bool_decide; [|done]. by rewrite grown_small by apply Hvk.
Qed.

(** ** Reserve *)

Lemma Reserve_noop s this v n :
  objs s !! this = Some v → n ≤ capacity_ v → Reserve this n s = Ok () s.
Proof.
  intros Hobj Hn. unfold Reserve. munfold. rewrite Hobj. mred.
  by rewrite bool_decide_false by lia.
Qed.

Lemma Reserve_bad_alloc s this v n :
  objs s !! this = Some v → capacity_ v < n → alloc_ok n = false →
  Reserve this n s = Throw bad_alloc s.
Proof.
  intros Hobj Hn Hok. unfold Reserve. munfold. rewrite Hobj. mred.
  rewrite bool_decide_true by done.
  by rewrite ArrayPtr_new_Throw by (done || lia).
Qed.

Lemma Reserve_grow s this v xs n :
  is_vector s this v xs → capacity_ v < n → alloc_ok n = true →
  ∃ s' b,
    let v' := mkSimpleVector (Some b) (size_ v) n in
    Reserve this n s = Ok () s' ∧
    is_vector s' this v' xs ∧
    frame this s s' ∧
    mem s !! b = None.
Proof.
  intros (Hobj & Hsz & Hle & Hcap & Hblk) Hlt Hok.
  set (b := fresh (dom (mem s))).
  assert (Hb : mem s !! b = None) by apply fresh_block.
  set (blk' := (Some <$> xs) ++ replicate (N.to_nat n - length xs) (None : slot)).
  exists (mkState (<[this := mkSimpleVector (Some b) (size_ v) n]> (objs s))
            (<[b := blk']> (release (data_ptr_ v) (mem s)))), b.
  cbv zeta. split; [|split; [|split; [|done]]].
  - unfold Reserve. munfold. rewrite Hobj. mred.
    rewrite bool_decide_true by done.
    rewrite (ArrayPtr_new_Ok n) by (done || lia). fold b. mrun Hobj.
    unfold array_holds in Hblk. destruct (data_ptr_ v) as [a|] eqn:Hp.
    + destruct Hblk as (Hc & A & HA & Hlen & Htake).
      assert (Hab : a ≠ b) by congruence.
      rewrite (std_copy_to_new a b _ A (N.to_nat n));
        [|done|by cbn; rewrite lookup_insert_ne|by cbn; rewrite lookup_insert_eq|lia|lia].
      mrun Hobj.
      rewrite ArrayPtr_delete_Ok.
      2: { intros ? [= <-]. cbn. rewrite !lookup_insert_ne by done. by rewrite HA. }
      mred. f_equal. f_equal; [by rewrite !insert_insert_eq|].
      rewrite !insert_insert_eq, release_insert_ne by congruence. f_equal.
      unfold blk'. by rewrite Hsz, Nat2N.id, Htake.
    + assert (Hxs : xs = []) by (apply length_zero_iff_nil; lia).
      assert (Hs0 : size_ v = 0) by lia.
      replace (0 + size_ v) with 0 by lia.
      rewrite std_copy_empty. mrun Hobj. cbn [ArrayPtr_delete release].
      f_equal. f_equal; [by rewrite !insert_insert_eq|].
      rewrite ?insert_insert_eq. f_equal.
      unfold blk'. rewrite Hxs. cbn. by rewrite Nat.sub_0_r.
  - split; [|split; [|split; [|split]]]; cbn.
    + by rewrite lookup_insert_eq.
    + done.
    + lia.
    + by apply alloc_ok_bound.
    + unfold array_holds. cbn. split; [lia|].
      exists blk'. split; [by apply lookup_insert_eq|].
      unfold blk'. split.
      * rewrite length_app, length_fmap, length_replicate. lia.
      * by rewrite take_app_length' by (by rewrite length_fmap).
  - apply (frame_intro this s v); [done| |].
    + intros a' blk Ha' Hne. rewrite lookup_insert_ne by congruence.
      destruct (data_ptr_ v) as [a|]; cbn; [|done].
      rewrite lookup_delete_ne; [done|congruence].
    + intros a' [= <-]. by right.
Qed.

(** ** Erase *)

Lemma Erase_run s this v xs n :
  is_vector s this v xs → n < size_ v →
  let v' := mkSimpleVector (data_ptr_ v) (size_ v - 1) (capacity_ v) in
  ∃ s',
    Erase this (data_ptr_ v, n) s = Ok (data_ptr_ v, n) s' ∧
    is_vector s' this v' (take (N.to_nat n) xs ++ drop (S (N.to_nat n)) xs) ∧
    frame this s s'.
Proof.
  intros (Hobj & Hsz & Hle & Hcap & Hblk) Hn v'.
  unfold array_holds in Hblk. destruct (data_ptr_ v) as [a|] eqn:Hp; [|lia].
  destruct Hblk as (Hc & A & HA & Hlen & Htake).
  destruct (std_move_copy_shift a n (0 + size_ v) A s HA) as (A' & HlenA' & HtakeA' & Hrun);
    [lia|lia|].
  exists (mkState (<[this := v']> (objs s)) (<[a := A']> (mem s))).
  split; [|split].
  - unfold Erase. mrun Hobj. rewrite !Hp.
    unfold ptr_le, ptr_lt. cbn [fst snd]. rewrite !bool_decide_true by done.
    rewrite (proj2 (N.leb_le 0 n)) by lia.
    rewrite (proj2 (N.ltb_lt n (0 + size_ v))) by lia.
    cbn [andb]. mrun Hobj. rewrite !Hp.
    unfold std_distance. cbn [fst snd]. rewrite N.sub_0_r.
    rewrite Hrun. mrun Hobj. rewrite ?Hp.
    by rewrite size_t_decr_small by lia.
  - split; [|split; [|split; [|split]]]; cbn.
    + by rewrite lookup_insert_eq.
    + rewrite length_app, length_take, length_drop. lia.
    + lia.
    + done.
    + unfold array_holds. cbn. split; [done|].
      exists A'. split; [by apply lookup_insert_eq|]. split; [lia|].
      replace (length (take (N.to_nat n) xs ++ drop (S (N.to_nat n)) xs))
        with (N.to_nat (0 + size_ v) - 1)%nat
        by (rewrite length_app, length_take, length_drop; lia).
      rewrite HtakeA', fmap_app, fmap_take, fmap_drop, <- Htake.
      f_equal.
      * rewrite take_take. f_equal. lia.
      * rewrite take_drop_commute. do 2 f_equal. lia.
  - apply (frame_intro this s v); [done| |].
    + intros a' blk Ha' Hne. rewrite lookup_insert_ne; [done|congruence].
    + intros a' Ha'. left. by rewrite <- Ha'.
Qed.

Lemma load_value_live s this v xs i y :
  is_vector s this v xs → xs !! N.to_nat i = Some y →
  load_value (data_ptr_ v, i) s = Ok y s.
Proof.
  intros (Hobj & Hsz & Hle & Hcap & Hblk) Hy.
  pose proof (lookup_lt_Some _ _ _ Hy) as Hi.
  unfold array_holds in Hblk. destruct (data_ptr_ v) as [a|]; [|lia].
  destruct Hblk as (Hc & A & HA & Hlen & Htake).
  unfold load_value, bind.
  rewrite (load_Ok _ _ A _ (Some y)); [done|done|].
  rewrite <- (lookup_take_lt _ (length xs)) by done.
  by rewrite Htake, list_lookup_fmap, Hy.
Qed.

(** C9: on a non-empty vector, [Erase(end() - 1)] returns the [end()] of
    the vector as it is afterwards and keeps the first [size - 1]
    elements. *)
Theorem Erase_last_returns_end s this v xs :
  is_vector s this v xs →
  size_ v ≠ 0 →
  ∃ e r s' v',
    end_ this s = Ok e s ∧
    Erase this (ptr_pred e) s = Ok r s' ∧
    end_ this s' = Ok r s' ∧
    is_vector s' this v' (take (length xs - 1) xs) ∧
    contents s' this = Some (take (length xs - 1) xs) ∧
    size_ v' = size_ v - 1.
Proof.
  intros Hv Hne.
  pose proof Hv as (Hobj & Hsz & _).
  destruct (Erase_run s this v xs (size_ v - 1) Hv) as (s' & Hers & Hv' & _); [lia|].
  set (v' := mkSimpleVector (data_ptr_ v) (size_ v - 1) (capacity_ v)) in *.
  assert (Hxs : take (N.to_nat (size_ v - 1)) xs ++ drop (S (N.to_nat (size_ v - 1))) xs
                = take (length xs - 1) xs).
  { rewrite (drop_ge xs) by lia. rewrite app_nil_r. f_equal. lia. }
  rewrite Hxs in Hv'.
  exists (data_ptr_ v, 0 + size_ v), (data_ptr_ v, size_ v - 1), s', v'.
  split; [|split; [|split; [|split; [done|split]]]].
  - unfold end_. munfold. by rewrite Hobj.
  - unfold ptr_pred. cbn [fst snd].
    by replace (N.pred (0 + size_ v)) with (size_ v - 1) by lia.
  - unfold end_. munfold. destruct Hv' as (-> & _). mred.
    subst v'. cbn [data_ptr_ size_]. by rewrite N.add_0_l.
  - by apply (is_vector_contents _ _ v').
  - done.
Qed.

(** C10: on a non-empty vector, [PopBack] returns normally, takes one off
    the size, and leaves the capacity, the array and the first [size - 1]
    elements as they were. *)
Theorem PopBack_drops_last s this v xs :
  is_vector s this v xs →
  size_ v ≠ 0 →
  ∃ s' v',
    PopBack this s = Ok () s' ∧
    is_vector s' this v' (take (length xs - 1) xs) ∧
    contents s' this = Some (take (length xs - 1) xs) ∧
    size_ v' = size_ v - 1 ∧
    capacity_ v' = capacity_ v ∧
    data_ptr_ v' = data_ptr_ v ∧
    mem s' = mem s.
Proof.
  intros Hv Hne.
  destruct (PopBack_run s this v xs Hv Hne) as [Hrun Hv'].
  eexists _, _. split; [exact Hrun|]. split; [exact Hv'|].
  split; [by eapply is_vector_contents|]. done.
Qed.

(** C4: [Reserve(n)] with [n <= capacity] returns with the state exactly as
    it was (no array is allocated or released); with [n > capacity] it
    returns (memory permitting) with capacity exactly [n], a newly
    allocated array, and the same size and elements in the same order. *)
Theorem Reserve_is_non_destructive s this v xs n :
  is_vector s this v xs →
  (capacity_ v < n → alloc_ok n = true) →
  ∃ s' v',
    Reserve this n s = Ok () s' ∧
    is_vector s' this v' xs ∧
    contents s' this = Some xs ∧
    size_ v' = size_ v ∧
    (n ≤ capacity_ v → s' = s ∧ v' = v) ∧
    (capacity_ v < n →
       capacity_ v' = n ∧
       ∃ b, data_ptr_ v' = Some b ∧ mem s !! b = None).
Proof.
  intros Hv Hmem.
  destruct (decide (n ≤ capacity_ v)) as [Hle|Hgt].
  - exists s, v. split; [apply (Reserve_noop s this v n); [apply Hv|done]|].
    split; [done|]. split; [by apply (is_vector_contents _ _ v)|].
    split; [done|]. split; [done|]. lia.
  - assert (Hlt : capacity_ v < n) by lia.
    destruct (Reserve_grow s this v xs n Hv Hlt (Hmem Hlt)) as (s' & b & Hrun & Hv' & _ & Hb).
    eexists s', _. split; [exact Hrun|]. split; [exact Hv'|].
    split; [by eapply is_vector_contents|].
    split; [done|]. split; [lia|]. intros _. split; [done|]. by exists b.
Qed.

(** ** Resize *)

Lemma Resize_shrink_run s this v xs n :
  is_vector s this v xs → n ≤ size_ v →
  let v' := mkSimpleVector (data_ptr_ v) n (capacity_ v) in
  let s' := mkState (<[this := v']> (objs s)) (mem s) in
  Resize this n s = Ok () s' ∧
  is_vector s' this v' (take (N.to_nat n) xs) ∧
  frame this s s'.
Proof.
  intros Hv Hn v' s'. pose proof Hv as (Hobj & Hsz & Hle & Hcap & Hblk).
  split; [|split].
  - unfold Resize. mrun Hobj. rewrite bool_decide_true by done. by mrun Hobj.
  - split; [|split; [|split; [|split]]]; cbn.
    + by rewrite lookup_insert_eq.
    + rewrite length_take. lia.
    + lia.
    + done.
    + unfold array_holds in *. cbn.
      destruct (data_ptr_ v) as [a|]; [|done].
      destruct Hblk as (Hc & blk & Hm & Hlen & Htake). split; [done|].
      exists blk. split; [done|]. split; [done|].
      by rewrite length_take, fmap_take, <- Htake, take_take.
  - apply (frame_intro this s v); [done|done|]. intros a Ha. by left.
Qed.

(** C5: [Resize(n)] with [n <= size] returns with size [n], the first [n]
    elements as they were, and the capacity, the array and the heap
    untouched. *)
Theorem Resize_shrink_keeps_prefix s this v xs n :
  is_vector s this v xs →
  n ≤ size_ v →
  ∃ s' v',
    Resize this n s = Ok () s' ∧
    is_vector s' this v' (take (N.to_nat n) xs) ∧
    contents s' this = Some (take (N.to_nat n) xs) ∧
    size_ v' = n ∧
    capacity_ v' = capacity_ v ∧
    data_ptr_ v' = data_ptr_ v ∧
    mem s' = mem s.
Proof.
  intros Hv Hn.
  destruct (Resize_shrink_run s this v xs n Hv Hn) as (Hrun & Hv' & _).
  eexists _, _. split; [exact Hrun|]. split; [exact Hv'|].
  split; [by eapply is_vector_contents|]. done.
Qed.

(** ** At *)

(** C6: [At(i)] throws [out_of_range] exactly when [i >= size], and the
    state at the throw is the state it was called in; so [At(size)] and
    [At(size + 1)] throw, while on a non-empty vector [At(size - 1)]
    returns a reference to the last live element. *)
Theorem At_checks_bounds s this v xs i :
  is_vector s this v xs →
  (At this i s = Throw out_of_range s ↔ size_ v ≤ i) ∧
  (i < size_ v → At this i s = Ok (data_ptr_ v, i) s) ∧
  (∀ e s', At this i s = Throw e s' → e = out_of_range ∧ s' = s) ∧
  At this (size_ v) s = Throw out_of_range s ∧
  At this (size_t_incr (size_ v)) s = Throw out_of_range s ∧
  (size_ v ≠ 0 →
     ∃ x, At this (size_t_decr (size_ v)) s = Ok (data_ptr_ v, size_ v - 1) s ∧
          load_value (data_ptr_ v, size_ v - 1) s = Ok x s ∧
          last xs = Some x).
Proof.
  intros Hv. pose proof Hv as (Hobj & Hsz & Hle & Hcap & Hblk).
  assert (Hat : ∀ j, At this j s =
                  if bool_decide (size_ v ≤ j) then Throw out_of_range s
                  else Ok (data_ptr_ v, j) s).
  { intros j. unfold At. mrun Hobj. by case_bool_decide. }
  split; [|split; [|split; [|split; [|split]]]].
  - rewrite Hat. by case_bool_decide.
  - intros Hi. rewrite Hat. by rewrite bool_decide_false by lia.
  - intros e s'. rewrite Hat. case_bool_decide; [|done]. by intros [= <- <-].
  - rewrite Hat. by rewrite bool_decide_true by lia.
  - rewrite Hat, size_t_incr_small by lia. by rewrite bool_decide_true by lia.
  - intros Hne.
    destruct (lookup_lt_is_Some_2 xs (N.to_nat (size_ v - 1))) as [x Hx]; [lia|].
    exists x. split; [|split].
    + rewrite Hat, size_t_decr_small by lia. by rewrite bool_decide_false by lia.
    + by apply (load_value_live s this v xs).
    + rewrite last_lookup, <- Hx. f_equal. lia.
Qed.

(** ** Insert *)

Lemma length_moved_range i n (A : list slot) :
  (i + n ≤ length A)%nat → length (moved_range i n A) = length A.
Proof.
  intros H. unfold moved_range.
  rewrite !length_app, length_fmap, !length_take, !length_drop. lia.
Qed.

Lemma drop_moved_range_0 n (A : list slot) :
  (n ≤ length A)%nat → drop n (moved_range 0 n A) = drop n A.
Proof.
  intros H. unfold moved_range. rewrite take_0, drop_0, app_nil_l.
  by rewrite drop_app_length' by (rewrite length_fmap, length_take; lia).
Qed.

Lemma Insert_move_run s this v xs n x :
  is_vector s this v xs → n ≤ size_ v →
  (size_ v = capacity_ v → alloc_ok (grown (capacity_ v)) = true) →
  ∃ s' v',
    Insert_move this (data_ptr_ v, n) x s = Ok (data_ptr_ v', n) s' ∧
    is_vector s' this v' (take (N.to_nat n) xs ++ x :: drop (N.to_nat n) xs) ∧
    frame this s s' ∧
    capacity_ v' =
      (if bool_decide (size_ v = capacity_ v) then grown (capacity_ v) else capacity_ v).
Proof.
  intros (Hobj & Hsz & Hle & Hcap & Hblk) Hn Hmem.
  assert (Hlen' : length (take (N.to_nat n) xs ++ x :: drop (N.to_nat n) xs)
                  = S (length xs)).
  { rewrite length_app, length_take. cbn. rewrite length_drop. lia. }
  destruct (decide (size_ v = capacity_ v)) as [Hfull|Hfree].
  - specialize (Hmem Hfull).
    assert (Hg : grown (capacity_ v) ≠ 0).
    { rewrite grown_small by done. case_bool_decide; lia. }
    set (b := fresh (dom (mem s))).
    assert (Hb : mem s !! b = None) by apply fresh_block.
    set (c2 := grown (capacity_ v)) in *.
    assert (Hc2 : size_ v + 1 ≤ c2).
    { unfold c2. rewrite grown_small by done. case_bool_decide; lia. }
    set (v' := mkSimpleVector (Some b) (size_ v + 1) c2).
    set (blk' := (Some <$> (take (N.to_nat n) xs ++ x :: drop (N.to_nat n) xs))
                 ++ replicate (N.to_nat c2 - S (length xs)) (None : slot)).
    exists (mkState (<[this := v']> (objs s))
              (<[b := blk']> (release (data_ptr_ v) (mem s)))), v'.
    split; [|split; [|split]].
    + unfold Insert_move. mrun Hobj.
      unfold ptr_le. cbn [fst snd]. rewrite !bool_decide_true by done.
      rewrite (proj2 (N.leb_le 0 n)) by lia.
      rewrite (proj2 (N.leb_le n (0 + size_ v))) by lia.
      cbn [andb]. mrun Hobj.
      rewrite bool_decide_false by (intros ?; done). fold c2.
      rewrite (ArrayPtr_new_Ok c2) by done. fold b. mrun Hobj.
      unfold array_holds in Hblk. destruct (data_ptr_ v) as [a|] eqn:Hp.
      * destruct Hblk as (Hc & A & HA & Hlen & Htake).
        assert (Hab : a ≠ b) by congruence.
        unfold std_distance. cbn [fst snd]. rewrite N.sub_0_r.
        replace (Some a, n) with (Some a, 0 + n) at 1 by (f_equal; lia).
        rewrite (std_move_copy_to_new a b n A (N.to_nat c2));
          [|done|by cbn; rewrite lookup_insert_ne|by cbn; rewrite lookup_insert_eq|lia|lia].
        mred.
        erewrite store_Ok; [|by apply lookup_insert_eq|].
        2: { rewrite !length_app, length_take, !length_replicate. cbn. lia. }
        mred. mrun Hobj. rewrite ?Hp.
        rewrite insert_after_prefix by (rewrite ?length_take; lia).
        erewrite (std_move_copy_run a b n (0 + size_ v) (n + 1) (moved_range 0 (N.to_nat n) A));
          [|done| |by cbn; apply lookup_insert_eq|lia| |].
        2: { cbn. rewrite !(lookup_insert_ne _ b) by done. by apply lookup_insert_eq. }
        2: { rewrite length_moved_range; lia. }
        2: { rewrite !length_app, length_take, length_replicate. cbn. lia. }
        mrun Hobj.
        rewrite ArrayPtr_delete_Ok.
        2: { intros ? [= <-]. cbn. rewrite !(lookup_insert_ne _ b) by done.
             by rewrite lookup_insert_eq. }
        mred. rewrite size_t_incr_small by lia.
        f_equal. f_equal; [by rewrite !insert_insert_eq|].
        apply map_eq. intros k. cbn [release].
        destruct (decide (k = a)) as [->|Hka].
        { rewrite lookup_delete_eq, lookup_insert_ne by done.
          by rewrite lookup_delete_eq. }
        rewrite !lookup_delete_ne by done.
        destruct (decide (k = b)) as [->|Hkb].
        2: { rewrite !lookup_insert_ne by congruence.
             by rewrite lookup_delete_ne by congruence. }
        rewrite !lookup_insert_eq. f_equal.
        rewrite drop_moved_range_0 by lia.
        unfold blk'.
        rewrite to_nat_succ, take_app_length' by (rewrite length_app, length_take; cbn; lia).
        rewrite drop_app_ge by (rewrite length_app, length_take; cbn; lia).
        rewrite length_app, length_take. cbn [length].
        rewrite drop_replicate.
        rewrite fmap_app, fmap_cons, fmap_take, fmap_drop.
        rewrite <- !app_assoc. cbn [app].
        replace (take (N.to_nat n) A) with (take (N.to_nat n) (Some <$> xs)).
        2: { rewrite <- Htake, take_take. f_equal. lia. }
        f_equal. f_equal. f_equal.
        -- rewrite take_drop_commute, <- Htake. do 2 f_equal. lia.
        -- f_equal. lia.
      * assert (Hxs : xs = []) by (apply length_zero_iff_nil; lia).
        assert (Hc2' : c2 = 1).
        { unfold c2. rewrite grown_small by done. by rewrite bool_decide_true. }
        assert (Hn0 : n = 0) by lia. subst n.
        unfold std_distance. cbn [fst snd]. rewrite N.sub_0_r.
        rewrite std_move_copy_empty. mred.
        erewrite store_Ok; [|by apply lookup_insert_eq|].
        2: { rewrite length_replicate. lia. }
        mred. mrun Hobj. rewrite ?Hp. replace (0 + size_ v) with 0 by lia.
        rewrite std_move_copy_empty. mrun Hobj. cbn [ArrayPtr_delete release].
        rewrite size_t_incr_small by lia.
        f_equal. f_equal; [by rewrite !insert_insert_eq|].
        rewrite !insert_insert_eq. f_equal.
        unfold blk'. rewrite Hxs, Hc2'. done.
    + split; [|split; [|split; [|split]]]; cbn.
      * by rewrite lookup_insert_eq.
      * rewrite Hlen'. lia.
      * done.
      * by apply alloc_ok_bound.
      * unfold array_holds. cbn. split; [done|].
        exists blk'. split; [by apply lookup_insert_eq|].
        unfold blk'. split.
        -- rewrite length_app, length_fmap, length_replicate, Hlen'. lia.
        -- by rewrite take_app_length' by (by rewrite length_fmap).
    + apply (frame_intro this s v); [done| |].
      * intros a' blk Ha' Hne. rewrite lookup_insert_ne by congruence.
        destruct (data_ptr_ v) as [a|]; cbn; [|done].
        rewrite lookup_delete_ne; [done|congruence].
      * intros a' [= <-]. by right.
    + cbn. by rewrite bool_decide_true.
  - unfold array_holds in Hblk. destruct (data_ptr_ v) as [a|] eqn:Hp; [|lia].
    destruct Hblk as (Hc & A & HA & Hlen & Htake).
    set (v' := mkSimpleVector (Some a) (size_ v + 1) (capacity_ v)).
    destruct (std_move_copy_backward_shift a n (0 + size_ v) A s HA)
      as (A' & HlenA' & HtakeA' & HdropA' & Hrun); [lia|lia|].
    eexists _, v'. split; [|split; [|split]].
    + unfold Insert_move. mrun Hobj. rewrite !Hp.
      unfold ptr_le. cbn [fst snd]. rewrite !bool_decide_true by done.
      rewrite (proj2 (N.leb_le 0 n)) by lia.
      rewrite (proj2 (N.leb_le n (0 + size_ v))) by lia.
      cbn [andb]. mrun Hobj. rewrite !Hp.
      rewrite bool_decide_true by done.
      mrun Hobj. rewrite ?Hp.
      unfold std_distance. cbn [fst snd]. rewrite N.sub_0_r.
      rewrite size_t_incr_small by lia.
      replace (size_ v + 1) with (0 + size_ v + 1) at 1 by lia.
      rewrite Hrun. mred.
      erewrite store_Ok; [|by apply lookup_insert_eq|].
      2: { lia. }
      mrun Hobj. rewrite ?Hp.
      rewrite !insert_insert_eq. reflexivity.
    + split; [|split; [|split; [|split]]]; cbn.
      * by rewrite lookup_insert_eq.
      * rewrite Hlen'. lia.
      * lia.
      * done.
      * unfold array_holds. cbn. split; [done|].
        eexists. split; [by apply lookup_insert_eq|]. split.
        -- rewrite length_insert. lia.
        -- rewrite Hlen'.
           rewrite insert_take_drop by lia.
           rewrite HtakeA', HdropA'.
           rewrite take_app_ge by (rewrite length_take; lia).
           rewrite length_take.
           replace (S (length xs) - N.to_nat n `min` length A)%nat
             with (S (length xs - N.to_nat n)) by lia.
           cbn [take].
           rewrite take_app_length' by (rewrite length_take, length_drop; lia).
           rewrite fmap_app, fmap_cons, fmap_take, fmap_drop, <- Htake.
           f_equal; [rewrite take_take; f_equal; lia|]. f_equal.
           rewrite take_drop_commute. do 2 f_equal. lia.
    + apply (frame_intro this s v); [done| |].
      * intros a' blk Ha' Hne. rewrite lookup_insert_ne; [done|congruence].
      * intros a' [= <-]. by left.
    + cbn. by rewrite bool_decide_false.
Qed.

(** C7: inserting [x] at a valid position [begin() + n] and erasing at the
    iterator [Insert] returned gives back the original elements and size.
    [Insert] is [Insert(ConstIterator, Type&&)], the overload a call
    resolves to whenever it compiles.  Memory permitting, it returns
    [begin() + n] of the vector as it is afterwards, and that slot holds
    [x]; [Erase] returns the same position, which then holds the element
    that followed [x], or is [end()] when there is none. *)
Theorem Insert_then_Erase_restores s this v xs n x :
  is_vector s this v xs →
  n ≤ size_ v →
  (size_ v = capacity_ v → alloc_ok (grown (capacity_ v)) = true) →
  ∃ s1 v1 s2 v2,
    Insert_move this (data_ptr_ v, n) x s = Ok (data_ptr_ v1, n) s1 ∧
    is_vector s1 this v1 (take (N.to_nat n) xs ++ x :: drop (N.to_nat n) xs) ∧
    load_value (data_ptr_ v1, n) s1 = Ok x s1 ∧
    Erase this (data_ptr_ v1, n) s1 = Ok (data_ptr_ v2, n) s2 ∧
    is_vector s2 this v2 xs ∧
    contents s2 this = Some xs ∧
    size_ v2 = size_ v ∧
    (∀ y, xs !! N.to_nat n = Some y → load_value (data_ptr_ v2, n) s2 = Ok y s2) ∧
    (n = size_ v → end_ this s2 = Ok (data_ptr_ v2, n) s2).
Proof.
  intros Hv Hn Hmem.
  destruct (Insert_move_run s this v xs n x Hv Hn Hmem) as (s1 & v1 & Hins & Hv1 & _ & _).
  pose proof Hv as (_ & Hsz & _).
  pose proof Hv1 as (_ & Hsz1 & _).
  assert (Hlen1 : length (take (N.to_nat n) xs ++ x :: drop (N.to_nat n) xs)
                  = S (length xs)).
  { rewrite length_app, length_take. cbn. rewrite length_drop. lia. }
  rewrite Hlen1 in Hsz1.
  destruct (Erase_run s1 this v1 _ n Hv1) as (s2 & Hers & Hv2 & _); [lia|].
  set (v2 := mkSimpleVector (data_ptr_ v1) (size_ v1 - 1) (capacity_ v1)) in *.
  assert (Hback : take (N.to_nat n) (take (N.to_nat n) xs ++ x :: drop (N.to_nat n) xs)
                  ++ drop (S (N.to_nat n)) (take (N.to_nat n) xs ++ x :: drop (N.to_nat n) xs)
                  = xs).
  { rewrite take_app_length' by (rewrite length_take; lia).
    rewrite drop_app_ge by (rewrite length_take; lia).
    rewrite length_take.
    replace (S (N.to_nat n) - N.to_nat n `min` length xs)%nat with 1%nat by lia.
    cbn [drop]. by rewrite drop_0, take_drop. }
  rewrite Hback in Hv2.
  exists s1, v1, s2, v2.
  split; [done|]. split; [done|]. split.
  { apply (load_value_live s1 this v1 _ n x Hv1).
    rewrite lookup_app_r by (rewrite length_take; lia).
    rewrite length_take.
    by replace (N.to_nat n - N.to_nat n `min` length xs)%nat with 0%nat by lia. }
  split; [done|]. split; [done|].
  split; [by apply (is_vector_contents _ _ v2)|].
  split; [cbn; lia|]. split.
  - intros y Hy. by apply (load_value_live s2 this v2 xs n y Hv2).
  - intros ->. unfold end_. munfold.
    destruct Hv2 as (-> & _). mred. do 2 f_equal. cbn. lia.
Qed.

(** ** Resize beyond the size, Clear, element assignment *)

Lemma enlarged_ge c n : c ≤ PTRDIFF_MAX → n ≤ enlarged c n.
Proof.
  intros H. unfold enlarged. rewrite size_t_twice_small by done.
  case_bool_decide; lia.
Qed.

Lemma Resize_bad_alloc s this v n :
  objs s !! this = Some v → size_ v ≤ capacity_ v → capacity_ v < n →
  alloc_ok (enlarged (capacity_ v) n) = false →
  Resize this n s = Throw bad_alloc s.
Proof.
  intros Hobj Hle Hn Hok. unfold Resize. mrun Hobj.
  rewrite bool_decide_false by lia.
  rewrite (bool_decide_true (size_ v < n)) by lia.
  rewrite (bool_decide_false (n ≤ capacity_ v)) by lia.
  rewrite (bool_decide_true (capacity_ v < n)) by lia. cbn [andb].
  rewrite ArrayPtr_new_Throw; [done| |done].
  unfold enlarged. case_bool_decide; lia.
Qed.

Lemma Resize_grow_run s this v xs n :
  is_vector s this v xs → size_ v < n →
  (capacity_ v < n → alloc_ok (enlarged (capacity_ v) n) = true) →
  ∃ s' v',
    Resize this n s = Ok () s' ∧
    is_vector s' this v' (xs ++ replicate (N.to_nat n - length xs) default_value) ∧
    frame this s s' ∧
    size_ v' = n.
Proof.
  intros (Hobj & Hsz & Hle & Hcap & Hblk) Hn Hmem.
  assert (Hlen' : length (xs ++ replicate (N.to_nat n - length xs) default_value)
                  = N.to_nat n).
  { rewrite length_app, length_replicate. lia. }
  destruct (decide (n ≤ capacity_ v)) as [Hfit|Hbig].
  - unfold array_holds in Hblk. destruct (data_ptr_ v) as [a|] eqn:Hp; [|lia].
    destruct Hblk as (Hc & A & HA & Hlen & Htake).
    set (v' := mkSimpleVector (Some a) n (capacity_ v)).
    eexists _, v'. split; [|split; [|split]].
    + unfold Resize. mrun Hobj. rewrite ?Hp.
      rewrite bool_decide_false by lia.
      rewrite (bool_decide_true (size_ v < n)) by lia.
      rewrite (bool_decide_true (n ≤ capacity_ v)) by lia. cbn [andb].
      mrun Hobj. rewrite ?Hp.
      rewrite (std_fill_run a (0 + size_ v) (0 + n) default_value A) by (done || lia).
      mrun Hobj. rewrite ?Hp. reflexivity.
    + split; [|split; [|split; [|split]]]; cbn.
      * by rewrite lookup_insert_eq.
      * rewrite Hlen'. lia.
      * lia.
      * done.
      * unfold array_holds. cbn. split; [done|].
        eexists. split; [by apply lookup_insert_eq|]. split.
        -- rewrite !length_app, length_take, length_replicate, length_drop. lia.
        -- rewrite Hlen'.
           replace (N.to_nat (0 + size_ v)) with (length xs) by lia.
           rewrite Htake, app_assoc.
           rewrite take_app_length'.
           ++ rewrite fmap_app, fmap_replicate. do 2 f_equal. lia.
           ++ rewrite length_app, length_fmap, length_replicate. lia.
    + apply (frame_intro this s v); [done| |].
      * intros a' blk Ha' Hne. rewrite lookup_insert_ne; [done|congruence].
      * intros a' [= <-]. by left.
    + done.
  - assert (Hlt : capacity_ v < n) by lia. specialize (Hmem Hlt).
    set (c2 := enlarged (capacity_ v) n) in *.
    assert (Hc2 : n ≤ c2) by (by apply enlarged_ge).
    set (b := fresh (dom (mem s))).
    assert (Hb : mem s !! b = None) by apply fresh_block.
    set (v' := mkSimpleVector (Some b) n c2).
    set (blk' := (Some <$> (xs ++ replicate (N.to_nat n - length xs) default_value))
                 ++ replicate (N.to_nat c2 - N.to_nat n) (None : slot)).
    exists (mkState (<[this := v']> (objs s))
              (<[b := blk']> (release (data_ptr_ v) (mem s)))), v'.
    split; [|split; [|split]].
    + unfold Resize. mrun Hobj.
      rewrite bool_decide_false by lia.
      rewrite (bool_decide_true (size_ v < n)) by lia.
      rewrite (bool_decide_false (n ≤ capacity_ v)) by lia.
      rewrite (bool_decide_true (capacity_ v < n)) by lia. cbn [andb].
      fold c2. rewrite (ArrayPtr_new_Ok c2) by (done || lia). fold b. mrun Hobj.
      unfold array_holds in Hblk. destruct (data_ptr_ v) as [a|] eqn:Hp.
      * destruct Hblk as (Hc & A & HA & Hlen & Htake).
        assert (Hab : a ≠ b) by congruence.
        rewrite (std_move_copy_to_new a b _ A (N.to_nat c2));
          [|done|by cbn; rewrite lookup_insert_ne|by cbn; rewrite lookup_insert_eq|lia|lia].
        mred.
        erewrite (std_fill_run b (0 + size_ v) (0 + n) default_value);
          [|by cbn; apply lookup_insert_eq|lia|].
        2: { rewrite length_app, length_take, length_replicate. lia. }
        mrun Hobj.
        rewrite ArrayPtr_delete_Ok.
        2: { intros ? [= <-]. cbn. rewrite !(lookup_insert_ne _ b) by done.
             by rewrite lookup_insert_eq. }
        mred. f_equal. f_equal; [by rewrite !insert_insert_eq|].
        apply map_eq. intros k. cbn [release].
        destruct (decide (k = a)) as [->|Hka].
        { rewrite lookup_delete_eq, lookup_insert_ne by done.
          by rewrite lookup_delete_eq. }
        rewrite !lookup_delete_ne by done.
        destruct (decide (k = b)) as [->|Hkb].
        2: { rewrite !lookup_insert_ne by congruence.
             by rewrite lookup_delete_ne by congruence. }
        rewrite !lookup_insert_eq. f_equal. unfold blk'.
        replace (N.to_nat (0 + size_ v)) with (length xs) by lia.
        replace (N.to_nat (size_ v)) with (length xs) by lia.
        rewrite Htake.
        rewrite take_app_length' by (by rewrite length_fmap).
        rewrite drop_app_ge by (rewrite length_fmap; lia).
        rewrite drop_replicate, length_fmap.
        rewrite fmap_app, fmap_replicate, <- app_assoc.
        do 3 f_equal; lia.
      * assert (Hxs : xs = []) by (apply length_zero_iff_nil; lia).
        replace (0 + size_ v) with 0 by lia.
        rewrite std_move_copy_empty. mred.
        erewrite (std_fill_run b 0 (0 + n) default_value);
          [|by cbn; apply lookup_insert_eq|lia|].
        2: { rewrite length_replicate. lia. }
        mrun Hobj. cbn [ArrayPtr_delete release].
        f_equal. f_equal; [by rewrite !insert_insert_eq|].
        rewrite !insert_insert_eq. f_equal.
        unfold blk'. rewrite Hxs. cbn [length app].
        change (N.to_nat 0) with 0%nat. rewrite take_0, app_nil_l.
        rewrite drop_replicate, fmap_replicate, Nat.sub_0_r.
        do 3 f_equal; lia.
    + split; [|split; [|split; [|split]]]; cbn.
      * by rewrite lookup_insert_eq.
      * rewrite Hlen'. lia.
      * done.
      * by apply alloc_ok_bound.
      * unfold array_holds. cbn. split; [lia|].
        exists blk'. split; [by apply lookup_insert_eq|].
        unfold blk'. split.
        -- rewrite length_app, length_fmap, length_replicate, Hlen'. lia.
        -- by rewrite take_app_length' by (by rewrite length_fmap).
    + apply (frame_intro this s v); [done| |].
      * intros a' blk Ha' Hne. rewrite lookup_insert_ne by congruence.
        destruct (data_ptr_ v) as [a|]; cbn; [|done].
        rewrite lookup_delete_ne; [done|congruence].
      * intros a' [= <-]. by right.
    + done.
Qed.

Lemma Clear_run s this v xs :
  is_vector s this v xs →
  let v' := mkSimpleVector (data_ptr_ v) 0 (capacity_ v) in
  let s' := mkState (<[this := v']> (objs s)) (mem s) in
  Clear this s = Ok () s' ∧ is_vector s' this v' [] ∧ frame this s s'.
Proof.
  intros (Hobj & Hsz & Hle & Hcap & Hblk) v' s'. split; [|split].
  - unfold Clear. by mrun Hobj.
  - split; [|split; [|split; [|split]]]; cbn; try done.
    + by rewrite lookup_insert_eq.
    + lia.
    + unfold array_holds in *. cbn. destruct (data_ptr_ v) as [a|]; [|done].
      destruct Hblk as (Hc & blk & Hm & Hlen & Htake). split; [done|].
      exists blk. by rewrite take_0.
  - apply (frame_intro this s v); [done|done|]. intros a' Ha'. by left.
Qed.

Lemma assign_element_run s this v xs i x :
  is_vector s this v xs → i < size_ v →
  ∃ s',
    assign_element this i x s = Ok () s' ∧
    assign_element_At this i x s = Ok () s' ∧
    is_vector s' this v (<[N.to_nat i := x]> xs) ∧
    frame this s s'.
Proof.
  intros (Hobj & Hsz & Hle & Hcap & Hblk) Hi.
  unfold array_holds in Hblk. destruct (data_ptr_ v) as [a|] eqn:Hp; [|lia].
  destruct Hblk as (Hc & A & HA & Hlen & Htake).
  exists (mkState (objs s) (<[a := <[N.to_nat i := Some x]> A]> (mem s))).
  split; [|split; [|split]].
  - unfold assign_element, subscript. mrun Hobj. rewrite Hp.
    rewrite bool_decide_true by done. mred.
    by rewrite (store_Ok _ _ A) by (done || lia).
  - unfold assign_element_At, At. mrun Hobj. rewrite Hp.
    rewrite bool_decide_false by lia. mred.
    by rewrite (store_Ok _ _ A) by (done || lia).
  - split; [done|]. rewrite length_insert.
    split; [done|]. split; [done|]. split; [done|].
    unfold array_holds. rewrite Hp. cbn. split; [done|].
    eexists. split; [by apply lookup_insert_eq|]. split.
    + by rewrite length_insert.
    + rewrite length_insert, take_insert_lt by lia. rewrite Htake.
      by rewrite list_fmap_insert.
  - rewrite <- (insert_id (objs s) this v Hobj) at 1.
    apply (frame_intro this s v); [done| |].
    + intros a' blk Ha' Hne. rewrite lookup_insert_ne; [done|congruence].
    + intros a' Ha'. by left.
Qed.

Lemma assign_element_out_of_range s this v i x :
  objs s !! this = Some v → size_ v ≤ i →
  assign_element this i x s = Undefined ∧
  assign_element_At this i x s = Throw out_of_range s.
Proof.
  intros Hobj Hi. split.
  - unfold assign_element, subscript. mrun Hobj.
    by rewrite bool_decide_false by lia.
  - unfold assign_element_At, At. mrun Hobj.
    by rewrite bool_decide_true by lia.
Qed.

(** ** Constructors *)

Lemma frame_new this s v' m' :
  objs s !! this = None →
  (∀ a blk, mem s !! a = Some blk → m' !! a = Some blk) →
  (∀ a, data_ptr_ v' = Some a → mem s !! a = None) →
  frame this s (mkState (<[this := v']> (objs s)) m').
Proof.
  intros Hobj Hmem Hptr. repeat split; cbn.
  - intros y Hy. by rewrite lookup_insert_ne.
  - intros a blk Ha _. by apply Hmem.
  - intros v'' a. rewrite lookup_insert_eq. intros [= <-] Ha. right. by apply Hptr.
Qed.

Lemma SimpleVector_filled_run s this n x :
  objs s !! this = None → (n ≠ 0 → alloc_ok n = true) →
  ∃ s' p,
    SimpleVector_filled this n x s = Ok () s' ∧
    is_vector s' this (mkSimpleVector p n n) (replicate (N.to_nat n) x) ∧
    frame this s s'.
Proof.
  intros Hnew Hok. destruct (decide (n = 0)) as [->|Hn].
  - exists (mkState (<[this := mkSimpleVector None 0 0]> (objs s)) (mem s)), None.
    split; [|split].
    + unfold SimpleVector_filled, constructor. rewrite Hnew.
      unfold ArrayPtr_new. munfold. rewrite bool_decide_true by done.
      repeat progress (munfold; rewrite ?lookup_insert_eq).
      change (0 + 0) with 0. by rewrite std_fill_empty.
    + split; [|split; [|split; [|split]]]; cbn; try done.
      by rewrite lookup_insert_eq.
    + by apply frame_new.
  - specialize (Hok Hn).
    set (b := fresh (dom (mem s))).
    assert (Hb : mem s !! b = None) by apply fresh_block.
    exists (mkState (<[this := mkSimpleVector (Some b) n n]> (objs s))
              (<[b := replicate (N.to_nat n) (Some x)]> (mem s))), (Some b).
    split; [|split].
    + unfold SimpleVector_filled, constructor. rewrite Hnew.
      unfold bind at 1 2. rewrite (ArrayPtr_new_Ok n) by done. fold b.
      repeat progress (munfold; rewrite ?lookup_insert_eq).
      erewrite (std_fill_run b 0 (0 + n) x);
        [|by cbn; apply lookup_insert_eq|lia|rewrite length_replicate; lia].
      mred. rewrite insert_insert_eq. do 3 f_equal.
      change (N.to_nat 0) with 0%nat. rewrite take_0, app_nil_l.
      rewrite drop_ge by (rewrite length_replicate; lia).
      rewrite app_nil_r. f_equal. lia.
    + split; [|split; [|split; [|split]]]; cbn.
      * by rewrite lookup_insert_eq.
      * rewrite length_replicate. lia.
      * done.
      * by apply alloc_ok_bound.
      * unfold array_holds. cbn. split; [done|].
        eexists. split; [by apply lookup_insert_eq|].
        rewrite !length_replicate. split; [done|].
        rewrite take_ge by (rewrite length_replicate; lia).
        by rewrite fmap_replicate.
    + apply frame_new; [done| |].
      * intros a blk Ha. rewrite lookup_insert_ne; [done|congruence].
      * by intros a [= <-].
Qed.

Lemma length_moved_values n x : length (moved_values n x) = n.
Proof. revert x. induction n as [|n IH]; intros x; cbn; [done|]. by rewrite IH. Qed.

Lemma generate_moved_loop_run a n : ∀ i x A s,
  mem s !! a = Some A → (N.to_nat i + n ≤ length A)%nat →
  generate_moved_loop n (Some a, i) x s =
    Ok () (mkState (objs s)
             (<[a := take (N.to_nat i) A ++ (Some <$> moved_values n x)
                     ++ drop (N.to_nat i + n) A]> (mem s))).
Proof.
  induction n as [|n IH]; intros i x A s HA Hi.
  - cbn. unfold ret. rewrite Nat.add_0_r, take_drop.
    by rewrite insert_id, state_eta.
  - cbn [generate_moved_loop moved_values].
    assert (Hi' : (N.to_nat i < length A)%nat) by lia.
    rewrite (bind_Ok _ _ _ _ _ (store_Ok _ _ A _ (Some x) HA Hi')).
    unfold ptr_add. cbn [fst snd].
    rewrite (IH _ _ (<[N.to_nat i := Some x]> A)); cbn [objs mem].
    + do 2 f_equal. rewrite insert_insert_eq. f_equal.
      rewrite to_nat_succ.
      rewrite (take_S_r _ _ (Some x)) by (apply list_lookup_insert_eq; lia).
      rewrite take_insert_ge by lia.
      rewrite drop_insert_lt by lia.
      rewrite <- app_assoc. cbn. by rewrite Nat.add_succ_r.
    + by rewrite lookup_insert_eq.
    + rewrite length_insert. lia.
Qed.

Lemma copy_from_list_run a init : ∀ i A s,
  mem s !! a = Some A → (N.to_nat i + length init ≤ length A)%nat →
  copy_from_list init (Some a, i) s =
    Ok (Some a, i + N.of_nat (length init))
       (mkState (objs s)
          (<[a := take (N.to_nat i) A ++ (Some <$> init)
                  ++ drop (N.to_nat i + length init) A]> (mem s))).
Proof.
  induction init as [|x init IH]; intros i A s HA Hi.
  - cbn. unfold ret. rewrite N.add_0_r, Nat.add_0_r, take_drop.
    by rewrite insert_id, state_eta.
  - cbn [copy_from_list length] in *.
    assert (Hi' : (N.to_nat i < length A)%nat) by lia.
    rewrite (bind_Ok _ _ _ _ _ (store_Ok _ _ A _ (Some x) HA Hi')).
    unfold ptr_add. cbn [fst snd].
    rewrite (IH _ (<[N.to_nat i := Some x]> A)); cbn [objs mem].
    + f_equal; [f_equal; lia|]. f_equal. rewrite insert_insert_eq. f_equal.
      rewrite to_nat_succ.
      rewrite (take_S_r _ _ (Some x)) by (apply list_lookup_insert_eq; lia).
      rewrite take_insert_ge by lia.
      rewrite drop_insert_lt by lia.
      rewrite <- app_assoc. cbn. by rewrite Nat.add_succ_r.
    + by rewrite lookup_insert_eq.
    + rewrite length_insert. lia.
Qed.

(** What the constructors share: an array of [n] slots is allocated, the
    body initialises its first [length xs] slots to [xs]. *)
Lemma constructor_fresh_array s this n size (xs : list T) body :
  objs s !! this = None → (n ≠ 0 → alloc_ok n = true) →
  size = N.of_nat (length xs) → size ≤ n →
  (∀ p blk s1,
     objs s1 !! this = Some (mkSimpleVector p size n) →
     match p with
     | Some b => mem s1 !! b = Some blk ∧ length blk = N.to_nat n
     | None => n = 0
     end →
     body s1 =
       Ok () (mkState (objs s1)
                (match p with
                 | Some b => <[b := (Some <$> xs) ++ drop (length xs) blk]> (mem s1)
                 | None => mem s1
                 end))) →
  ∃ s' p,
    constructor this
      (let* p := ArrayPtr_new n in ret (mkSimpleVector p size n)) body s = Ok () s' ∧
    is_vector s' this (mkSimpleVector p size n) xs ∧
    frame this s s'.
Proof.
  intros Hnew Hok Hsize Hle Hbody. destruct (decide (n = 0)) as [->|Hn].
  - exists (mkState (<[this := mkSimpleVector None size 0]> (objs s)) (mem s)), None.
    split; [|split].
    + unfold constructor. rewrite Hnew.
      unfold ArrayPtr_new. munfold. rewrite bool_decide_true by done. munfold.
      by rewrite (Hbody None []); [| cbn; by rewrite lookup_insert_eq | done].
    + split; [|split; [|split; [|split]]]; cbn; try done.
      by rewrite lookup_insert_eq.
    + by apply frame_new.
  - specialize (Hok Hn).
    set (b := fresh (dom (mem s))).
    assert (Hb : mem s !! b = None) by apply fresh_block.
    exists (mkState (<[this := mkSimpleVector (Some b) size n]> (objs s))
              (<[b := (Some <$> xs) ++ replicate (N.to_nat n - length xs) None]> (mem s))),
      (Some b).
    split; [|split].
    + unfold constructor. rewrite Hnew.
      unfold bind at 1 2. rewrite (ArrayPtr_new_Ok n) by done. fold b. munfold.
      rewrite (Hbody (Some b) (replicate (N.to_nat n) None)); cbn [objs mem].
      * by rewrite insert_insert_eq, drop_replicate.
      * by rewrite lookup_insert_eq.
      * by rewrite lookup_insert_eq, length_replicate.
    + split; [|split; [|split; [|split]]]; cbn; try done.
      * by rewrite lookup_insert_eq.
      * by apply alloc_ok_bound.
      * unfold array_holds. cbn. split; [done|].
        eexists. split; [by apply lookup_insert_eq|]. split.
        -- rewrite length_app, length_fmap, length_replicate. lia.
        -- by rewrite take_app_length' by (by rewrite length_fmap).
    + apply frame_new; [done| |].
      * intros a blk Ha. rewrite lookup_insert_ne; [done|congruence].
      * by intros a [= <-].
Qed.

Lemma SimpleVector_filled_move_run s this n x :
  objs s !! this = None → (n ≠ 0 → alloc_ok n = true) →
  ∃ s' p,
    SimpleVector_filled_move this n x s = Ok () s' ∧
    is_vector s' this (mkSimpleVector p n n) (moved_values (N.to_nat n) x) ∧
    frame this s s'.
Proof.
  intros Hnew Hok. unfold SimpleVector_filled_move.
  apply constructor_fresh_array; [done|done|by rewrite length_moved_values, N2Nat.id|done|].
  intros p blk s1 Hobj Hp. mrun Hobj.
  rewrite ptr_le_same by lia. rewrite N.add_0_l, N.sub_0_r.
  destruct p as [b|].
  - destruct Hp as [Hblk Hlen].
    rewrite (generate_moved_loop_run b _ 0 x blk) by (done || lia).
    change (N.to_nat 0) with 0%nat.
    by rewrite take_0, app_nil_l, Nat.add_0_l, length_moved_values.
  - subst n. by destruct s1.
Qed.

Lemma SimpleVector_init_run s this init :
  objs s !! this = None →
  (init ≠ [] → alloc_ok (N.of_nat (length init)) = true) →
  ∃ s' p,
    SimpleVector_init this init s = Ok () s' ∧
    is_vector s' this
      (mkSimpleVector p (N.of_nat (length init)) (N.of_nat (length init))) init ∧
    frame this s s'.
Proof.
  intros Hnew Hok. unfold SimpleVector_init. cbv zeta.
  apply constructor_fresh_array; [done| |done|done|].
  { intros Hn. apply Hok. intros ->. by apply Hn. }
  intros p blk s1 Hobj Hp. mrun Hobj.
  destruct p as [b|].
  - destruct Hp as [Hblk Hlen].
    rewrite (copy_from_list_run b init 0 blk) by (done || lia).
    change (N.to_nat 0) with 0%nat.
    by rewrite take_0, app_nil_l, Nat.add_0_l.
  - destruct init; [by destruct s1|done].
Qed.

Lemma SimpleVector_reserved_run s this n :
  objs s !! this = None → (n ≠ 0 → alloc_ok n = true) →
  ∃ s' p,
    SimpleVector_reserved this (Reserve_proxy n) s = Ok () s' ∧
    is_vector s' this (mkSimpleVector p 0 n) [] ∧
    frame this s s'.
Proof.
  intros Hnew Hok. unfold SimpleVector_reserved. cbn.
  apply constructor_fresh_array; [done|done|done|lia|].
  intros p blk s1 Hobj Hp. unfold ret. destruct p as [b|].
  - destruct Hp as [Hblk Hlen]. cbn. by rewrite drop_0, insert_id, state_eta.
  - by rewrite state_eta.
Qed.

Lemma enlarged_0 n : enlarged 0 n = n.
Proof.
  unfold enlarged. replace (size_t_twice 0) with 0 by (by vm_compute).
  case_bool_decide; [lia|done].
Qed.

Lemma SimpleVector_copy_run s this other vo xo :
  objs s !! this = None → is_vector s other vo xo →
  (size_ vo ≠ 0 → alloc_ok (size_ vo) = true) →
  ∃ s' p,
    SimpleVector_copy this other s = Ok () s' ∧
    is_vector s' this (mkSimpleVector p (size_ vo) (size_ vo)) xo ∧
    frame this s s'.
Proof.
  intros Hnew (Hobj & Hsz & Hle & Hcap & Hblk) Hok.
  assert (Hne : this ≠ other) by congruence.
  destruct (decide (size_ vo = 0)) as [H0|Hn].
  - assert (Hxs : xo = []) by (apply length_zero_iff_nil; lia).
    exists (mkState (<[this := mkSimpleVector None (size_ vo) 0]> (objs s)) (mem s)), None.
    rewrite H0. split; [|split].
    + unfold SimpleVector_copy, constructor. rewrite Hnew.
      repeat progress
        (munfold; rewrite ?lookup_insert_eq;
         rewrite ?(lookup_insert_ne _ this other), ?Hobj by done).
      rewrite bool_decide_true by lia.
      repeat progress
        (munfold; rewrite ?lookup_insert_eq;
         rewrite ?(lookup_insert_ne _ this other), ?Hobj by done).
      rewrite H0. change (0 + 0) with 0. rewrite std_copy_empty.
      repeat progress (munfold; rewrite ?lookup_insert_eq).
      by rewrite insert_insert_eq.
    + subst xo. split; [|split; [|split; [|split]]]; cbn; try done.
      by rewrite lookup_insert_eq.
    + by apply frame_new.
  - specialize (Hok Hn).
    set (b := fresh (dom (mem s))).
    assert (Hb : mem s !! b = None) by apply fresh_block.
    unfold array_holds in Hblk. destruct (data_ptr_ vo) as [a|] eqn:Hp; [|lia].
    destruct Hblk as (Hc & A & HA & Hlen & Htake).
    assert (Hab : a ≠ b) by congruence.
    exists (mkState (<[this := mkSimpleVector (Some b) (size_ vo) (size_ vo)]> (objs s))
              (<[b := Some <$> xo]> (mem s))), (Some b).
    split; [|split].
    + unfold SimpleVector_copy, constructor. rewrite Hnew.
      repeat progress
        (munfold; rewrite ?lookup_insert_eq;
         rewrite ?(lookup_insert_ne _ this other), ?Hobj by done).
      rewrite bool_decide_false by lia. rewrite enlarged_0.
      rewrite (ArrayPtr_new_Ok (size_ vo)) by done. fold b.
      repeat progress
        (munfold; rewrite ?lookup_insert_eq;
         rewrite ?(lookup_insert_ne _ this other), ?Hobj by done).
      rewrite Hp.
      rewrite (std_copy_to_new a b _ A (N.to_nat (size_ vo)));
        [|done|by cbn; rewrite lookup_insert_ne|by cbn; rewrite lookup_insert_eq|lia|lia].
      repeat progress (munfold; rewrite ?lookup_insert_eq).
      cbn [ArrayPtr_delete].
      repeat progress (munfold; rewrite ?lookup_insert_eq).
      fold b. f_equal. f_equal; [by rewrite !insert_insert_eq|].
      rewrite insert_insert_eq. f_equal.
      rewrite Nat.sub_diag. cbn. rewrite app_nil_r.
      by rewrite Hsz, Nat2N.id.
    + split; [|split; [|split; [|split]]]; cbn; try done.
      * by rewrite lookup_insert_eq.
      * by apply alloc_ok_bound.
      * unfold array_holds. cbn. split; [done|].
        eexists. split; [by apply lookup_insert_eq|]. split.
        -- rewrite length_fmap. lia.
        -- by rewrite take_ge by (by rewrite length_fmap).
    + apply frame_new; [done| |].
      * intros a' blk Ha. rewrite lookup_insert_ne; [done|congruence].
      * by intros a' [= <-].
Qed.

Lemma SimpleVector_copy_bad_alloc s this other vo :
  objs s !! this = None → objs s !! other = Some vo →
  size_ vo ≠ 0 → alloc_ok (size_ vo) = false →
  SimpleVector_copy this other s = Throw bad_alloc s.
Proof.
  intros Hnew Hobj Hn Hok.
  assert (Hne : this ≠ other) by congruence.
  unfold SimpleVector_copy, constructor. rewrite Hnew.
  repeat progress
    (munfold; rewrite ?lookup_insert_eq;
     rewrite ?(lookup_insert_ne _ this other), ?Hobj by done).
  rewrite bool_decide_false by lia. rewrite enlarged_0.
  rewrite ArrayPtr_new_Throw by done.
  unfold unwind. cbn. rewrite lookup_insert_eq. cbn.
  rewrite delete_insert_id by done. by rewrite state_eta.
Qed.

Lemma constructor_bad_alloc s this n (mk : option addr → SimpleVector) body :
  objs s !! this = None → n ≠ 0 → alloc_ok n = false →
  constructor this (let* p := ArrayPtr_new n in ret (mk p)) body s = Throw bad_alloc s.
Proof.
  intros Hnew Hn Hok. unfold constructor. rewrite Hnew.
  unfold bind. rewrite ArrayPtr_new_Throw by done.
  unfold unwind. by rewrite Hnew.
Qed.

(** ** Failures: a full vector that cannot grow, a violated precondition *)

Lemma grown_nonzero c : c ≤ PTRDIFF_MAX → grown c ≠ 0.
Proof. intros H. rewrite grown_small by done. case_bool_decide; lia. Qed.

Lemma PushBack_bad_alloc s this v x :
  objs s !! this = Some v → capacity_ v ≤ PTRDIFF_MAX →
  size_ v = capacity_ v → alloc_ok (grown (capacity_ v)) = false →
  PushBack this x s = Throw bad_alloc s.
Proof.
  intros Hobj Hcap Hfull Hok. unfold PushBack. mrun Hobj.
  rewrite bool_decide_false by (intros ?; done).
  by rewrite ArrayPtr_new_Throw by (by apply grown_nonzero || done).
Qed.

Lemma PushBack_move_bad_alloc s this v x :
  objs s !! this = Some v → capacity_ v ≤ PTRDIFF_MAX →
  size_ v = capacity_ v → alloc_ok (grown (capacity_ v)) = false →
  PushBack_move this x s = Throw bad_alloc s.
Proof.
  intros Hobj Hcap Hfull Hok. unfold PushBack_move. mrun Hobj.
  rewrite bool_decide_false by (intros ?; done).
  by rewrite ArrayPtr_new_Throw by (by apply grown_nonzero || done).
Qed.

Lemma PopBack_empty s this v :
  objs s !! this = Some v → size_ v = 0 → PopBack this s = Undefined.
Proof.
  intros Hobj H0. unfold PopBack. mrun Hobj.
  by rewrite bool_decide_false by (intros ?; done).
Qed.

(** A position passes the assertion of [Insert] only if it is
    [begin() + n] for some [n <= size]; of [Erase], for some [n < size]. *)
Lemma Insert_move_position s this v pos x :
  objs s !! this = Some v →
  (pos.1 = data_ptr_ v ∧ pos.2 ≤ size_ v) ∨ Insert_move this pos x s = Undefined.
Proof.
  intros Hobj. destruct pos as [p k]. cbn [fst snd].
  destruct (decide (p = data_ptr_ v ∧ k ≤ size_ v)) as [?|Hbad]; [by left|right].
  unfold Insert_move. mrun Hobj. unfold ptr_le. cbn [fst snd].
  destruct (decide (data_ptr_ v = p)) as [<-|Hp].
  - rewrite !bool_decide_true by done.
    assert (Hk : ¬ k ≤ 0 + size_ v) by (intros ?; apply Hbad; split; [done|lia]).
    apply N.leb_nle in Hk. rewrite Hk. by rewrite andb_false_r.
  - by rewrite (bool_decide_false (data_ptr_ v = p)) by done.
Qed.

Lemma Erase_position s this v pos :
  objs s !! this = Some v →
  (pos.1 = data_ptr_ v ∧ pos.2 < size_ v) ∨ Erase this pos s = Undefined.
Proof.
  intros Hobj. destruct pos as [p k]. cbn [fst snd].
  destruct (decide (p = data_ptr_ v ∧ k < size_ v)) as [?|Hbad]; [by left|right].
  unfold Erase. mrun Hobj. unfold ptr_le, ptr_lt. cbn [fst snd].
  destruct (decide (data_ptr_ v = p)) as [<-|Hp].
  - rewrite !bool_decide_true by done.
    assert (Hk : ¬ k < 0 + size_ v) by (intros ?; apply Hbad; split; [done|lia]).
    apply N.ltb_nlt in Hk. rewrite Hk. by rewrite !andb_false_r.
  - by rewrite (bool_decide_false (data_ptr_ v = p)) by done.
Qed.

Lemma Insert_move_bad_alloc s this v n x :
  objs s !! this = Some v → capacity_ v ≤ PTRDIFF_MAX → n ≤ size_ v →
  size_ v = capacity_ v → alloc_ok (grown (capacity_ v)) = false →
  Insert_move this (data_ptr_ v, n) x s = Throw bad_alloc s.
Proof.
  intros Hobj Hcap Hn Hfull Hok. unfold Insert_move. mrun Hobj.
  unfold ptr_le. cbn [fst snd]. rewrite !bool_decide_true by done.
  rewrite (proj2 (N.leb_le 0 n)) by lia.
  rewrite (proj2 (N.leb_le n (0 + size_ v))) by lia.
  cbn [andb]. mrun Hobj.
  rewrite bool_decide_false by (intros ?; done).
  by rewrite ArrayPtr_new_Throw by (by apply grown_nonzero || done).
Qed.

(** ** swap, move construction and move assignment *)

Lemma SimpleVector_eta v : mkSimpleVector (data_ptr_ v) (size_ v) (capacity_ v) = v.
Proof. by destruct v. Qed.

Lemma swap_run s this other a b :
  this ≠ other → objs s !! this = Some a → objs s !! other = Some b →
  swap this other s =
    Ok () (mkState (<[other := a]> (<[this := b]> (objs s))) (mem s)).
Proof.
  intros Hne Ha Hb. unfold swap.
  repeat progress
    (munfold; rewrite ?Ha, ?Hb, ?lookup_insert_eq;
     rewrite ?(lookup_insert_ne _ other this), ?(lookup_insert_ne _ this other) by done).
  f_equal. f_equal. rewrite !SimpleVector_eta.
  apply map_eq. intros k.
  destruct (decide (k = other)) as [->|]; [by rewrite !lookup_insert_eq|].
  rewrite !(lookup_insert_ne _ other) by done.
  destruct (decide (k = this)) as [->|]; [by rewrite !lookup_insert_eq|].
  by rewrite !lookup_insert_ne by done.
Qed.

Lemma is_vector_relocate s s' this other v xs :
  is_vector s this v xs → objs s' !! other = Some v → mem s' = mem s →
  is_vector s' other v xs.
Proof.
  intros (Hobj & Hrest) Hobj' Hmem. split; [done|]. by rewrite Hmem.
Qed.

(** C1 (as the code has it): move assignment between two distinct vectors
    exchanges their states, so [D] ends with [C]'s former array, size,
    capacity and elements and [C] with [D]'s former ones; assigning a
    vector to itself changes nothing; move construction leaves the new
    vector with [C]'s former state and [C] with size 0, capacity 0 and no
    array.  No array is allocated, released or written. *)
Theorem move_exchanges_state s d c vd vc xd xc :
  d ≠ c →
  is_vector s d vd xd →
  is_vector s c vc xc →
  (∃ s', assign_move d c s = Ok d s' ∧
         is_vector s' d vc xc ∧
         is_vector s' c vd xd ∧
         mem s' = mem s) ∧
  assign_move d d s = Ok d s ∧
  (∀ this, objs s !! this = None →
     ∃ s', SimpleVector_move this c s = Ok () s' ∧
           is_vector s' this vc xc ∧
           is_vector s' c (mkSimpleVector None 0 0) [] ∧
           mem s' = mem s).
Proof.
  intros Hne Hd Hc. split; [|split].
  - eexists. split; [|split; [|split]].
    + unfold assign_move. rewrite bool_decide_true by done. unfold bind at 1.
      rewrite (swap_run s d c vd vc Hne) by (apply Hd || apply Hc). reflexivity.
    + apply (is_vector_relocate s _ c d vc xc Hc); [|done]. cbn.
      rewrite lookup_insert_ne by done. by rewrite lookup_insert_eq.
    + apply (is_vector_relocate s _ d c vd xd Hd); [|done]. cbn.
      by rewrite lookup_insert_eq.
    + done.
  - unfold assign_move. by rewrite bool_decide_false by (intros H; by apply H).
  - intros this Hnew.
    assert (Hthis : this ≠ c).
    { intros ->. destruct Hc as (Hc & _). congruence. }
    eexists. split; [|split; [|split]].
    + unfold SimpleVector_move, constructor. rewrite Hnew. munfold.
      rewrite (swap_run _ this c (mkSimpleVector None 0 0) vc Hthis); cbn.
      * reflexivity.
      * by rewrite lookup_insert_eq.
      * rewrite lookup_insert_ne by done. apply Hc.
    + apply (is_vector_relocate s _ c this vc xc Hc); [|done]. cbn.
      rewrite lookup_insert_ne by done. by rewrite lookup_insert_eq.
    + split; [|split; [|split; [|split]]]; cbn; try done.
      by rewrite lookup_insert_eq.
    + done.
Qed.

(** ** Every modifier keeps the class invariant and its frame *)

Lemma modify_missing this m s : objs s !! this = None → modify this m s = Undefined.
Proof.
  intros Hnone.
  destruct m; cbn [modify];
    unfold PushBack, PushBack_move, PopBack, Insert, Insert_move, Erase, Reserve,
           Resize, Clear, assign_element, assign_element_At, subscript, At;
    by mrun Hnone.
Qed.

Lemma modify_safe this m s v xs :
  is_vector s this v xs →
  safe_outcome (λ s', (∃ v' xs', is_vector s' this v' xs') ∧ frame this s s')
    (modify this m s).
Proof.
  intros Hv. pose proof Hv as (Hobj & Hsz & Hle & Hcap & Hblk).
  assert (Hsame : (∃ v' xs', is_vector s this v' xs') ∧ frame this s s).
  { split; [by exists v, xs|apply frame_refl]. }
  destruct m as [x|x| |pos x|pos|n|n| |i x|i x]; cbn [modify].
  - destruct (decide (size_ v = capacity_ v)) as [Hfull|Hfree];
      [destruct (alloc_ok (grown (capacity_ v))) eqn:Hok|].
    + destruct (PushBack_run s this v xs x Hv) as (s' & v' & -> & Hv' & Hfr & _); [done|].
      split; [by exists v', (xs ++ [x])|done].
    + by rewrite (PushBack_bad_alloc s this v x).
    + destruct (PushBack_run s this v xs x Hv) as (s' & v' & -> & Hv' & Hfr & _); [done|].
      split; [by exists v', (xs ++ [x])|done].
  - destruct (decide (size_ v = capacity_ v)) as [Hfull|Hfree];
      [destruct (alloc_ok (grown (capacity_ v))) eqn:Hok|].
    + destruct (PushBack_move_run s this v xs x Hv) as (s' & v' & -> & Hv' & Hfr & _); [done|].
      split; [by exists v', (xs ++ [x])|done].
    + by rewrite (PushBack_move_bad_alloc s this v x).
    + destruct (PushBack_move_run s this v xs x Hv) as (s' & v' & -> & Hv' & Hfr & _); [done|].
      split; [by exists v', (xs ++ [x])|done].
  - destruct (decide (size_ v = 0)) as [H0|Hne].
    + by rewrite (PopBack_empty s this v).
    + destruct (PopBack_run s this v xs Hv Hne) as [-> Hv']. cbn. split.
      * by eexists _, _.
      * apply (frame_intro this s v); [done|done|]. intros a Ha. by left.
  - destruct (Insert_move_position s this v pos x Hobj) as [[Hp Hk]|Hbad].
    2: { unfold bind. by rewrite Hbad. }
    destruct pos as [p k]. cbn [fst snd] in *. subst p. unfold bind.
    destruct (decide (size_ v = capacity_ v)) as [Hfull|Hfree];
      [destruct (alloc_ok (grown (capacity_ v))) eqn:Hok|].
    + destruct (Insert_move_run s this v xs k x Hv Hk) as (s' & v' & -> & Hv' & Hfr & _); [done|].
      cbn. split; [by eexists _, _|done].
    + by rewrite (Insert_move_bad_alloc s this v k x).
    + destruct (Insert_move_run s this v xs k x Hv Hk) as (s' & v' & -> & Hv' & Hfr & _); [done|].
      cbn. split; [by eexists _, _|done].
  - destruct (Erase_position s this v pos Hobj) as [[Hp Hk]|Hbad].
    2: { unfold bind. by rewrite Hbad. }
    destruct pos as [p k]. cbn [fst snd] in *. subst p. unfold bind.
    destruct (Erase_run s this v xs k Hv Hk) as (s' & -> & Hv' & Hfr).
    cbn. split; [by eexists _, _|done].
  - destruct (decide (n ≤ capacity_ v)) as [Hfit|Hbig].
    + by rewrite (Reserve_noop s this v n).
    + destruct (alloc_ok n) eqn:Hok.
      * destruct (Reserve_grow s this v xs n Hv) as (s' & b & -> & Hv' & Hfr & _);
          [lia|done|].
        cbn. split; [by eexists _, _|done].
      * rewrite (Reserve_bad_alloc s this v n) by (done || lia). done.
  - destruct (decide (n ≤ size_ v)) as [Hshrink|Hgrow].
    + destruct (Resize_shrink_run s this v xs n Hv Hshrink) as (-> & Hv' & Hfr).
      cbn. split; [by eexists _, _|done].
    + destruct (decide (n ≤ capacity_ v)) as [Hfit|Hbig];
        [|destruct (alloc_ok (enlarged (capacity_ v) n)) eqn:Hok].
      * destruct (Resize_grow_run s this v xs n Hv) as (s' & v' & -> & Hv' & Hfr & _);
          [lia|lia|].
        cbn. split; [by eexists _, _|done].
      * destruct (Resize_grow_run s this v xs n Hv) as (s' & v' & -> & Hv' & Hfr & _);
          [lia|done|].
        cbn. split; [by eexists _, _|done].
      * rewrite (Resize_bad_alloc s this v n) by (done || lia). done.
  - destruct (Clear_run s this v xs Hv) as (-> & Hv' & Hfr). cbn.
    split; [by eexists _, _|done].
  - destruct (decide (i < size_ v)) as [Hi|Hi].
    + destruct (assign_element_run s this v xs i x Hv Hi) as (s' & -> & _ & Hv' & Hfr).
      cbn. split; [by eexists _, _|done].
    + destruct (assign_element_out_of_range s this v i x Hobj) as [-> _]; [lia|done].
  - destruct (decide (i < size_ v)) as [Hi|Hi].
    + destruct (assign_element_run s this v xs i x Hv Hi) as (s' & _ & -> & Hv' & Hfr).
      cbn. split; [by eexists _, _|done].
    + destruct (assign_element_out_of_range s this v i x Hobj) as [_ ->]; [lia|done].
Qed.

(** ** Well-formed states are closed under the public operations *)

Lemma wf_state_start : wf_state (mkState ∅ ∅).
Proof. split; intros *; cbn; by rewrite lookup_empty. Qed.

Lemma is_vector_frame this s s' y vy ys :
  wf_state s → frame this s s' → y ≠ this →
  is_vector s y vy ys → is_vector s' y vy ys.
Proof.
  intros [_ Hsep] (Hobjs & Hmem & _) Hy (Hobj & Hsz & Hle & Hcap & Hblk).
  split; [by rewrite Hobjs|]. split; [done|]. split; [done|]. split; [done|].
  unfold array_holds in *. destruct (data_ptr_ vy) as [a|] eqn:Hp; [|done].
  destruct Hblk as (Hc & blk & Hm & Hrest). split; [done|].
  exists blk. split; [|done]. apply Hmem; [done|].
  intros v0 Hv0 Hp0. apply Hy. by apply (Hsep y this vy v0 a).
Qed.

Lemma wf_step this s s' v' xs' :
  wf_state s → is_vector s' this v' xs' → frame this s s' → wf_state s'.
Proof.
  intros Hwf Hv' Hfr. pose proof Hwf as [Hall Hsep].
  pose proof Hfr as (Hobjs & Hmem & Hptr).
  pose proof Hv' as (Hobj' & _).
  assert (Hother : ∀ y vy a, y ≠ this → objs s' !! y = Some vy →
                     data_ptr_ vy = Some a → data_ptr_ v' ≠ Some a).
  { intros y vy a Hy Hvy Ha Ha'. rewrite Hobjs in Hvy by done.
    destruct (Hptr v' a Hobj' Ha') as [(v0 & Hv0 & Hp0)|Hfresh].
    - apply Hy. by apply (Hsep y this vy v0 a).
    - destruct (Hall y vy Hvy) as (ys & _ & _ & _ & _ & Hblk).
      unfold array_holds in Hblk. rewrite Ha in Hblk.
      destruct Hblk as (_ & blk & Hm & _). congruence. }
  split.
  - intros x v Hx. destruct (decide (x = this)) as [->|Hne].
    + exists xs'. by replace v with v' by congruence.
    + rewrite Hobjs in Hx by done. destruct (Hall x v Hx) as [xs Hxs].
      exists xs. by apply (is_vector_frame this s s').
  - intros x y vx vy a Hx Hy Hax Hay.
    destruct (decide (x = this)) as [->|Hxne], (decide (y = this)) as [->|Hyne].
    + done.
    + exfalso. replace vx with v' in * by congruence.
      by apply (Hother y vy a).
    + exfalso. replace vy with v' in * by congruence.
      by apply (Hother x vx a).
    + rewrite Hobjs in Hx, Hy by done. by apply (Hsep x y vx vy a).
Qed.

Lemma swap_self s this v : objs s !! this = Some v → swap this this s = Ok () s.
Proof.
  intros Hobj. unfold swap. mrun Hobj.
  rewrite !insert_insert_eq, SimpleVector_eta, insert_id by done.
  by rewrite state_eta.
Qed.

Lemma swap_missing s this other :
  objs s !! this = None ∨ objs s !! other = None → swap this other s = Undefined.
Proof.
  intros [Hnone|Hnone]; unfold swap.
  - by mrun Hnone.
  - unfold bind at 1. unfold self at 1.
    destruct (objs s !! this); [|done]. by mrun Hnone.
Qed.

Lemma wf_swap s x y vx vy :
  wf_state s → x ≠ y → objs s !! x = Some vx → objs s !! y = Some vy →
  wf_state (mkState (<[y := vx]> (<[x := vy]> (objs s))) (mem s)).
Proof.
  intros [Hall Hsep] Hne Hx Hy.
  set (π := λ z : loc, if decide (z = y) then x else if decide (z = x) then y else z).
  assert (Hlook : ∀ z, (<[y := vx]> (<[x := vy]> (objs s))) !! z = objs s !! π z).
  { intros z. unfold π. destruct (decide (z = y)) as [->|Hzy].
    - by rewrite lookup_insert_eq.
    - rewrite lookup_insert_ne by done. destruct (decide (z = x)) as [->|Hzx].
      + by rewrite lookup_insert_eq.
      + by rewrite lookup_insert_ne by done. }
  assert (Hinj : ∀ z1 z2, π z1 = π z2 → z1 = z2).
  { intros z1 z2. unfold π. repeat case_decide; congruence. }
  split.
  - intros z v Hz. cbn in Hz. rewrite Hlook in Hz.
    destruct (Hall (π z) v Hz) as [xs Hxs]. exists xs.
    apply (is_vector_relocate s _ (π z) z v xs Hxs); [|done].
    cbn. by rewrite Hlook.
  - intros z1 z2 v1 v2 a Hz1 Hz2 Ha1 Ha2. cbn in Hz1, Hz2.
    rewrite Hlook in Hz1, Hz2. apply Hinj.
    by apply (Hsep _ _ v1 v2 a).
Qed.

Lemma destructor_run s this v xs :
  is_vector s this v xs →
  destructor this s =
    Ok () (mkState (delete this (objs s)) (release (data_ptr_ v) (mem s))).
Proof.
  intros (Hobj & _ & _ & _ & Hblk). unfold destructor. mrun Hobj.
  rewrite ArrayPtr_delete_Ok; [done|].
  intros a Ha. unfold array_holds in Hblk. rewrite Ha in Hblk.
  destruct Hblk as (_ & blk & -> & _). by eexists.
Qed.

Lemma wf_destroy s this v :
  wf_state s → objs s !! this = Some v →
  wf_state (mkState (delete this (objs s)) (release (data_ptr_ v) (mem s))).
Proof.
  intros [Hall Hsep] Hobj. split.
  - intros x vx Hx. cbn in Hx.
    destruct (decide (x = this)) as [->|Hne]; [by rewrite lookup_delete_eq in Hx|].
    rewrite lookup_delete_ne in Hx by done.
    destruct (Hall x vx Hx) as (xs & _ & Hsz & Hle & Hcap & Hblk). exists xs.
    split; [by cbn; rewrite lookup_delete_ne|].
    split; [done|]. split; [done|]. split; [done|].
    unfold array_holds in *. destruct (data_ptr_ vx) as [a|] eqn:Hp; [|done].
    destruct Hblk as (Hc & blk & Hm & Hrest). split; [done|].
    exists blk. split; [|done]. cbn.
    destruct (data_ptr_ v) as [a'|] eqn:Hp'; cbn; [|done].
    rewrite lookup_delete_ne; [done|].
    intros ->. apply Hne. by apply (Hsep x this vx v a).
  - intros x y vx vy a Hx Hy. cbn in Hx, Hy.
    destruct (decide (x = this)) as [->|Hxne]; [by rewrite lookup_delete_eq in Hx|].
    destruct (decide (y = this)) as [->|Hyne]; [by rewrite lookup_delete_eq in Hy|].
    rewrite lookup_delete_ne in Hx, Hy by done. by apply Hsep.
Qed.

Lemma constructor_exists s this v init body :
  objs s !! this = Some v → constructor this init body s = Undefined.
Proof. intros H. unfold constructor. by rewrite H. Qed.

Lemma SimpleVector_copy_missing s this other :
  objs s !! this = None → objs s !! other = None → other ≠ this →
  SimpleVector_copy this other s = Undefined.
Proof.
  intros Hnew Hnone Hne. unfold SimpleVector_copy, constructor. rewrite Hnew.
  repeat progress
    (munfold; rewrite ?lookup_insert_eq;
     rewrite ?(lookup_insert_ne _ this other), ?Hnone by done).
  done.
Qed.

(** [SimpleVector v(v);]: the members were default-initialised, so the
    copy of itself is an empty vector. *)
Lemma SimpleVector_copy_self s this :
  objs s !! this = None →
  SimpleVector_copy this this s =
    Ok () (mkState (<[this := mkSimpleVector None 0 0]> (objs s)) (mem s)).
Proof.
  intros Hnew. unfold SimpleVector_copy, constructor. rewrite Hnew.
  repeat progress (munfold; rewrite ?lookup_insert_eq).
  rewrite bool_decide_true by lia.
  repeat progress (munfold; rewrite ?lookup_insert_eq).
  change (0 + 0) with 0. rewrite std_copy_empty.
  repeat progress (munfold; rewrite ?lookup_insert_eq).
  by rewrite insert_insert_eq.
Qed.

Lemma SimpleVector_move_run s this other vo :
  objs s !! this = None → objs s !! other = Some vo →
  SimpleVector_move this other s =
    Ok () (mkState (<[other := mkSimpleVector None 0 0]>
                      (<[this := vo]> (<[this := mkSimpleVector None 0 0]> (objs s))))
                   (mem s)).
Proof.
  intros Hnew Hobj.
  assert (Hne : this ≠ other) by congruence.
  unfold SimpleVector_move, constructor. rewrite Hnew. munfold.
  rewrite (swap_run _ this other (mkSimpleVector None 0 0) vo Hne); cbn.
  - done.
  - by rewrite lookup_insert_eq.
  - by rewrite lookup_insert_ne.
Qed.

Lemma SimpleVector_move_missing s this other :
  objs s !! this = None → objs s !! other = None → other ≠ this →
  SimpleVector_move this other s = Undefined.
Proof.
  intros Hnew Hnone Hne. unfold SimpleVector_move, constructor. rewrite Hnew. munfold.
  rewrite swap_missing; [done|]. right. cbn. by rewrite lookup_insert_ne.
Qed.

Lemma SimpleVector_move_self s this :
  objs s !! this = None →
  SimpleVector_move this this s =
    Ok () (mkState (<[this := mkSimpleVector None 0 0]> (objs s)) (mem s)).
Proof.
  intros Hnew. unfold SimpleVector_move, constructor. rewrite Hnew. munfold.
  by rewrite (swap_self _ this (mkSimpleVector None 0 0))
    by (cbn; by rewrite lookup_insert_eq).
Qed.

Lemma wf_put_empty s this :
  wf_state s → objs s !! this = None →
  wf_state (mkState (<[this := mkSimpleVector None 0 0]> (objs s)) (mem s)).
Proof.
  intros Hwf Hnew.
  apply (wf_step this s _ (mkSimpleVector None 0 0) []); [done| |by apply frame_new].
  by apply SimpleVector_default_run.
Qed.

Lemma swap_safe s this other : wf_state s → safe_outcome wf_state (swap this other s).
Proof.
  intros Hwf.
  destruct (objs s !! this) as [v|] eqn:Hthis.
  2: { rewrite swap_missing; [done|by left]. }
  destruct (objs s !! other) as [vo|] eqn:Hother.
  2: { rewrite swap_missing; [done|by right]. }
  destruct (decide (this = other)) as [->|Hne].
  - by rewrite (swap_self s other v).
  - rewrite (swap_run s this other v vo) by done. cbn. by apply wf_swap.
Qed.

Lemma assign_copy_safe s this rhs :
  wf_state s → safe_outcome wf_state (assign_copy this rhs s).
Proof.
  intros Hwf. pose proof Hwf as [Hall Hsep]. unfold assign_copy.
  destruct (decide (this = rhs)) as [->|Hne].
  { rewrite bool_decide_false by (intros H; by apply H). by munfold. }
  rewrite bool_decide_true by done.
  set (tmp := fresh (dom (objs s))).
  assert (Htmp : objs s !! tmp = None) by (apply not_elem_of_dom, is_fresh).
  unfold bind, fresh_object, ret. fold tmp.
  assert (Hcopy : (∃ s1 v1 x1,
                     SimpleVector_copy tmp rhs s = Ok () s1 ∧
                     is_vector s1 tmp v1 x1 ∧ frame tmp s s1)
                  ∨ SimpleVector_copy tmp rhs s = Throw bad_alloc s
                  ∨ SimpleVector_copy tmp rhs s = Undefined).
  { destruct (decide (rhs = tmp)) as [->|Hrt].
    { left. eexists _, _, []. split; [by apply SimpleVector_copy_self|].
      split; [by apply SimpleVector_default_run|by apply frame_new]. }
    destruct (objs s !! rhs) as [vr|] eqn:Hrhs.
    2: { right. right. by apply SimpleVector_copy_missing. }
    destruct (Hall rhs vr Hrhs) as [xr Hvr].
    destruct (decide (size_ vr = 0)) as [Hn|Hn];
      [|destruct (alloc_ok (size_ vr)) eqn:Hok].
    - destruct (SimpleVector_copy_run s tmp rhs vr xr Htmp Hvr) as (s1 & p & H); [done|].
      left. by eexists s1, _, _.
    - destruct (SimpleVector_copy_run s tmp rhs vr xr Htmp Hvr) as (s1 & p & H); [done|].
      left. by eexists s1, _, _.
    - right. left. by apply (SimpleVector_copy_bad_alloc s tmp rhs vr). }
  destruct Hcopy as [(s1 & v1 & x1 & -> & Hv1 & Hfr)|[->| ->]]; [|done|done].
  assert (Hwf1 : wf_state s1) by (by apply (wf_step tmp s s1 _ _ Hwf Hv1)).
  pose proof Hv1 as (Htmp1 & _).
  destruct (decide (this = tmp)) as [->|Hnet].
  { rewrite (swap_self s1 tmp v1 Htmp1).
    rewrite (destructor_run s1 tmp v1 x1 Hv1). cbn. by apply wf_destroy. }
  destruct (objs s1 !! this) as [vt|] eqn:Hthis.
  2: { rewrite swap_missing; [done|by left]. }
  rewrite (swap_run s1 this tmp vt _ Hnet Hthis Htmp1).
  set (s2 := mkState _ _).
  assert (Hwf2 : wf_state s2) by (by apply wf_swap).
  assert (Htmp2 : objs s2 !! tmp = Some vt) by (cbn; by rewrite lookup_insert_eq).
  destruct (proj1 Hwf2 tmp vt Htmp2) as [xt Hvt].
  rewrite (destructor_run s2 tmp vt xt Hvt). cbn -[s2].
  by apply wf_destroy.
Qed.

Lemma perform_safe o s : wf_state s → safe_outcome wf_state (perform o s).
Proof.
  intros Hwf. pose proof Hwf as [Hall Hsep].
  destruct o as [this|this n|this n x|this n x|this init|this other|this other|this n
                |this m|this other|this rhs|this rhs|this]; cbn [perform].
  - destruct (objs s !! this) as [v|] eqn:Hthis.
    { unfold SimpleVector_default. by rewrite (constructor_exists s this v). }
    destruct (SimpleVector_default_run s this Hthis) as [-> _]. cbn.
    by apply wf_put_empty.
  - change (SimpleVector_sized this n) with (SimpleVector_filled this n default_value).
    destruct (objs s !! this) as [v|] eqn:Hthis.
    { unfold SimpleVector_filled. by rewrite (constructor_exists s this v). }
    destruct (decide (n = 0)) as [Hn|Hn]; [|destruct (alloc_ok n) eqn:Hok].
    + destruct (SimpleVector_filled_run s this n default_value Hthis)
        as (s' & p & -> & Hv & Hfr); [done|]. cbn. by apply (wf_step this s s' _ _ Hwf Hv).
    + destruct (SimpleVector_filled_run s this n default_value Hthis)
        as (s' & p & -> & Hv & Hfr); [done|]. cbn. by apply (wf_step this s s' _ _ Hwf Hv).
    + unfold SimpleVector_filled. by rewrite constructor_bad_alloc.
  - destruct (objs s !! this) as [v|] eqn:Hthis.
    { unfold SimpleVector_filled. by rewrite (constructor_exists s this v). }
    destruct (decide (n = 0)) as [Hn|Hn]; [|destruct (alloc_ok n) eqn:Hok].
    + destruct (SimpleVector_filled_run s this n x Hthis)
        as (s' & p & -> & Hv & Hfr); [done|]. cbn. by apply (wf_step this s s' _ _ Hwf Hv).
    + destruct (SimpleVector_filled_run s this n x Hthis)
        as (s' & p & -> & Hv & Hfr); [done|]. cbn. by apply (wf_step this s s' _ _ Hwf Hv).
    + unfold SimpleVector_filled. by rewrite constructor_bad_alloc.
  - destruct (objs s !! this) as [v|] eqn:Hthis.
    { unfold SimpleVector_filled_move. by rewrite (constructor_exists s this v). }
    destruct (decide (n = 0)) as [Hn|Hn]; [|destruct (alloc_ok n) eqn:Hok].
    + destruct (SimpleVector_filled_move_run s this n x Hthis)
        as (s' & p & -> & Hv & Hfr); [done|]. cbn. by apply (wf_step this s s' _ _ Hwf Hv).
    + destruct (SimpleVector_filled_move_run s this n x Hthis)
        as (s' & p & -> & Hv & Hfr); [done|]. cbn. by apply (wf_step this s s' _ _ Hwf Hv).
    + unfold SimpleVector_filled_move. by rewrite constructor_bad_alloc.
  - destruct (objs s !! this) as [v|] eqn:Hthis.
    { unfold SimpleVector_init. by rewrite (constructor_exists s this v). }
    destruct (decide (init = [])) as [Hn|Hn];
      [|destruct (alloc_ok (N.of_nat (length init))) eqn:Hok].
    + destruct (SimpleVector_init_run s this init Hthis)
        as (s' & p & -> & Hv & Hfr); [done|]. cbn. by apply (wf_step this s s' _ _ Hwf Hv).
    + destruct (SimpleVector_init_run s this init Hthis)
        as (s' & p & -> & Hv & Hfr); [done|]. cbn. by apply (wf_step this s s' _ _ Hwf Hv).
    + unfold SimpleVector_init. cbv zeta.
      rewrite constructor_bad_alloc; [done|done| |done].
      destruct init; [done|]. cbn [length]. lia.
  - destruct (objs s !! this) as [v|] eqn:Hthis.
    { unfold SimpleVector_copy. by rewrite (constructor_exists s this v). }
    destruct (decide (other = this)) as [->|Hne].
    { rewrite SimpleVector_copy_self by done. cbn. by apply wf_put_empty. }
    destruct (objs s !! other) as [vo|] eqn:Hother.
    2: { by rewrite SimpleVector_copy_missing. }
    destruct (Hall other vo Hother) as [xo Hvo].
    destruct (decide (size_ vo = 0)) as [Hn|Hn];
      [|destruct (alloc_ok (size_ vo)) eqn:Hok].
    + destruct (SimpleVector_copy_run s this other vo xo Hthis Hvo)
        as (s' & p & -> & Hv & Hfr); [done|]. cbn. by apply (wf_step this s s' _ _ Hwf Hv).
    + destruct (SimpleVector_copy_run s this other vo xo Hthis Hvo)
        as (s' & p & -> & Hv & Hfr); [done|]. cbn. by apply (wf_step this s s' _ _ Hwf Hv).
    + by rewrite (SimpleVector_copy_bad_alloc s this other vo).
  - destruct (objs s !! this) as [v|] eqn:Hthis.
    { unfold SimpleVector_move. by rewrite (constructor_exists s this v). }
    destruct (decide (other = this)) as [->|Hne].
    { rewrite SimpleVector_move_self by done. cbn. by apply wf_put_empty. }
    destruct (objs s !! other) as [vo|] eqn:Hother.
    2: { by rewrite SimpleVector_move_missing. }
    rewrite (SimpleVector_move_run s this other vo) by done. cbn.
    pose proof (wf_swap (mkState (<[this := mkSimpleVector None 0 0]> (objs s)) (mem s))
                  this other (mkSimpleVector None 0 0) vo) as Hswap.
    cbn in Hswap. apply Hswap.
    + by apply wf_put_empty.
    + congruence.
    + by rewrite lookup_insert_eq.
    + by rewrite lookup_insert_ne.
  - destruct (objs s !! this) as [v|] eqn:Hthis.
    { unfold SimpleVector_reserved. by rewrite (constructor_exists s this v). }
    destruct (decide (n = 0)) as [Hn|Hn]; [|destruct (alloc_ok n) eqn:Hok].
    + destruct (SimpleVector_reserved_run s this n Hthis)
        as (s' & p & -> & Hv & Hfr); [done|]. cbn. by apply (wf_step this s s' _ _ Hwf Hv).
    + destruct (SimpleVector_reserved_run s this n Hthis)
        as (s' & p & -> & Hv & Hfr); [done|]. cbn. by apply (wf_step this s s' _ _ Hwf Hv).
    + unfold SimpleVector_reserved. cbn. by rewrite constructor_bad_alloc.
  - destruct (objs s !! this) as [v|] eqn:Hthis.
    2: { by rewrite modify_missing. }
    destruct (Hall this v Hthis) as [xs Hv].
    pose proof (modify_safe this m s v xs Hv) as Hsafe.
    destruct (modify this m s) as [[] s'|e s'|]; cbn in *; [| |done].
    + destruct Hsafe as [(v' & xs' & Hv') Hfr]. by apply (wf_step this s s' v' xs').
    + destruct Hsafe as [(v' & xs' & Hv') Hfr]. by apply (wf_step this s s' v' xs').
  - by apply swap_safe.
  - pose proof (assign_copy_safe s this rhs Hwf) as Hsafe. unfold bind.
    by destruct (assign_copy this rhs s).
  - unfold assign_move. case_bool_decide; [|by munfold].
    pose proof (swap_safe s this rhs Hwf) as Hsafe. unfold bind.
    by destruct (swap this rhs s).
  - destruct (objs s !! this) as [v|] eqn:Hthis.
    2: { unfold destructor. by mrun Hthis. }
    destruct (Hall this v Hthis) as [xs Hv].
    rewrite (destructor_run s this v xs Hv). cbn. by apply wf_destroy.
Qed.

Lemma reachable_wf s : reachable s → wf_state s.
Proof.
  induction 1 as [|o s s' _ IH Hrun|o e s s' _ IH Hrun].
  - apply wf_state_start.
  - pose proof (perform_safe o s IH) as Hsafe. by rewrite Hrun in Hsafe.
  - pose proof (perform_safe o s IH) as Hsafe. by rewrite Hrun in Hsafe.
Qed.

(** C2: in every state reached from the empty program by public
    operations (the eight constructors, the modifiers, [swap], both
    assignments, destruction; returning, or throwing and caught) every
    vector has [0 <= size <= capacity]; the capacity stays within
    [PTRDIFF_MAX], the array has exactly [capacity] slots of which the
    first [size] are initialised, and no two vectors share an array. *)
Theorem size_within_capacity_invariant s :
  reachable s →
  (∀ x v, objs s !! x = Some v → 0 ≤ size_ v ∧ size_ v ≤ capacity_ v) ∧
  wf_state s.
Proof.
  intros Hreach. pose proof (reachable_wf s Hreach) as Hwf.
  split; [|done]. intros x v Hx.
  destruct (proj1 Hwf x v Hx) as (xs & _ & _ & Hle & _). split; [lia|done].
Qed.


(** ** Copy construction, equality, and the independence of the copy *)

Lemma equal_loop_run s x vx xs y vy ys n : ∀ i,
  is_vector s x vx xs → is_vector s y vy ys →
  (i + n ≤ length xs)%nat → (i + n ≤ length ys)%nat →
  equal_loop n (data_ptr_ vx, N.of_nat i) (data_ptr_ vy, N.of_nat i) s =
    Ok (all_equal (take n (drop i xs)) (take n (drop i ys))) s.
Proof.
  induction n as [|n IH]; intros i Hx Hy Hix Hiy; [done|].
  destruct (lookup_lt_is_Some_2 xs i) as [a Ha]; [lia|].
  destruct (lookup_lt_is_Some_2 ys i) as [b Hb]; [lia|].
  cbn [equal_loop]. unfold bind.
  rewrite (load_value_live s x vx xs (N.of_nat i) a) by (by rewrite ?Nat2N.id).
  rewrite (load_value_live s y vy ys (N.of_nat i) b) by (by rewrite ?Nat2N.id).
  rewrite (drop_S _ _ _ Ha), (drop_S _ _ _ Hb). cbn [take all_equal].
  destruct (eqb a b); [|done].
  unfold ptr_add. cbn [fst snd].
  replace (N.of_nat i + 1) with (N.of_nat (S i)) by lia.
  apply IH; (done || lia).
Qed.

Lemma equal_run s x vx xs y vy ys :
  is_vector s x vx xs → is_vector s y vy ys →
  equal x y s = Ok (bool_decide (length xs = length ys) && all_equal xs ys) s.
Proof.
  intros Hx Hy.
  pose proof Hx as (Hox & Hsx & _). pose proof Hy as (Hoy & Hsy & _).
  unfold equal, GetSize, std_equal.
  repeat progress (munfold; rewrite ?Hox, ?Hoy).
  destruct (decide (length xs = length ys)) as [Hlen|Hlen].
  - rewrite !bool_decide_true by (done || lia). mred.
    repeat progress (munfold; rewrite ?Hox, ?Hoy).
    rewrite ptr_le_same by lia. rewrite N.add_0_l, N.sub_0_r.
    rewrite (equal_loop_run s x vx xs y vy ys _ 0 Hx Hy) by lia.
    rewrite !drop_0, Hsx, Nat2N.id.
    by rewrite take_ge, (take_ge ys) by lia.
  - by rewrite !bool_decide_false by (done || lia).
Qed.

Lemma all_equal_refl xs : (∀ x, eqb x x = true) → all_equal xs xs = true.
Proof. intros Hrefl. induction xs as [|x xs IH]; [done|]. cbn. by rewrite Hrefl. Qed.

Lemma modify_keeps_apart d c vc xc m s :
  d ≠ c → apart d c vc xc s → safe_outcome (apart d c vc xc) (modify d m s).
Proof.
  intros Hdc (Hc & vd & xd & Hd & Hdisj).
  pose proof (modify_safe d m s vd xd Hd) as Hsafe.
  assert (Hstep : ∀ s', (∃ v' xs', is_vector s' d v' xs') ∧ frame d s s' →
                        apart d c vc xc s').
  { intros s' [(v' & xs' & Hv') (Hobjs & Hmem & Hptr)].
    pose proof Hc as (Hoc & Hsz & Hle & Hcap & Hblk).
    pose proof Hd as (Hod & _). pose proof Hv' as (Hod' & _).
    split.
    - split; [by rewrite Hobjs|]. split; [done|]. split; [done|]. split; [done|].
      unfold array_holds in *. destruct (data_ptr_ vc) as [a|] eqn:Hp; [|done].
      destruct Hblk as (Hc0 & blk & Hm & Hrest). split; [done|].
      exists blk. split; [|done]. apply Hmem; [done|].
      intros v0 Hv0 Hp0. replace v0 with vd in * by congruence. by apply (Hdisj a).
    - exists v', xs'. split; [done|]. intros a Ha Hca.
      destruct (Hptr v' a Hod' Ha) as [(v0 & Hv0 & Hp0)|Hfresh].
      + replace v0 with vd in * by congruence. by apply (Hdisj a).
      + unfold array_holds in Hblk. rewrite Hca in Hblk.
        destruct Hblk as (_ & blk & Hm & _). congruence. }
  destruct (modify d m s) as [[] s'|e s'|]; cbn in *; [by apply Hstep..|done].
Qed.

Lemma modify_all_keeps_apart d c vc xc ms : ∀ s,
  d ≠ c → apart d c vc xc s → safe_outcome (apart d c vc xc) (modify_all d ms s).
Proof.
  induction ms as [|m ms IH]; intros s Hdc Hs; [done|].
  cbn [modify_all]. unfold bind.
  pose proof (modify_keeps_apart d c vc xc m s Hdc Hs) as Hsafe.
  destruct (modify d m s) as [[] s'|e s'|]; cbn in *; [by apply IH|done|done].
Qed.

(** C8: the copy constructor (memory permitting) makes a vector with [C]'s
    elements in order, [C]'s size, and capacity exactly that size;
    [operator==] on the copy and [C] answers [true] when the element
    type's [==] is reflexive; and whatever sequence of modifier calls is
    then made on the copy, returning or thrown out of, [C] keeps its
    fields, its array and its elements. *)
Theorem copy_is_equal_and_independent s c vc xc d :
  (∀ x, eqb x x = true) →
  objs s !! d = None →
  is_vector s c vc xc →
  (size_ vc ≠ 0 → alloc_ok (size_ vc) = true) →
  ∃ s1 vd,
    SimpleVector_copy d c s = Ok () s1 ∧
    is_vector s1 d vd xc ∧
    size_ vd = size_ vc ∧
    capacity_ vd = size_ vc ∧
    is_vector s1 c vc xc ∧
    equal d c s1 = Ok true s1 ∧
    ∀ ms,
      safe_outcome (λ s2, is_vector s2 c vc xc ∧ contents s2 c = Some xc)
        (modify_all d ms s1).
Proof.
  intros Hrefl Hnew Hc Hok.
  assert (Hdc : d ≠ c).
  { intros ->. destruct Hc as (Hc & _). congruence. }
  destruct (SimpleVector_copy_run s d c vc xc Hnew Hc Hok) as (s1 & p & Hrun & Hd & Hfr).
  set (vd := mkSimpleVector p (size_ vc) (size_ vc)) in *.
  assert (Hc1 : is_vector s1 c vc xc).
  { destruct Hfr as (Hobjs & Hmem & _).
    destruct Hc as (Hoc & Hsz & Hle & Hcap & Hblk).
    split; [by rewrite Hobjs|]. split; [done|]. split; [done|]. split; [done|].
    unfold array_holds in *. destruct (data_ptr_ vc) as [a|]; [|done].
    destruct Hblk as (Hc0 & blk & Hm & Hrest). split; [done|].
    exists blk. split; [|done]. apply Hmem; [done|]. intros v0 Hv0. congruence. }
  assert (Hapart : apart d c vc xc s1).
  { split; [done|]. exists vd, xc. split; [done|]. intros a Ha Hca.
    destruct Hfr as (_ & _ & Hptr). destruct Hd as (Hod & _).
    destruct (Hptr vd a Hod Ha) as [(v0 & Hv0 & _)|Hfresh]; [congruence|].
    destruct Hc as (_ & _ & _ & _ & Hblk). unfold array_holds in Hblk.
    rewrite Hca in Hblk. destruct Hblk as (_ & blk & Hm & _). congruence. }
  exists s1, vd. split; [done|]. split; [done|]. split; [done|]. split; [done|].
  split; [done|]. split.
  - rewrite (equal_run s1 d vd xc c vc xc Hd Hc1).
    by rewrite bool_decide_true, all_equal_refl.
  - intros ms.
    pose proof (modify_all_keeps_apart d c vc xc ms s1 Hdc Hapart) as Hsafe.
    destruct (modify_all d ms s1) as [[] s2|e s2|]; cbn in *; [| |done].
    + destruct Hsafe as [Hc2 _]. split; [done|]. by apply (is_vector_contents _ _ vc).
    + destruct Hsafe as [Hc2 _]. split; [done|]. by apply (is_vector_contents _ _ vc).
Qed.

(** * Further properties of the container *)

(** ** The comparison operators *)

Lemma lexicographical_compare_loop_run s x vx xs y vy ys : ∀ n1 n2 i,
  is_vector s x vx xs → is_vector s y vy ys →
  (i + n1 = length xs)%nat → (i + n2 = length ys)%nat →
  lexicographical_compare_loop n1 n2 (data_ptr_ vx, N.of_nat i) (data_ptr_ vy, N.of_nat i) s =
    Ok (lex_less (drop i xs) (drop i ys)) s.
Proof.
  induction n1 as [|n1 IH]; intros n2 i Hx Hy Hix Hiy.
  - rewrite (drop_ge xs) by lia. destruct n2 as [|n2].
    + by rewrite (drop_ge ys) by lia.
    + destruct (lookup_lt_is_Some_2 ys i) as [b Hb]; [lia|].
      by rewrite (drop_S _ _ _ Hb).
  - destruct (lookup_lt_is_Some_2 xs i) as [a Ha]; [lia|].
    rewrite (drop_S _ _ _ Ha).
    destruct n2 as [|n2].
    + by rewrite (drop_ge ys) by lia.
    + destruct (lookup_lt_is_Some_2 ys i) as [b Hb]; [lia|].
      rewrite (drop_S _ _ _ Hb).
      cbn [lexicographical_compare_loop lex_less]. unfold bind.
      rewrite (load_value_live s x vx xs (N.of_nat i) a) by (by rewrite ?Nat2N.id).
      rewrite (load_value_live s y vy ys (N.of_nat i) b) by (by rewrite ?Nat2N.id).
      destruct (ltb a b); [done|]. destruct (ltb b a); [done|].
      unfold ptr_add. cbn [fst snd].
      replace (N.of_nat i + 1) with (N.of_nat (S i)) by lia.
      apply IH; (done || lia).
Qed.

Lemma less_run s x vx xs y vy ys :
  is_vector s x vx xs → is_vector s y vy ys →
  less x y s = Ok (lex_less xs ys) s.
Proof.
  intros Hx Hy.
  pose proof Hx as (Hox & Hsx & _). pose proof Hy as (Hoy & Hsy & _).
  unfold less, std_lexicographical_compare.
  repeat progress (munfold; rewrite ?Hox, ?Hoy).
  rewrite !ptr_le_same by lia. mred.
  repeat progress (munfold; rewrite ?Hox, ?Hoy).
  rewrite !N.add_0_l, !N.sub_0_r.
  rewrite (lexicographical_compare_loop_run s x vx xs y vy ys _ _ 0 Hx Hy) by lia.
  by rewrite !drop_0.
Qed.

Lemma less_equal_run s x vx xs y vy ys :
  is_vector s x vx xs → is_vector s y vy ys →
  less_equal x y s = Ok (negb (lex_less ys xs)) s.
Proof.
  intros Hx Hy. unfold less_equal, bind.
  by rewrite (less_run s y vy ys x vx xs Hy Hx).
Qed.

Lemma greater_equal_run s x vx xs y vy ys :
  is_vector s x vx xs → is_vector s y vy ys →
  greater_equal x y s = Ok (negb (lex_less xs ys)) s.
Proof.
  intros Hx Hy. unfold greater_equal, bind.
  by rewrite (less_run s x vx xs y vy ys Hx Hy).
Qed.

Lemma not_equal_run s x vx xs y vy ys :
  is_vector s x vx xs → is_vector s y vy ys →
  not_equal x y s = Ok (negb (bool_decide (length xs = length ys) && all_equal xs ys)) s.
Proof.
  intros Hx Hy. unfold not_equal, bind.
  by rewrite (equal_run s x vx xs y vy ys Hx Hy).
Qed.

Lemma all_equal_eq xs : ∀ ys,
  (∀ a b, eqb a b = true ↔ a = b) →
  length xs = length ys → (all_equal xs ys = true ↔ xs = ys).
Proof.
  induction xs as [|a xs IH]; intros [|b ys] Heqb Hlen; try done.
  cbn in Hlen. cbn [all_equal].
  destruct (eqb a b) eqn:Hab.
  - apply Heqb in Hab as ->. rewrite IH by (done || lia).
    split; [by intros ->|by intros [= ->]].
  - split; [done|]. intros [= -> ->].
    assert (eqb b b = true) by by apply Heqb. congruence.
Qed.

Lemma lex_less_app p xs ys :
  (∀ a, ltb a a = false) → lex_less (p ++ xs) (p ++ ys) = lex_less xs ys.
Proof.
  intros Hirr. induction p as [|a p IH]; [done|]. cbn. by rewrite Hirr.
Qed.

Lemma lex_less_nil_r xs : lex_less xs [] = false.
Proof. by destruct xs. Qed.

(** Exactly one of [lt], [eq], [gt] is [true]. *)
Lemma lex_trichotomy xs : ∀ ys,
  (∀ a b, eqb a b = true ↔ a = b) →
  (∀ a b, ltb a b = true → ltb b a = false) →
  (∀ a b, a ≠ b → ltb a b = true ∨ ltb b a = true) →
  let lt := lex_less xs ys in
  let eq := bool_decide (length xs = length ys) && all_equal xs ys in
  let gt := lex_less ys xs in
  (lt = true ∧ eq = false ∧ gt = false) ∨
  (lt = false ∧ eq = true ∧ gt = false) ∨
  (lt = false ∧ eq = false ∧ gt = true).
Proof.
  intros ys Heqb Hasym Htot. revert ys.
  induction xs as [|a xs IH]; intros [|b ys]; cbn zeta.
  - right. left. by rewrite bool_decide_true.
  - left. by rewrite bool_decide_false.
  - right. right. by rewrite bool_decide_false.
  - cbn [lex_less all_equal length].
    assert (Hlen : bool_decide (S (length xs) = S (length ys))
                   = bool_decide (length xs = length ys)).
    { apply bool_decide_ext. lia. }
    rewrite Hlen.
    destruct (eqb a b) eqn:Hab.
    + apply Heqb in Hab as ->.
      assert (Hbb : ltb b b = false).
      { destruct (ltb b b) eqn:E; [|done]. by rewrite (Hasym b b E) in E. }
      rewrite Hbb. apply IH.
    + assert (Hne : a ≠ b).
      { intros ->. assert (eqb b b = true) by by apply Heqb. congruence. }
      rewrite andb_false_r.
      destruct (Htot a b Hne) as [Hlt|Hgt].
      * rewrite Hlt, (Hasym a b Hlt). by left.
      * rewrite Hgt, (Hasym b a Hgt). right. by right.
Qed.

(** X19: [operator==] and [operator!=]: when the element type's [==] decides
    equality, [lhs == rhs] answers whether the two vectors hold the same
    elements in the same order, whatever their capacities and arrays, and
    [lhs != rhs] answers the opposite; neither changes the state. *)
Theorem equal_decides_same_elements s x vx xs y vy ys :
  (∀ a b, eqb a b = true ↔ a = b) →
  is_vector s x vx xs → is_vector s y vy ys →
  ∃ r, equal x y s = Ok r s ∧
       not_equal x y s = Ok (negb r) s ∧
       (r = true ↔ xs = ys).
Proof.
  intros Heqb Hx Hy.
  exists (bool_decide (length xs = length ys) && all_equal xs ys).
  split; [by apply (equal_run s x vx xs y vy ys)|].
  split; [by apply (not_equal_run s x vx xs y vy ys)|].
  destruct (decide (length xs = length ys)) as [Hlen|Hlen].
  - rewrite bool_decide_true by done. cbn [andb]. by apply all_equal_eq.
  - rewrite bool_decide_false by done. cbn [andb].
    split; [done|]. intros ->. done.
Qed.

(** X20: [operator<] is the lexicographic order of the elements, for an
    irreflexive element [<]: at the first index where the two vectors
    differ, the smaller element decides; a vector that is a proper prefix
    of the other is the smaller one; and no vector is smaller than one of
    its prefixes (so none is smaller than itself, or than an empty one). *)
Theorem less_is_lexicographic s x vx xs y vy ys :
  (∀ a, ltb a a = false) →
  is_vector s x vx xs → is_vector s y vy ys →
  ∃ r, less x y s = Ok r s ∧
       (∀ p a b r1 r2, xs = p ++ a :: r1 → ys = p ++ b :: r2 →
          (ltb a b = true → r = true) ∧
          (ltb a b = false → ltb b a = true → r = false)) ∧
       (∀ z zs, ys = xs ++ z :: zs → r = true) ∧
       (∀ zs, xs = ys ++ zs → r = false).
Proof.
  intros Hirr Hx Hy. exists (lex_less xs ys).
  split; [by apply (less_run s x vx xs y vy ys)|].
  split; [|split].
  - intros p a b r1 r2 -> ->. rewrite lex_less_app by done. cbn [lex_less].
    split; [by intros ->|]. by intros -> ->.
  - intros z zs ->. rewrite <- (app_nil_r xs) at 1. by rewrite lex_less_app.
  - intros zs ->. rewrite <- (app_nil_r ys) at 2.
    rewrite lex_less_app by done. apply lex_less_nil_r.
Qed.

(** X21: The six comparison operators are consistent when the element [<] is a
    strict total order and the element [==] decides equality: of
    [lhs < rhs], [lhs == rhs] and [lhs > rhs] exactly one answers [true];
    [lhs <= rhs] is [lhs < rhs || lhs == rhs], [lhs >= rhs] is
    [lhs > rhs || lhs == rhs], and [lhs != rhs] is [lhs < rhs || lhs > rhs]. *)
Theorem comparison_trichotomy s x vx xs y vy ys :
  (∀ a b, eqb a b = true ↔ a = b) →
  (∀ a b, ltb a b = true → ltb b a = false) →
  (∀ a b, a ≠ b → ltb a b = true ∨ ltb b a = true) →
  is_vector s x vx xs → is_vector s y vy ys →
  ∃ lt eq gt,
    less x y s = Ok lt s ∧
    equal x y s = Ok eq s ∧
    greater x y s = Ok gt s ∧
    ((lt = true ∧ eq = false ∧ gt = false) ∨
     (lt = false ∧ eq = true ∧ gt = false) ∨
     (lt = false ∧ eq = false ∧ gt = true)) ∧
    less_equal x y s = Ok (lt || eq) s ∧
    greater_equal x y s = Ok (gt || eq) s ∧
    not_equal x y s = Ok (lt || gt) s.
Proof.
  intros Heqb Hasym Htot Hx Hy.
  exists (lex_less xs ys), (bool_decide (length xs = length ys) && all_equal xs ys),
         (lex_less ys xs).
  rewrite (less_run s x vx xs y vy ys Hx Hy).
  rewrite (equal_run s x vx xs y vy ys Hx Hy).
  unfold greater. rewrite (less_run s y vy ys x vx xs Hy Hx).
  rewrite (less_equal_run s x vx xs y vy ys Hx Hy).
  rewrite (greater_equal_run s x vx xs y vy ys Hx Hy).
  rewrite (not_equal_run s x vx xs y vy ys Hx Hy).
  pose proof (lex_trichotomy xs ys Heqb Hasym Htot) as Htri. cbn zeta in Htri.
  split; [done|]. split; [done|]. split; [done|]. split; [done|].
  destruct Htri as [(-> & -> & ->)|[(-> & -> & ->)|(-> & -> & ->)]]; done.
Qed.

(** ** Effects: what a call may change *)

Lemma wp_ret {A} (a : A) (Q : A → state → Prop) R s : Q a s → wp (ret a) Q R s.
Proof. done. Qed.

Lemma wp_bind {A B} (m : M A) (k : A → M B) (Q : B → state → Prop) R s :
  wp m (λ a s', wp (k a) Q R s') R s → wp (bind m k) Q R s.
Proof. unfold wp, bind. by destruct (m s). Qed.

Lemma wp_mono {A} (m : M A) (Q Q' : A → state → Prop) (R R' : exn → state → Prop) s :
  wp m Q R s → (∀ a s', Q a s' → Q' a s') → (∀ e s', R e s' → R' e s') → wp m Q' R' s.
Proof. unfold wp. destruct (m s); auto. Qed.

Lemma wp_self this (Q : SimpleVector → state → Prop) R s :
  (∀ v, objs s !! this = Some v → Q v s) → wp (self this) Q R s.
Proof. unfold wp, self. destruct (objs s !! this); auto. Qed.

Lemma wp_assert b (Q : unit → state → Prop) R s :
  (b = true → Q () s) → wp (assert b) Q R s.
Proof. destruct b; cbn; auto. Qed.

Lemma wp_put this v (Q : unit → state → Prop) R s :
  Q () (mkState (<[this := v]> (objs s)) (mem s)) → wp (put this v) Q R s.
Proof. done. Qed.

Lemma wp_set_data_ptr_ this p (Q : unit → state → Prop) R s :
  (∀ v, objs s !! this = Some v →
        Q () (mkState (<[this := mkSimpleVector p (size_ v) (capacity_ v)]> (objs s)) (mem s))) →
  wp (set_data_ptr_ this p) Q R s.
Proof. intros H. apply wp_bind, wp_self. intros v Hv. by apply wp_put, H. Qed.

Lemma wp_set_size_ this n (Q : unit → state → Prop) R s :
  (∀ v, objs s !! this = Some v →
        Q () (mkState (<[this := mkSimpleVector (data_ptr_ v) n (capacity_ v)]> (objs s)) (mem s))) →
  wp (set_size_ this n) Q R s.
Proof. intros H. apply wp_bind, wp_self. intros v Hv. by apply wp_put, H. Qed.

Lemma wp_set_capacity_ this n (Q : unit → state → Prop) R s :
  (∀ v, objs s !! this = Some v →
        Q () (mkState (<[this := mkSimpleVector (data_ptr_ v) (size_ v) n]> (objs s)) (mem s))) →
  wp (set_capacity_ this n) Q R s.
Proof. intros H. apply wp_bind, wp_self. intros v Hv. by apply wp_put, H. Qed.

(** [new Type[n]]: no array for [n = 0], otherwise an array at an address
    that was free, or [bad_alloc] with nothing changed. *)
Lemma wp_ArrayPtr_new n (Q : option addr → state → Prop) R s :
  (∀ p m',
     (p = None ∧ n = 0 ∧ m' = mem s) ∨
     (∃ b, p = Some b ∧ n ≠ 0 ∧ mem s !! b = None ∧ dom m' = {[ b ]} ∪ dom (mem s)) →
     Q p (mkState (objs s) m')) →
  (n ≠ 0 → R bad_alloc s) →
  wp (ArrayPtr_new n) Q R s.
Proof.
  intros HQ HR. unfold wp, ArrayPtr_new.
  case_bool_decide as Hn.
  - destruct s as [o m]. apply HQ. by left.
  - destruct (alloc_ok n); [|by apply HR].
    apply HQ. right. exists (fresh (dom (mem s))).
    split; [done|]. split; [done|]. split; [apply fresh_block|].
    by rewrite dom_insert_L.
Qed.

Lemma dom_release p (m : gmap addr (list slot)) :
  dom (release p m) = dom m ∖ (match p with Some a => {[ a ]} | None => ∅ end).
Proof. destruct p as [a|]; cbn; [by rewrite dom_delete_L|by rewrite difference_empty_L]. Qed.

Lemma wp_ArrayPtr_delete p (Q : unit → state → Prop) R s :
  Q () (mkState (objs s) (release p (mem s))) → wp (ArrayPtr_delete p) Q R s.
Proof.
  unfold wp, ArrayPtr_delete, release.
  destruct p as [a|]; [by destruct (mem s !! a)|]. by destruct s.
Qed.

Lemma wp_destructor this (Q : unit → state → Prop) R s :
  (∀ v, objs s !! this = Some v →
        Q () (mkState (delete this (objs s)) (release (data_ptr_ v) (mem s)))) →
  wp (destructor this) Q R s.
Proof.
  intros H. unfold destructor. apply wp_bind, wp_self. intros v Hv.
  apply wp_bind, wp_ArrayPtr_delete. by apply H.
Qed.

Lemma wp_constructor this init body (Q : unit → state → Prop) R s :
  (objs s !! this = None →
   wp (let* v := init in put this v;;; body) Q (λ e s', R e (unwind this s')) s) →
  wp (constructor this init body) Q R s.
Proof.
  unfold wp at 2. unfold constructor.
  destruct (objs s !! this); [done|]. intros Hwp. specialize (Hwp eq_refl).
  unfold wp in Hwp. by destruct (bind init _ s).
Qed.

(** *** Calls that only read *)

Lemma readonly_ret {A} (a : A) : readonly (ret a).
Proof. intros s Q R HQ. by apply HQ. Qed.

Lemma readonly_undefined {A} : readonly (@undefined A).
Proof. by intros s Q R HQ. Qed.

Lemma readonly_bind {A B} (m : M A) (k : A → M B) :
  readonly m → (∀ a, readonly (k a)) → readonly (bind m k).
Proof.
  intros Hm Hk s Q R HQ. apply wp_bind, Hm. intros a. by apply Hk.
Qed.

Lemma readonly_assert b : readonly (assert b).
Proof. destruct b; [apply readonly_ret|apply readonly_undefined]. Qed.

Lemma readonly_self this : readonly (self this).
Proof. intros s Q R HQ. apply wp_self. intros v _. by apply HQ. Qed.

Lemma readonly_load p : readonly (load p).
Proof.
  intros s Q R HQ. unfold wp, load.
  destruct p.1 as [a|]; [|done]. destruct (mem s !! a) as [blk|]; [|done].
  destruct (blk !! _); [|done]. by apply HQ.
Qed.

Lemma readonly_load_value p : readonly (load_value p).
Proof.
  apply readonly_bind; [apply readonly_load|].
  intros [x|]; [apply readonly_ret|apply readonly_undefined].
Qed.

Create HintDb readonly.

#[local] Hint Resolve readonly_ret readonly_undefined readonly_assert readonly_self
  readonly_load readonly_load_value : readonly.

Ltac readonly_steps :=
  repeat first
    [ apply readonly_bind; [|intros ?]
    | progress auto with readonly ].

Lemma readonly_begin this : readonly (begin this).
Proof. unfold begin. readonly_steps. Qed.

Lemma readonly_end_ this : readonly (end_ this).
Proof. unfold end_. readonly_steps. Qed.

Lemma readonly_cbegin this : readonly (cbegin this).
Proof. unfold cbegin. readonly_steps. Qed.

Lemma readonly_cend this : readonly (cend this).
Proof. unfold cend. readonly_steps. Qed.

Lemma readonly_GetSize this : readonly (GetSize this).
Proof. unfold GetSize. readonly_steps. Qed.

Lemma readonly_GetCapacity this : readonly (GetCapacity this).
Proof. unfold GetCapacity. readonly_steps. Qed.

Lemma readonly_IsEmpty this : readonly (IsEmpty this).
Proof. unfold IsEmpty. readonly_steps. Qed.

Lemma readonly_subscript this index : readonly (subscript this index).
Proof. unfold subscript. readonly_steps. Qed.

#[local] Hint Resolve readonly_begin readonly_end_ readonly_cbegin readonly_cend
  readonly_GetSize readonly_GetCapacity readonly_IsEmpty readonly_subscript : readonly.

(** *** Calls that neither throw nor touch objects or allocations *)

Lemma readonly_quiet {A} (m : M A) : readonly m → quiet m.
Proof.
  intros Hm s Q R HQ. apply Hm. intros a. destruct s as [o h]. by apply HQ.
Qed.

Lemma quiet_ret {A} (a : A) : quiet (ret a).
Proof. intros [o m] Q R HQ. by apply HQ. Qed.

Lemma quiet_undefined {A} : quiet (@undefined A).
Proof. by intros s Q R HQ. Qed.

Lemma quiet_bind {A B} (m : M A) (k : A → M B) :
  quiet m → (∀ a, quiet (k a)) → quiet (bind m k).
Proof.
  intros Hm Hk s Q R HQ. apply wp_bind, Hm. intros a m1 H1.
  apply Hk. intros b m2 H2. cbn [objs mem] in *. apply HQ. congruence.
Qed.

Lemma quiet_assert b : quiet (assert b).
Proof. destruct b; [apply quiet_ret|apply quiet_undefined]. Qed.

Lemma quiet_self this : quiet (self this).
Proof.
  intros [o m] Q R HQ. apply wp_self. intros v _. by apply HQ.
Qed.

Lemma quiet_load p : quiet (load p).
Proof.
  intros [o m] Q R HQ. unfold wp, load. cbn [mem].
  destruct p.1 as [a|]; [|done]. destruct (m !! a) as [blk|]; [|done].
  destruct (blk !! _); [|done]. by apply HQ.
Qed.

Lemma quiet_store p x : quiet (store p x).
Proof.
  intros [o m] Q R HQ. unfold wp, store. cbn [mem objs].
  destruct p.1 as [a|]; [|done]. destruct (m !! a) as [blk|] eqn:Hm; [|done].
  case_bool_decide; [|done]. apply HQ. cbn.
  by apply dom_insert_lookup_L.
Qed.

Lemma quiet_load_value p : quiet (load_value p).
Proof.
  apply quiet_bind; [apply quiet_load|].
  intros [x|]; [apply quiet_ret|apply quiet_undefined].
Qed.

Create HintDb quiet.

#[local] Hint Resolve quiet_ret quiet_undefined quiet_assert quiet_self quiet_load
  quiet_store quiet_load_value : quiet.

Ltac quiet_steps :=
  repeat first
    [ apply quiet_bind; [|intros ?]
    | progress auto with quiet ].

Lemma quiet_copy_loop n : ∀ first d_first, quiet (copy_loop n first d_first).
Proof. induction n as [|n IH]; intros first d; cbn [copy_loop]; quiet_steps. Qed.

Lemma quiet_move_loop n : ∀ first d_first, quiet (move_loop n first d_first).
Proof. induction n as [|n IH]; intros first d; cbn [move_loop]; quiet_steps. Qed.

Lemma quiet_move_backward_loop n : ∀ last d_last, quiet (move_backward_loop n last d_last).
Proof. induction n as [|n IH]; intros last d; cbn [move_backward_loop]; quiet_steps. Qed.

Lemma quiet_fill_loop n : ∀ first x, quiet (fill_loop n first x).
Proof. induction n as [|n IH]; intros first x; cbn [fill_loop]; quiet_steps. Qed.

Lemma quiet_copy_from_list init : ∀ d_first, quiet (copy_from_list init d_first).
Proof. induction init as [|x init IH]; intros d; cbn [copy_from_list]; quiet_steps. Qed.

Lemma quiet_generate_moved_loop n : ∀ first value, quiet (generate_moved_loop n first value).
Proof. induction n as [|n IH]; intros first x; cbn [generate_moved_loop]; quiet_steps. Qed.

#[local] Hint Resolve quiet_copy_loop quiet_move_loop quiet_move_backward_loop
  quiet_fill_loop quiet_copy_from_list quiet_generate_moved_loop : quiet.

Lemma quiet_std_copy first last d_first : quiet (std_copy first last d_first).
Proof. unfold std_copy. quiet_steps. Qed.

Lemma quiet_std_move_copy first last d_first : quiet (std_move_copy first last d_first).
Proof. unfold std_move_copy. quiet_steps. Qed.

Lemma quiet_std_move_copy_backward first last d_last :
  quiet (std_move_copy_backward first last d_last).
Proof. unfold std_move_copy_backward. quiet_steps. Qed.

Lemma quiet_std_fill first last x : quiet (std_fill first last x).
Proof. unfold std_fill. quiet_steps. Qed.

Lemma quiet_begin this : quiet (begin this).
Proof. unfold begin. quiet_steps. Qed.

Lemma quiet_end_ this : quiet (end_ this).
Proof. unfold end_. quiet_steps. Qed.

Lemma quiet_cbegin this : quiet (cbegin this).
Proof. unfold cbegin. quiet_steps. Qed.

Lemma quiet_cend this : quiet (cend this).
Proof. unfold cend. quiet_steps. Qed.

#[local] Hint Resolve quiet_std_copy quiet_std_move_copy quiet_std_move_copy_backward
  quiet_std_fill quiet_begin quiet_end_ quiet_cbegin quiet_cend : quiet.

(** *** The modifiers *)

Lemma in_place_intro this v s v' m' :
  data_ptr_ v' = data_ptr_ v → capacity_ v' = capacity_ v → dom m' = dom (mem s) →
  in_place this v s (mkState (<[this := v']> (objs s)) m').
Proof. by exists v'. Qed.

Lemma in_place_refl this v s : objs s !! this = Some v → in_place this v s s.
Proof. intros Hv. exists v. by rewrite insert_id. Qed.

Lemma reallocated_intro this v xs s p n m1 m5 v' :
  is_vector s this v xs → n ≠ 0 → capacity_ v < n →
  (p = None ∧ n = 0 ∧ m1 = mem s) ∨
  (∃ b, p = Some b ∧ n ≠ 0 ∧ mem s !! b = None ∧ dom m1 = {[ b ]} ∪ dom (mem s)) →
  dom m5 = dom m1 → data_ptr_ v' = p → capacity_ v' = n →
  reallocated this v s (mkState (<[this := v']> (objs s)) (release (data_ptr_ v) m5)).
Proof.
  intros Hv Hn Hcap [(_ & Hn0 & _)|(b & -> & _ & Hb & Hd1)] Hd5 Hp Hc; [done|].
  exists v', b. cbn [objs mem].
  split; [done|]. split; [done|]. split; [done|]. split; [lia|].
  rewrite !dom_release, Hd5, Hd1.
  destruct Hv as (_ & _ & _ & _ & Hblk). unfold array_holds in Hblk.
  apply not_elem_of_dom in Hb.
  destruct (data_ptr_ v) as [a|].
  - destruct Hblk as (_ & blk & Hm & _). apply elem_of_dom_2 in Hm.
    apply set_eq. intros k. rewrite !elem_of_difference, !elem_of_union,
      !elem_of_difference, !elem_of_singleton.
    split.
    + intros [[Hk|Hk] Hka]; [by left|by right].
    + intros [Hk|[Hk Hka]]; [|by split; [right|]].
      split; [by left|]. intros Hka. apply Hb. by rewrite <- Hk, Hka.
  - by rewrite !difference_empty_L.
Qed.

(** Steps over a call that is [readonly], or else [quiet]. *)
Ltac wp_quiet :=
  apply wp_bind;
  match goal with
  | |- wp ?m _ _ _ =>
      let Hq := fresh "Hq" in
      first
        [ assert (Hq : readonly m) by auto with readonly; apply Hq; clear Hq;
          intros ?
        | assert (Hq : quiet m) by auto with quiet; apply Hq; clear Hq;
          cbn [objs mem]; let m' := fresh "m" in let Hd := fresh "Hd" in
          intros ? m' Hd ]
  end.

(** Identifies the fields [H] reads with those already known. *)
Ltac same_object H :=
  cbn [objs mem] in H; rewrite ?lookup_insert_eq in H;
  first
    [ injection H as <-
    | match type of H with
      | ?l = Some ?w =>
          match goal with
          | Hv : l = Some ?v |- _ =>
              assert (w = v) by congruence; subst w; clear H
          end
      end ].

Ltac wp_set :=
  first [apply wp_set_data_ptr_ | apply wp_set_size_ | apply wp_set_capacity_];
  cbn [objs mem]; let w := fresh "w" in let Hw := fresh "Hw" in
  intros w Hw; same_object Hw; cbn [data_ptr_ size_ capacity_].

Ltac wp_read this :=
  apply wp_bind, (wp_self this); cbn [objs mem];
  let w := fresh "w" in let Hw := fresh "Hw" in intros w Hw.

(** Closes the leaf of a modifier that worked in place. *)
Ltac leaf_in_place v :=
  let v0 := fresh "v" in let xs0 := fresh "xs" in let Hvec := fresh "Hvec" in
  intros v0 xs0 Hvec;
  assert (v0 = v) by (destruct Hvec; congruence); subst v0;
  left; rewrite ?insert_insert_eq; apply in_place_intro; (done || congruence).

Ltac wp_quiet_last :=
  match goal with
  | |- wp ?m _ _ _ =>
      let Hq := fresh "Hq" in
      assert (Hq : quiet m) by auto with quiet; apply Hq; clear Hq
  end;
  cbn [objs mem]; let m' := fresh "m" in let Hd := fresh "Hd" in intros ? m' Hd.

(** Opens the leaf of a modifier that moved to a new array of [n] slots. *)
Ltac leaf_reallocated this s v p n m1 :=
  let v0 := fresh "v" in let xs0 := fresh "xs" in let Hvec := fresh "Hvec" in
  let Hle := fresh "Hle" in let Hcap := fresh "Hcap" in
  intros v0 xs0 Hvec;
  assert (v0 = v) by (destruct Hvec; congruence); subst v0;
  right; rewrite !insert_insert_eq;
  pose proof Hvec as (_ & _ & Hle & Hcap & _);
  apply (reallocated_intro this v xs0 s p n m1); try done; try congruence.

Lemma quiet_subscript this index : quiet (subscript this index).
Proof. unfold subscript. quiet_steps. Qed.

#[local] Hint Resolve quiet_subscript : quiet.

Lemma PushBack_effect this x s :
  wp (PushBack this x) (λ _ s', modifier_effect this s s')
     (λ e s', s' = s ∧ e = bad_alloc) s.
Proof.
  unfold PushBack. wp_read this. rename w into v, Hw into Hv.
  case_bool_decide as Hfull.
  - wp_quiet. wp_set. leaf_in_place v.
  - apply wp_bind, wp_ArrayPtr_new; [|done]. intros p m1 Hp.
    do 4 wp_quiet. do 3 (apply wp_bind; wp_set).
    apply wp_ArrayPtr_delete. cbn [objs mem].
    leaf_reallocated this s v p (grown (capacity_ v)) m1.
    + by apply grown_nonzero.
    + rewrite grown_small by done. case_bool_decide; lia.
Qed.

Lemma PushBack_move_effect this x s :
  wp (PushBack_move this x) (λ _ s', modifier_effect this s s')
     (λ e s', s' = s ∧ e = bad_alloc) s.
Proof.
  unfold PushBack_move. wp_read this. rename w into v, Hw into Hv.
  case_bool_decide as Hfull.
  - wp_quiet. wp_set. leaf_in_place v.
  - apply wp_bind, wp_ArrayPtr_new; [|done]. intros p m1 Hp.
    do 4 wp_quiet. do 3 (apply wp_bind; wp_set).
    apply wp_ArrayPtr_delete. cbn [objs mem].
    leaf_reallocated this s v p (grown (capacity_ v)) m1.
    + by apply grown_nonzero.
    + rewrite grown_small by done. case_bool_decide; lia.
Qed.

Lemma PopBack_effect this s :
  wp (PopBack this) (λ _ s', modifier_effect this s s')
     (λ e s', s' = s ∧ e = bad_alloc) s.
Proof.
  unfold PopBack. wp_read this. rename w into v, Hw into Hv.
  apply wp_bind, wp_assert. intros _. wp_set. leaf_in_place v.
Qed.

Lemma Clear_effect this s :
  wp (Clear this) (λ _ s', modifier_effect this s s')
     (λ e s', s' = s ∧ e = bad_alloc) s.
Proof.
  unfold Clear. apply wp_set_size_. intros v Hv. cbn [objs mem]. leaf_in_place v.
Qed.

Lemma Erase_effect this pos s :
  wp (Erase this pos) (λ _ s', modifier_effect this s s')
     (λ e s', s' = s ∧ e = bad_alloc) s.
Proof.
  unfold Erase. do 4 wp_quiet.
  wp_read this. rename w into v, Hw into Hv.
  do 2 wp_quiet. apply wp_bind. wp_set. apply wp_ret. leaf_in_place v.
Qed.

Lemma Insert_move_effect this pos x s :
  wp (Insert_move this pos x) (λ _ s', modifier_effect this s s')
     (λ e s', s' = s ∧ e = bad_alloc) s.
Proof.
  unfold Insert_move. do 4 wp_quiet.
  wp_read this. rename w into v, Hw into Hv.
  case_bool_decide as Hfull.
  - do 3 wp_quiet. apply wp_bind. wp_set. apply wp_ret. leaf_in_place v.
  - apply wp_bind, wp_ArrayPtr_new; [|done]. intros p m1 Hp.
    do 5 wp_quiet. do 3 (apply wp_bind; wp_set).
    apply wp_bind, wp_ArrayPtr_delete. cbn [objs mem]. apply wp_ret.
    leaf_reallocated this s v p (grown (capacity_ v)) m1.
    + by apply grown_nonzero.
    + rewrite grown_small by done. case_bool_decide; lia.
Qed.

Lemma Reserve_effect this n s :
  wp (Reserve this n) (λ _ s', modifier_effect this s s')
     (λ e s', s' = s ∧ e = bad_alloc) s.
Proof.
  unfold Reserve. wp_read this. rename w into v, Hw into Hv.
  case_bool_decide as Hgrow.
  - apply wp_bind, wp_ArrayPtr_new; [|done]. intros p m1 Hp.
    do 3 wp_quiet. do 2 (apply wp_bind; wp_set).
    apply wp_ArrayPtr_delete. cbn [objs mem].
    leaf_reallocated this s v p n m1. lia.
  - apply wp_ret. intros v0 xs0 (Hv0 & _). left.
    replace v0 with v by congruence. by apply in_place_refl.
Qed.

Lemma Resize_effect this n s :
  wp (Resize this n) (λ _ s', modifier_effect this s s')
     (λ e s', s' = s ∧ e = bad_alloc) s.
Proof.
  unfold Resize. wp_read this. rename w into v, Hw into Hv.
  case_bool_decide as Hshrink; [wp_set; leaf_in_place v|].
  destruct (bool_decide (size_ v < n) && bool_decide (n ≤ capacity_ v)) eqn:Hfits.
  { do 3 wp_quiet. wp_set. leaf_in_place v. }
  destruct (bool_decide (size_ v < n) && bool_decide (capacity_ v < n)) eqn:Hgrow.
  - apply andb_prop in Hgrow as [_ Hgrow%bool_decide_eq_true].
    apply wp_bind, wp_ArrayPtr_new; [|done]. intros p m1 Hp.
    do 4 wp_quiet. do 3 (apply wp_bind; wp_set).
    apply wp_ArrayPtr_delete. cbn [objs mem].
    leaf_reallocated this s v p (enlarged (capacity_ v) n) m1.
    + pose proof (enlarged_ge (capacity_ v) n Hcap). lia.
    + pose proof (enlarged_ge (capacity_ v) n Hcap). lia.
  - apply wp_ret. intros v0 xs0 (Hv0 & _). left.
    replace v0 with v by congruence. by apply in_place_refl.
Qed.

Lemma assign_element_effect this i x s :
  wp (assign_element this i x) (λ _ s', modifier_effect this s s')
     (λ e s', s' = s ∧ e = bad_alloc) s.
Proof.
  unfold assign_element. wp_quiet. wp_quiet_last.
  intros v xs (Hv & _). left. exists v. cbn [objs mem].
  by rewrite insert_id.
Qed.

Lemma assign_element_At_effect this i x s :
  wp (assign_element_At this i x) (λ _ s', modifier_effect this s s')
     (λ e s', s' = s ∧ e = out_of_range) s.
Proof.
  unfold assign_element_At, At. apply wp_bind.
  wp_read this. rename w into v, Hw into Hv.
  case_bool_decide as Hout; [done|].
  apply wp_ret. wp_quiet_last.
  intros v0 xs (Hv0 & _). left. exists v0. cbn [objs mem].
  by rewrite insert_id.
Qed.

(** A modifier call that returns worked in place or moved to a larger
    array; one that throws changed nothing, and only [At] throws
    [out_of_range]. *)
Lemma modify_effect this m s :
  wp (modify this m) (λ _ s', modifier_effect this s s')
     (λ e s', s' = s ∧
              e = if m is call_assign_element_At _ _ then out_of_range else bad_alloc) s.
Proof.
  destruct m; cbn [modify].
  - apply PushBack_effect.
  - apply PushBack_move_effect.
  - apply PopBack_effect.
  - apply wp_bind. eapply wp_mono; [apply Insert_move_effect| |done]. by intros.
  - apply wp_bind. eapply wp_mono; [apply Erase_effect| |done]. by intros.
  - apply Reserve_effect.
  - apply Resize_effect.
  - apply Clear_effect.
  - apply assign_element_effect.
  - apply assign_element_At_effect.
Qed.

(** *** Constructors, swap, assignment and destruction *)

Lemma unwind_missing this s : objs s !! this = None → unwind this s = s.
Proof. unfold unwind. by intros ->. Qed.

Lemma unwind_put_empty this s n c :
  objs s !! this = None →
  unwind this (mkState (<[this := mkSimpleVector None n c]> (objs s)) (mem s)) = s.
Proof.
  intros Hnone. unfold unwind. cbn.
  rewrite lookup_insert_eq. cbn. rewrite delete_insert_id by done. by destruct s.
Qed.

(** The constructors that allocate [n] slots and then fill them. *)
Lemma constructor_effect this n (mk : option addr → SimpleVector) body s :
  quiet body → (∀ p, data_ptr_ (mk p) = p) →
  wp (constructor this (let* p := ArrayPtr_new n in ret (mk p)) body)
     (λ _ s', constructed this s s') (λ e s', s' = s ∧ e = bad_alloc) s.
Proof.
  intros Hbody Hmk. apply wp_constructor. intros Hnone.
  apply wp_bind, wp_bind, wp_ArrayPtr_new.
  - intros p m1 Hp. apply wp_ret. apply wp_bind, wp_put. cbn [objs mem].
    apply Hbody. cbn [objs mem]. intros [] m2 Hd2.
    split; [done|]. exists (mk p). cbn [objs mem]. split; [done|]. rewrite Hmk.
    destruct Hp as [(-> & _ & ->)|(b & -> & _ & Hb & Hd1)].
    + by left.
    + right. exists b. split; [done|]. split; [done|]. congruence.
  - intros _. by rewrite unwind_missing.
Qed.

Lemma SimpleVector_default_effect this s :
  wp (SimpleVector_default this)
     (λ _ s', constructed this s s') (λ e s', s' = s ∧ e = bad_alloc) s.
Proof.
  unfold SimpleVector_default. apply wp_constructor. intros Hnone.
  apply wp_bind, wp_ret. apply wp_bind, wp_put. apply wp_ret.
  split; [done|]. eexists. split; [done|]. by left.
Qed.

Lemma SimpleVector_copy_effect this other s :
  wp (SimpleVector_copy this other)
     (λ _ s', constructed this s s') (λ e s', s' = s ∧ e = bad_alloc) s.
Proof.
  unfold SimpleVector_copy. apply wp_constructor. intros Hnone.
  apply wp_bind, wp_ret. apply wp_bind, wp_put. cbn [objs mem].
  wp_read this. same_object Hw.
  wp_read other. rename w into o, Hw into Ho.
  cbn [data_ptr_ size_ capacity_].
  apply wp_bind. case_bool_decide as Hfits.
  - do 4 wp_quiet. apply wp_ret. wp_set.
    split; [done|]. eexists. cbn [objs mem].
    split; [by rewrite insert_insert_eq|]. by left.
  - apply wp_bind, wp_ArrayPtr_new.
    + intros p m1 Hp. cbn [objs mem] in Hp.
      do 3 wp_quiet. do 2 (apply wp_bind; wp_set).
      apply wp_ArrayPtr_delete. cbn [objs mem release]. wp_set.
      split; [done|]. eexists. cbn [objs mem].
      split; [by rewrite !insert_insert_eq|]. cbn [data_ptr_].
      destruct Hp as [(-> & _ & ->)|(b & -> & _ & Hb & Hd1)].
      * left. split; [done|]. congruence.
      * right. exists b. split; [done|]. split; [done|]. congruence.
    + intros _. split; [|done].
      by apply unwind_put_empty.
Qed.

Lemma swap_effect s this other a b :
  objs s !! this = Some a → objs s !! other = Some b →
  swap this other s =
    Ok () (mkState (<[other := a]> (<[this := b]> (objs s))) (mem s)).
Proof.
  intros Ha Hb. destruct (decide (this = other)) as [<-|Hne].
  - replace b with a by congruence.
    rewrite (swap_self s this a Ha), insert_insert_eq, insert_id by done.
    by destruct s.
  - by apply swap_run.
Qed.

Lemma wp_swap this other (Q : unit → state → Prop) R s :
  (∀ a b, objs s !! this = Some a → objs s !! other = Some b →
          Q () (mkState (<[other := a]> (<[this := b]> (objs s))) (mem s))) →
  wp (swap this other) Q R s.
Proof.
  intros HQ. unfold wp.
  destruct (objs s !! this) as [a|] eqn:Ha; [|by rewrite swap_missing by auto].
  destruct (objs s !! other) as [b|] eqn:Hb; [|by rewrite swap_missing by auto].
  rewrite (swap_effect s this other a b Ha Hb). by apply HQ.
Qed.

Lemma wp_fresh_object (Q : loc → state → Prop) R s :
  Q (fresh (dom (objs s))) s → wp fresh_object Q R s.
Proof. done. Qed.

(** *** No array is leaked *)

Lemma no_leak_constructed this s s' : no_leak s → constructed this s s' → no_leak s'.
Proof.
  intros Hnl (Hnone & v' & Hobjs & Hcase).
  assert (Hold : ∀ a, a ∈ dom (mem s) →
                      ∃ x v, objs s' !! x = Some v ∧ data_ptr_ v = Some a).
  { intros a Ha. destruct (Hnl a Ha) as (x & vx & Hx & Hpx).
    exists x, vx. split; [|done]. rewrite Hobjs, lookup_insert_ne; [done|].
    intros ->. congruence. }
  intros a Ha. destruct Hcase as [(Hp & Hd)|(b & Hp & Hb & Hd)]; rewrite Hd in Ha.
  - by apply Hold.
  - apply elem_of_union in Ha as [->%elem_of_singleton|Ha]; [|by apply Hold].
    exists this, v'. by rewrite Hobjs, lookup_insert_eq.
Qed.

Lemma no_leak_modified this s s' v xs :
  no_leak s → is_vector s this v xs → modifier_effect this s s' → no_leak s'.
Proof.
  intros Hnl Hvec Heff. pose proof Hvec as (Hv & _).
  destruct (Heff v xs Hvec) as [(v' & Hobjs & Hp & _ & Hd)
                               |(v' & b & Hobjs & Hp & Hb & _ & Hd)];
    intros a Ha; rewrite Hd in Ha.
  - destruct (Hnl a Ha) as (x & vx & Hx & Hpx).
    destruct (decide (x = this)) as [->|Hne].
    + exists this, v'. rewrite Hobjs, lookup_insert_eq. split; [done|]. congruence.
    + exists x, vx. by rewrite Hobjs, lookup_insert_ne.
  - apply elem_of_union in Ha as [->%elem_of_singleton|Ha].
    { exists this, v'. by rewrite Hobjs, lookup_insert_eq. }
    rewrite dom_release in Ha. apply elem_of_difference in Ha as [Ha Hnot].
    destruct (Hnl a Ha) as (x & vx & Hx & Hpx).
    destruct (decide (x = this)) as [->|Hne].
    + replace vx with v in * by congruence. rewrite Hpx in Hnot.
      by apply not_elem_of_singleton in Hnot.
    + exists x, vx. by rewrite Hobjs, lookup_insert_ne.
Qed.

Lemma no_leak_put_new this v s :
  no_leak s → objs s !! this = None →
  no_leak (mkState (<[this := v]> (objs s)) (mem s)).
Proof.
  intros Hnl Hnone a Ha. destruct (Hnl a Ha) as (x & vx & Hx & Hpx).
  exists x, vx. cbn. split; [|done]. rewrite lookup_insert_ne; [done|].
  intros ->. congruence.
Qed.

Lemma no_leak_swap this other a b s :
  no_leak s → objs s !! this = Some a → objs s !! other = Some b →
  no_leak (mkState (<[other := a]> (<[this := b]> (objs s))) (mem s)).
Proof.
  intros Hnl Ha Hb k Hk. destruct (Hnl k Hk) as (x & vx & Hx & Hpx). cbn.
  destruct (decide (x = this)) as [->|Hxt].
  { exists other, a. rewrite lookup_insert_eq. split; [done|]. congruence. }
  destruct (decide (x = other)) as [->|Hxo].
  { exists this, b. rewrite lookup_insert_ne, lookup_insert_eq by done.
    split; [done|]. congruence. }
  exists x, vx. by rewrite !lookup_insert_ne.
Qed.

Lemma no_leak_destroy this v s :
  no_leak s → objs s !! this = Some v →
  no_leak (mkState (delete this (objs s)) (release (data_ptr_ v) (mem s))).
Proof.
  intros Hnl Hv k Hk. cbn in *. rewrite dom_release in Hk.
  apply elem_of_difference in Hk as [Hk Hnot].
  destruct (Hnl k Hk) as (x & vx & Hx & Hpx).
  destruct (decide (x = this)) as [->|Hne].
  - replace vx with v in * by congruence. rewrite Hpx in Hnot.
    by apply not_elem_of_singleton in Hnot.
  - exists x, vx. by rewrite lookup_delete_ne.
Qed.

(** One operation: if it throws, the program state is exactly as before
    and the exception is the one the operation is written to throw; if it
    returns, it has leaked no array. *)
Lemma perform_effect o s :
  wp (perform o)
     (λ _ s', wf_state s → no_leak s → no_leak s')
     (λ e s', s' = s ∧ e = thrown_by o) s.
Proof.
  assert (Hctor : ∀ this (m : M unit),
            wp m (λ _ s', constructed this s s') (λ e s', s' = s ∧ e = bad_alloc) s →
            wp m (λ _ s', wf_state s → no_leak s → no_leak s')
                 (λ e s', s' = s ∧ e = bad_alloc) s).
  { intros this m Hm. eapply wp_mono; [exact Hm| |done].
    intros ? s' Hc _ Hnl. by apply (no_leak_constructed this s). }
  destruct o; cbn [perform thrown_by].
  - apply (Hctor this), SimpleVector_default_effect.
  - apply (Hctor this), constructor_effect; [quiet_steps|done].
  - apply (Hctor this), constructor_effect; [quiet_steps|done].
  - apply (Hctor this), constructor_effect; [quiet_steps|done].
  - apply (Hctor this), constructor_effect; [quiet_steps|done].
  - apply (Hctor this), SimpleVector_copy_effect.
  - unfold SimpleVector_move. apply wp_constructor. intros Hnone.
    apply wp_bind, wp_ret. apply wp_bind, wp_put. cbn [objs mem].
    apply wp_swap. cbn [objs mem]. intros a b Ha Hb _ Hnl.
    exact (no_leak_swap this other a b _
             (no_leak_put_new this (mkSimpleVector None 0 0) s Hnl Hnone) Ha Hb).
  - apply (Hctor this), constructor_effect; [quiet_steps|done].
  - destruct (objs s !! this) as [v|] eqn:Hv;
      [|by unfold wp; rewrite modify_missing].
    eapply wp_mono; [apply modify_effect| |].
    + intros ? s' Heff Hwf Hnl.
      destruct (proj1 Hwf this v Hv) as (xs & Hvec).
      by apply (no_leak_modified this s s' v xs).
    + intros e s' [-> ->]. split; [done|]. by destruct m.
  - apply wp_swap. intros a b Ha Hb _ Hnl. exact (no_leak_swap _ _ a b s Hnl Ha Hb).
  - unfold assign_copy. apply wp_bind. apply wp_bind.
    case_bool_decide as Hne; [|by do 3 apply wp_ret].
    apply wp_bind, wp_fresh_object.
    apply wp_bind. eapply wp_mono; [apply SimpleVector_copy_effect| |done].
    intros [] s1 Hc. cbn beta in Hc |- *.
    apply wp_bind, wp_swap. intros a b Ha Hb.
    apply wp_destructor. cbn [objs mem]. intros v Hv.
    rewrite lookup_insert_eq in Hv. injection Hv as <-.
    do 2 apply wp_ret. intros _ Hnl.
    pose proof (no_leak_constructed _ s s1 Hnl Hc) as Hnl1.
    pose proof (no_leak_swap this _ a b s1 Hnl1 Ha Hb) as Hnl2.
    refine (no_leak_destroy (fresh (dom (objs s))) a _ Hnl2 _).
    cbn. by rewrite lookup_insert_eq.
  - unfold assign_move. apply wp_bind. apply wp_bind.
    case_bool_decide as Hne; [|by do 3 apply wp_ret].
    apply wp_swap. intros a b Ha Hb. do 2 apply wp_ret.
    intros _ Hnl. exact (no_leak_swap _ _ a b s Hnl Ha Hb).
  - apply wp_destructor. intros v Hv _ Hnl. exact (no_leak_destroy _ v s Hnl Hv).
Qed.

(** X1: Strong exception safety of the whole interface: when a constructor, a
    modifier, [swap], an assignment or a destructor call throws, the
    program state (every object and every array) is exactly what it was
    before the call; the exception is [out_of_range] for an assignment
    through [At] and [bad_alloc] for everything else.  Operations on the
    elements themselves are taken not to throw. *)
Theorem throwing_operation_changes_nothing o s e s' :
  perform o s = Throw e s' → s' = s ∧ e = thrown_by o.
Proof.
  intros Hrun. pose proof (perform_effect o s) as Heff.
  unfold wp in Heff. by rewrite Hrun in Heff.
Qed.

Lemma modify_all_effect this ms : ∀ s s' v xs,
  is_vector s this v xs → modify_all this ms s = Ok () s' →
  ∃ v' xs', is_vector s' this v' xs' ∧
            capacity_ v ≤ capacity_ v' ∧
            (capacity_ v' = capacity_ v → data_ptr_ v' = data_ptr_ v).
Proof.
  induction ms as [|m ms IH]; intros s s' v xs Hvec Hrun.
  { injection Hrun as <-. exists v, xs. split; [done|]. split; [lia|done]. }
  cbn [modify_all] in Hrun. unfold bind in Hrun.
  pose proof (modify_safe this m s v xs Hvec) as Hsafe.
  pose proof (modify_effect this m s) as Heff. unfold wp in Heff.
  destruct (modify this m s) as [[] s1|e s1|]; [|done|done].
  cbn in Hsafe. destruct Hsafe as [(v1 & xs1 & Hvec1) _].
  destruct (IH s1 s' v1 xs1 Hvec1 Hrun) as (v' & xs' & Hvec' & Hcap' & Hptr').
  exists v', xs'. split; [done|].
  pose proof Hvec1 as (Hv1 & _).
  destruct (Heff v xs Hvec) as [(w & Hobjs & Hp & Hc & _)|(w & b & Hobjs & _ & _ & Hc & _)];
    rewrite Hobjs, lookup_insert_eq in Hv1; injection Hv1 as ->.
  - split; [lia|]. intros Heq. rewrite Hptr' by lia. done.
  - split; [lia|]. intros Heq. lia.
Qed.

(** X4: No modifier ever gives capacity back: after any sequence of
    [PushBack], [PopBack], [Insert], [Erase], [Reserve], [Resize], [Clear]
    and element assignments that returns, the capacity is at least what it
    was, and if it is the same then so is the array, so that [begin()] and
    the iterators taken before are still those of the vector. *)
Theorem modifiers_never_shrink_capacity this ms s s' v xs :
  is_vector s this v xs → modify_all this ms s = Ok () s' →
  ∃ v' xs', is_vector s' this v' xs' ∧
            GetCapacity this s' = Ok (capacity_ v') s' ∧
            begin this s' = Ok (data_ptr_ v', 0) s' ∧
            capacity_ v ≤ capacity_ v' ∧
            (capacity_ v' = capacity_ v → data_ptr_ v' = data_ptr_ v).
Proof.
  intros Hvec Hrun.
  destruct (modify_all_effect this ms s s' v xs Hvec Hrun)
    as (v' & xs' & Hvec' & Hcap & Hptr).
  exists v', xs'. pose proof Hvec' as (Hv' & _).
  split; [done|].
  split; [by unfold GetCapacity, bind; rewrite (self_Ok s' this v')|].
  split; [by unfold begin, bind; rewrite (self_Ok s' this v')|].
  by split.
Qed.

Lemma reachable_no_leak s : reachable s → no_leak s.
Proof.
  induction 1 as [|o s s' Hreach IH Hrun|o e s s' Hreach IH Hrun].
  - intros a Ha. cbn in Ha. by rewrite dom_empty_L in Ha.
  - pose proof (perform_effect o s) as Heff. unfold wp in Heff.
    rewrite Hrun in Heff. apply Heff; [by apply reachable_wf|done].
  - pose proof (perform_effect o s) as Heff. unfold wp in Heff.
    rewrite Hrun in Heff. by destruct Heff as [-> _].
Qed.

(** X2: No array is ever leaked: in every state a program can reach through
    the public operations, whether they returned or threw, each allocated
    array is the array of a live vector; and once every vector has been
    destroyed, no array is left allocated. *)
Theorem no_array_is_leaked s :
  reachable s →
  (∀ a, a ∈ dom (mem s) → ∃ x v, objs s !! x = Some v ∧ data_ptr_ v = Some a) ∧
  (objs s = ∅ → mem s = ∅).
Proof.
  intros Hreach. pose proof (reachable_no_leak s Hreach) as Hnl.
  split; [exact Hnl|]. intros Hempty.
  apply map_empty. intros a.
  destruct (mem s !! a) as [blk|] eqn:Hblk; [|done].
  destruct (Hnl a (elem_of_dom_2 _ _ _ Hblk)) as (x & v & Hx & _).
  by rewrite Hempty in Hx.
Qed.

(** ** The outcome of a modifier call *)

Lemma modify_cases this m s v xs :
  is_vector s this v xs →
  (¬ asserted v m ∧ modify this m s = Undefined) ∨
  (asserted v m ∧ ∃ e, raised v m = Some e ∧ modify this m s = Throw e s) ∨
  (asserted v m ∧ raised v m = None ∧ ∃ s', modify this m s = Ok () s').
Proof.
  intros Hv. pose proof Hv as (Hobj & Hsz & Hle & Hcap & Hblk).
  destruct m as [x|x| |pos x|pos|n|n| |i x|i x];
    cbn [modify asserted raised requested].
  - right. destruct (decide (size_ v = capacity_ v)) as [Hfull|Hfree];
      [destruct (alloc_ok (grown (capacity_ v))) eqn:Hok|].
    + right. rewrite bool_decide_true, Hok by done.
      destruct (PushBack_run s this v xs x Hv) as (s' & v' & -> & _); [done|].
      split; [done|]. split; [done|]. by exists s'.
    + left. rewrite bool_decide_true, Hok by done. split; [done|].
      exists bad_alloc. split; [done|]. by apply (PushBack_bad_alloc s this v x).
    + right. rewrite bool_decide_false by done.
      destruct (PushBack_run s this v xs x Hv) as (s' & v' & -> & _); [done|].
      split; [done|]. split; [done|]. by exists s'.
  - right. destruct (decide (size_ v = capacity_ v)) as [Hfull|Hfree];
      [destruct (alloc_ok (grown (capacity_ v))) eqn:Hok|].
    + right. rewrite bool_decide_true, Hok by done.
      destruct (PushBack_move_run s this v xs x Hv) as (s' & v' & -> & _); [done|].
      split; [done|]. split; [done|]. by exists s'.
    + left. rewrite bool_decide_true, Hok by done. split; [done|].
      exists bad_alloc. split; [done|]. by apply (PushBack_move_bad_alloc s this v x).
    + right. rewrite bool_decide_false by done.
      destruct (PushBack_move_run s this v xs x Hv) as (s' & v' & -> & _); [done|].
      split; [done|]. split; [done|]. by exists s'.
  - destruct (decide (size_ v = 0)) as [H0|Hne].
    + left. split; [by intros ?|]. by apply (PopBack_empty s this v).
    + right. right. destruct (PopBack_run s this v xs Hv Hne) as [-> _].
      split; [done|]. split; [done|]. by eexists.
  - destruct (decide (pos.1 = data_ptr_ v ∧ pos.2 ≤ size_ v)) as [[Hp Hk]|Hbad].
    2: { left. split; [done|].
         destruct (Insert_move_position s this v pos x Hobj) as [?|Hu]; [done|].
         unfold bind. by rewrite Hu. }
    right. destruct pos as [p k]. cbn [fst snd] in *. subst p. unfold bind.
    destruct (decide (size_ v = capacity_ v)) as [Hfull|Hfree];
      [destruct (alloc_ok (grown (capacity_ v))) eqn:Hok|].
    + right. rewrite bool_decide_true, Hok by done.
      destruct (Insert_move_run s this v xs k x Hv Hk) as (s' & v' & -> & _); [done|].
      split; [done|]. split; [done|]. by exists s'.
    + left. rewrite bool_decide_true, Hok by done. split; [done|].
      exists bad_alloc. split; [done|]. by rewrite (Insert_move_bad_alloc s this v k x).
    + right. rewrite bool_decide_false by done.
      destruct (Insert_move_run s this v xs k x Hv Hk) as (s' & v' & -> & _); [done|].
      split; [done|]. split; [done|]. by exists s'.
  - destruct (decide (pos.1 = data_ptr_ v ∧ pos.2 < size_ v)) as [[Hp Hk]|Hbad].
    2: { left. split; [done|].
         destruct (Erase_position s this v pos Hobj) as [?|Hu]; [done|].
         unfold bind. by rewrite Hu. }
    right. right. destruct pos as [p k]. cbn [fst snd] in *. subst p. unfold bind.
    destruct (Erase_run s this v xs k Hv Hk) as (s' & -> & _).
    split; [done|]. split; [done|]. by exists s'.
  - right. destruct (decide (n ≤ capacity_ v)) as [Hfit|Hbig].
    + right. rewrite bool_decide_false by lia.
      rewrite (Reserve_noop s this v n) by done.
      split; [done|]. split; [done|]. by exists s.
    + rewrite bool_decide_true by lia. destruct (alloc_ok n) eqn:Hok.
      * right. destruct (Reserve_grow s this v xs n Hv) as (s' & b & -> & _);
          [lia|done|].
        split; [done|]. split; [done|]. by exists s'.
      * left. split; [done|]. exists bad_alloc. split; [done|].
        apply (Reserve_bad_alloc s this v n); (done || lia).
  - right. destruct (decide (n ≤ size_ v)) as [Hshrink|Hgrow].
    + right. rewrite bool_decide_false by lia.
      destruct (Resize_shrink_run s this v xs n Hv Hshrink) as (-> & _).
      split; [done|]. split; [done|]. by eexists.
    + destruct (decide (n ≤ capacity_ v)) as [Hfit|Hbig];
        [|destruct (alloc_ok (enlarged (capacity_ v) n)) eqn:Hok].
      * right. rewrite bool_decide_false by lia.
        destruct (Resize_grow_run s this v xs n Hv) as (s' & v' & -> & _); [lia|lia|].
        split; [done|]. split; [done|]. by exists s'.
      * right. rewrite bool_decide_true, Hok by lia.
        destruct (Resize_grow_run s this v xs n Hv) as (s' & v' & -> & _); [lia|done|].
        split; [done|]. split; [done|]. by exists s'.
      * left. rewrite bool_decide_true, Hok by lia. split; [done|].
        exists bad_alloc. split; [done|].
        apply (Resize_bad_alloc s this v n); (done || lia).
  - right. right. destruct (Clear_run s this v xs Hv) as (-> & _).
    split; [done|]. split; [done|]. by eexists.
  - destruct (decide (i < size_ v)) as [Hi|Hi].
    + right. right.
      destruct (assign_element_run s this v xs i x Hv Hi) as (s' & -> & _).
      split; [done|]. split; [done|]. by exists s'.
    + left. split; [done|].
      destruct (assign_element_out_of_range s this v i x Hobj) as [-> _]; [lia|done].
  - right. destruct (decide (i < size_ v)) as [Hi|Hi].
    + right. rewrite bool_decide_false by lia.
      destruct (assign_element_run s this v xs i x Hv Hi) as (s' & _ & -> & _).
      split; [done|]. split; [done|]. by exists s'.
    + left. rewrite bool_decide_true by lia. split; [done|].
      exists out_of_range. split; [done|].
      destruct (assign_element_out_of_range s this v i x Hobj) as [_ ->]; [lia|done].
Qed.

(** X3: The outcome of a modifier call on a valid vector is settled by what
    the source checks.  The call is undefined exactly when an assertion
    fails ([PopBack] on an empty vector, [Insert] or [Erase] at a position
    outside the vector, [operator[]] at an index that is not below the
    size).  It throws exactly when [At] is given such an index
    ([out_of_range]) or when growing needs an allocation that fails
    ([bad_alloc]), and then the state is unchanged.  In every other case
    it returns. *)
Theorem modifier_outcome this m s v xs :
  is_vector s this v xs →
  (modify this m s = Undefined ↔ ¬ asserted v m) ∧
  (∀ e s', modify this m s = Throw e s' ↔
           asserted v m ∧ raised v m = Some e ∧ s' = s) ∧
  ((∃ s', modify this m s = Ok () s') ↔ asserted v m ∧ raised v m = None).
Proof.
  intros Hv.
  destruct (modify_cases this m s v xs Hv)
    as [(Hno & Hrun)|[(Hyes & e0 & He0 & Hrun)|(Hyes & Hnone & s0 & Hrun)]];
    rewrite Hrun.
  - split; [done|]. split.
    + intros e s'. split; [done|]. by intros (? & _).
    + split; [by intros (s' & ?)|]. by intros (? & _).
  - split; [split; [done|by intros ?]|]. split.
    + intros e s'. split.
      * intros [= -> ->]. done.
      * intros (_ & He & ->). congruence.
    + split; [by intros (s' & ?)|]. intros (_ & ?). congruence.
  - split; [split; [done|by intros ?]|]. split.
    + intros e s'. split; [done|]. intros (_ & ? & _). congruence.
    + split; [done|]. intros _. by exists s0.
Qed.

(** ** Observers *)

(** X22: The observers agree with each other on a valid vector: [GetSize] is
    the number of elements, [IsEmpty] answers [true] exactly when there
    are none, which is exactly when [begin()] and [end()] coincide;
    [end() - begin()] is the size; the [const] iterators are the same
    pointers; and none of them changes the state. *)
Theorem observers_agree s this v xs :
  is_vector s this v xs →
  ∃ b e,
    begin this s = Ok b s ∧ end_ this s = Ok e s ∧
    cbegin this s = Ok b s ∧ cend this s = Ok e s ∧
    GetSize this s = Ok (N.of_nat (length xs)) s ∧
    GetCapacity this s = Ok (capacity_ v) s ∧
    std_distance b e = N.of_nat (length xs) ∧
    N.of_nat (length xs) ≤ capacity_ v ∧
    ∃ empty, IsEmpty this s = Ok empty s ∧
             (empty = true ↔ xs = []) ∧ (empty = true ↔ b = e).
Proof.
  intros (Hobj & Hsz & Hle & _).
  exists (data_ptr_ v, 0), (data_ptr_ v, 0 + size_ v).
  unfold begin, end_, cbegin, cend, GetSize, GetCapacity, IsEmpty, bind, ret, ptr_add.
  rewrite (self_Ok s this v Hobj). cbn [fst snd].
  rewrite <- Hsz.
  split; [done|]. split; [done|]. split; [done|]. split; [done|].
  split; [done|]. split; [done|].
  split; [unfold std_distance; cbn; lia|]. split; [done|].
  exists (bool_decide (size_ v = 0)). split; [done|].
  rewrite bool_decide_eq_true. split.
  - rewrite Hsz. split.
    + intros H0. apply length_zero_iff_nil. lia.
    + by intros ->.
  - split; [by intros ->|]. intros [= H0]. lia.
Qed.

(** ** Constructors *)

Lemma is_vector_no_array s this p n xs :
  is_vector s this (mkSimpleVector p n 0) xs → p = None.
Proof.
  intros (_ & _ & _ & _ & Hblk). unfold array_holds in Hblk. cbn in Hblk.
  destruct p as [a|]; [|done]. by destruct Hblk.
Qed.

(** X8: [SimpleVector(size)] holds [size] value-initialised elements and
    [SimpleVector(size, value)] holds [size] copies of [value]; both have
    capacity [size], and hold no array when [size] is 0.  When the
    allocation fails they throw [bad_alloc] and no object comes to
    exist. *)
Theorem sized_constructors_fill s this n x :
  objs s !! this = None →
  ((n ≠ 0 → alloc_ok n = true) →
   (∃ s' p, SimpleVector_sized this n s = Ok () s' ∧
            is_vector s' this (mkSimpleVector p n n)
              (replicate (N.to_nat n) default_value) ∧
            (n = 0 → p = None) ∧ frame this s s') ∧
   (∃ s' p, SimpleVector_filled this n x s = Ok () s' ∧
            is_vector s' this (mkSimpleVector p n n) (replicate (N.to_nat n) x) ∧
            (n = 0 → p = None) ∧ frame this s s')) ∧
  (n ≠ 0 → alloc_ok n = false →
   SimpleVector_sized this n s = Throw bad_alloc s ∧
   SimpleVector_filled this n x s = Throw bad_alloc s).
Proof.
  intros Hnew. split.
  - intros Hok. split.
    + destruct (SimpleVector_filled_run s this n default_value Hnew Hok)
        as (s' & p & Hrun & Hv & Hfr).
      exists s', p. split; [exact Hrun|]. split; [done|]. split; [|done].
      intros ->. by apply (is_vector_no_array s' this p 0 _ Hv).
    + destruct (SimpleVector_filled_run s this n x Hnew Hok)
        as (s' & p & Hrun & Hv & Hfr).
      exists s', p. split; [exact Hrun|]. split; [done|]. split; [|done].
      intros ->. by apply (is_vector_no_array s' this p 0 _ Hv).
  - intros Hn Hfail. split; by apply constructor_bad_alloc.
Qed.

Lemma moved_values_lookup n : ∀ x i,
  (i < n)%nat → moved_values n x !! i = Some (Nat.iter i moved_from x).
Proof.
  induction n as [|n IH]; intros x i Hi; [lia|].
  destruct i as [|i]; [done|]. cbn [moved_values lookup list_lookup].
  rewrite IH by lia. by rewrite Nat.iter_succ_r.
Qed.

(** X9: [SimpleVector(size, Type&& value)] moves from the one [value] for
    every element: element 0 receives [value], and element [i] receives
    what [value] is after having been moved from [i] times.  Only for a
    type whose moved-from state equals the original are the elements
    [size] copies of [value]. *)
Theorem rvalue_fill_constructor_moves_repeatedly s this n x :
  objs s !! this = None → (n ≠ 0 → alloc_ok n = true) →
  ∃ s' p xs,
    SimpleVector_filled_move this n x s = Ok () s' ∧
    is_vector s' this (mkSimpleVector p n n) xs ∧
    length xs = N.to_nat n ∧
    (∀ i, (i < N.to_nat n)%nat → xs !! i = Some (Nat.iter i moved_from x)) ∧
    ((∀ y, moved_from y = y) → xs = replicate (N.to_nat n) x).
Proof.
  intros Hnew Hok.
  destruct (SimpleVector_filled_move_run s this n x Hnew Hok) as (s' & p & Hrun & Hv & _).
  exists s', p, (moved_values (N.to_nat n) x).
  split; [done|]. split; [done|]. split; [apply length_moved_values|].
  split; [intros i Hi; by apply moved_values_lookup|].
  intros Hid. generalize (N.to_nat n). intros k.
  induction k as [|k IH]; [done|]. cbn. by rewrite Hid, IH.
Qed.

(** X10: [SimpleVector(std::initializer_list)] holds exactly the listed
    elements, in order, with size and capacity equal to their number;
    each is read back through [operator[]]. *)
Theorem initializer_list_constructor_holds_list s this init :
  objs s !! this = None →
  (init ≠ [] → alloc_ok (N.of_nat (length init)) = true) →
  ∃ s' v,
    SimpleVector_init this init s = Ok () s' ∧
    is_vector s' this v init ∧
    contents s' this = Some init ∧
    size_ v = N.of_nat (length init) ∧
    capacity_ v = N.of_nat (length init) ∧
    ∀ i y, init !! i = Some y → read_element this (N.of_nat i) s' = Ok y s'.
Proof.
  intros Hnew Hok.
  destruct (SimpleVector_init_run s this init Hnew Hok) as (s' & p & Hrun & Hv & _).
  eexists s', _. split; [done|]. split; [done|].
  split; [by apply (is_vector_contents _ _ _ _ Hv)|]. split; [done|]. split; [done|].
  intros i y Hy. pose proof Hv as (Hobj & _).
  unfold read_element, subscript, bind.
  rewrite (self_Ok _ _ _ Hobj). cbn [size_ data_ptr_].
  apply lookup_lt_Some in Hy as Hlt.
  rewrite bool_decide_true by lia. cbn.
  apply (load_value_live s' this _ init (N.of_nat i) y Hv). by rewrite Nat2N.id.
Qed.

Lemma push_all_within_capacity rvalue this values : ∀ s v xs,
  is_vector s this v xs →
  size_ v + N.of_nat (length values) ≤ capacity_ v →
  ∃ s' v',
    push_all rvalue this values s = Ok () s' ∧
    is_vector s' this v' (xs ++ values) ∧
    capacity_ v' = capacity_ v ∧
    data_ptr_ v' = data_ptr_ v.
Proof.
  induction values as [|x values IH]; intros s v xs Hv Hroom.
  { exists s, v. by rewrite app_nil_r. }
  cbn [length] in Hroom.
  destruct (push_back_run rvalue s this v xs x Hv) as (s1 & v1 & Hrun & Hv1 & _ & Hc & Hp);
    [lia|].
  rewrite bool_decide_false in Hc by lia.
  pose proof Hv as (_ & Hsz & _). pose proof Hv1 as (_ & Hsz1 & _).
  rewrite length_app in Hsz1. cbn in Hsz1.
  destruct (IH s1 v1 (xs ++ [x]) Hv1) as (s' & v' & Hrun' & Hv' & Hc' & Hp'); [lia|].
  exists s', v'. cbn [push_all]. unfold bind. rewrite Hrun.
  split; [done|]. rewrite <- app_assoc in Hv'. split; [done|].
  split; [congruence|]. rewrite Hp'. apply Hp. lia.
Qed.

(** X11: [PushBack] does not reallocate while there is room: pushing values
    into a vector that has at least as many spare slots keeps the array
    and the capacity, needs no allocation and cannot throw.  In
    particular a vector made by [SimpleVector v(Reserve(n))] is empty with
    capacity [n], and up to [n] calls of [PushBack] leave it on the array
    it was constructed with. *)
Theorem reserved_capacity_absorbs_pushes rvalue s this n values :
  (∀ v xs, is_vector s this v xs →
           size_ v + N.of_nat (length values) ≤ capacity_ v →
           ∃ s' v', push_all rvalue this values s = Ok () s' ∧
                    is_vector s' this v' (xs ++ values) ∧
                    capacity_ v' = capacity_ v ∧
                    data_ptr_ v' = data_ptr_ v) ∧
  (objs s !! this = None → (n ≠ 0 → alloc_ok n = true) →
   N.of_nat (length values) ≤ n →
   ∃ s1 p s2,
     SimpleVector_reserved this (Reserve_proxy n) s = Ok () s1 ∧
     is_vector s1 this (mkSimpleVector p 0 n) [] ∧
     push_all rvalue this values s1 = Ok () s2 ∧
     is_vector s2 this (mkSimpleVector p (N.of_nat (length values)) n) values).
Proof.
  split; [intros v xs; apply push_all_within_capacity|].
  intros Hnew Hok Hlen.
  destruct (SimpleVector_reserved_run s this n Hnew Hok) as (s1 & p & Hrun & Hv & _).
  destruct (push_all_within_capacity rvalue this values s1 _ [] Hv)
    as (s2 & v2 & Hrun2 & Hv2 & Hc2 & Hp2); [cbn; lia|].
  exists s1, p, s2. split; [done|]. split; [done|]. split; [done|].
  cbn in Hv2, Hc2, Hp2. pose proof Hv2 as (_ & Hsz2 & _).
  destruct v2 as [p2 sz2 c2]. cbn in *. by subst.
Qed.

(** ** swap and copy assignment *)

(** X6: [swap] exchanges the elements, sizes, capacities and arrays of two
    vectors without touching the heap or any other object; it does the
    same whichever of the two it is called on, and swapping again
    restores the program state exactly. *)
Theorem swap_exchanges_and_undoes s x y vx xs vy ys :
  x ≠ y → is_vector s x vx xs → is_vector s y vy ys →
  ∃ s', swap x y s = Ok () s' ∧
        is_vector s' x vy ys ∧
        is_vector s' y vx xs ∧
        mem s' = mem s ∧
        (∀ z, z ≠ x → z ≠ y → objs s' !! z = objs s !! z) ∧
        swap y x s = Ok () s' ∧
        swap x y s' = Ok () s.
Proof.
  intros Hne Hx Hy. pose proof Hx as (Hox & _). pose proof Hy as (Hoy & _).
  set (s' := mkState (<[y := vx]> (<[x := vy]> (objs s))) (mem s)).
  assert (Hx' : objs s' !! x = Some vy).
  { cbn. by rewrite lookup_insert_ne, lookup_insert_eq. }
  assert (Hy' : objs s' !! y = Some vx).
  { cbn. by rewrite lookup_insert_eq. }
  exists s'. split; [by apply swap_run|].
  split; [by apply (is_vector_relocate s s' y x vy ys)|].
  split; [by apply (is_vector_relocate s s' x y vx xs)|].
  split; [done|]. split.
  { intros z Hzx Hzy. cbn. by rewrite !lookup_insert_ne. }
  split.
  - rewrite (swap_run s y x vy vx) by done. unfold s'. do 2 f_equal.
    by apply insert_insert_ne.
  - rewrite (swap_run s' x y vy vx Hne Hx' Hy'). cbn.
    destruct s as [o m]. cbn in *. do 2 f_equal.
    apply map_eq. intros k.
    destruct (decide (k = y)) as [->|Hky]; [by rewrite lookup_insert_eq|].
    rewrite lookup_insert_ne by done.
    destruct (decide (k = x)) as [->|Hkx]; [by rewrite lookup_insert_eq|].
    by rewrite !lookup_insert_ne.
Qed.

Lemma is_vector_frame_new this s s' y vy ys :
  objs s !! this = None → frame this s s' →
  is_vector s y vy ys → is_vector s' y vy ys.
Proof.
  intros Hnew (Hobjs & Hmem & _) (Hoy & Hsz & Hle & Hcap & Hblk).
  assert (Hne : y ≠ this) by (intros ->; congruence).
  split; [by rewrite Hobjs|]. split; [done|]. split; [done|]. split; [done|].
  unfold array_holds in *. destruct (data_ptr_ vy) as [a|]; [|done].
  destruct Hblk as (Hc0 & blk & Hm & Hrest). split; [done|].
  exists blk. split; [|done]. apply Hmem; [done|]. intros v0 Hv0. congruence.
Qed.

Lemma is_vector_release s this v xs q :
  is_vector s this v xs → (∀ a, q = Some a → data_ptr_ v ≠ Some a) →
  ∀ o that, o !! that = Some v →
  is_vector (mkState o (release q (mem s))) that v xs.
Proof.
  intros (_ & Hsz & Hle & Hcap & Hblk) Hq o that Ho.
  split; [done|]. split; [done|]. split; [done|]. split; [done|].
  unfold array_holds in *. cbn [mem]. destruct (data_ptr_ v) as [a|]; [|done].
  destruct Hblk as (Hc0 & blk & Hm & Hrest). split; [done|].
  exists blk. split; [|done]. unfold release. destruct q as [b|]; [|done].
  rewrite lookup_delete_ne; [done|]. intros ->. by apply (Hq a).
Qed.

(** X5: [operator=(const SimpleVector&)] on two different vectors with
    arrays of their own: the target ends up with the source's elements on
    a new array whose capacity is exactly the source's size (whatever
    capacity the target had), the target's former array is released, and
    the source is untouched.  When the copy cannot be allocated the
    assignment throws [bad_alloc] and nothing has changed.  Assigning a
    vector to itself does nothing. *)
Theorem copy_assignment_replaces s d c vd xd vc xc :
  d ≠ c → is_vector s d vd xd → is_vector s c vc xc →
  (∀ a, data_ptr_ vd = Some a → data_ptr_ vc ≠ Some a) →
  ((size_ vc ≠ 0 → alloc_ok (size_ vc) = true) →
   ∃ s' v',
     assign_copy d c s = Ok d s' ∧
     is_vector s' d v' xc ∧
     capacity_ v' = size_ vc ∧
     is_vector s' c vc xc ∧
     (∀ a, data_ptr_ vd = Some a → mem s' !! a = None) ∧
     (∀ a, data_ptr_ v' = Some a → mem s !! a = None) ∧
     (∀ z, objs s !! z = None → objs s' !! z = None)) ∧
  (size_ vc ≠ 0 → alloc_ok (size_ vc) = false →
   assign_copy d c s = Throw bad_alloc s) ∧
  assign_copy d d s = Ok d s.
Proof.
  intros Hdc Hd Hc Hdisj.
  pose proof Hd as (Hod & _). pose proof Hc as (Hoc & _).
  set (tmp := fresh (dom (objs s))).
  assert (Htmp : objs s !! tmp = None).
  { apply not_elem_of_dom. apply is_fresh. }
  assert (Htd : tmp ≠ d) by (intros E; rewrite E in Htmp; congruence).
  assert (Htc : tmp ≠ c) by (intros E; rewrite E in Htmp; congruence).
  split; [|split].
  - intros Hok.
    destruct (SimpleVector_copy_run s tmp c vc xc Htmp Hc Hok)
      as (s1 & p & Hrun1 & Ht1 & Hfr).
    set (vt := mkSimpleVector p (size_ vc) (size_ vc)) in *.
    pose proof (is_vector_frame_new tmp s s1 d vd xd Htmp Hfr Hd) as Hd1.
    pose proof (is_vector_frame_new tmp s s1 c vc xc Htmp Hfr Hc) as Hc1.
    pose proof Hd1 as (Hod1 & _). pose proof Ht1 as (Hot1 & _).
    pose proof Hc1 as (Hoc1 & _).
    set (s2 := mkState (<[tmp := vd]> (<[d := vt]> (objs s1))) (mem s1)).
    assert (Hrun2 : swap d tmp s1 = Ok () s2) by (by apply swap_run).
    assert (Ht2 : is_vector s2 tmp vd xd).
    { apply (is_vector_relocate s1 s2 d tmp vd xd Hd1); [|done].
      cbn. by rewrite lookup_insert_eq. }
    pose proof (destructor_run s2 tmp vd xd Ht2) as Hrun3.
    assert (Hfresh : ∀ a, p = Some a → mem s !! a = None).
    { intros a ->. destruct Hfr as (_ & _ & Hptr).
      destruct (Hptr vt a Hot1 eq_refl) as [(v0 & Hv0 & _)|Hfree]; [congruence|done]. }
    assert (Hpd : ∀ a, data_ptr_ vd = Some a → data_ptr_ vt ≠ Some a).
    { intros a Ha Hpa. cbn in Hpa. pose proof (Hfresh a Hpa) as Hnone.
      destruct Hd as (_ & _ & _ & _ & Hblk). unfold array_holds in Hblk.
      rewrite Ha in Hblk. destruct Hblk as (_ & blk & Hm & _). congruence. }
    eexists _, vt. split.
    { unfold assign_copy, bind, fresh_object. rewrite bool_decide_true by done.
      fold tmp. rewrite Hrun1, Hrun2, Hrun3. done. }
    unfold s2. cbn [objs mem].
    split.
    { apply (is_vector_release s1 tmp vt xc (data_ptr_ vd) Ht1);
        [intros a Ha Hpa; by apply (Hpd a)|].
      by rewrite delete_insert_eq, lookup_delete_ne, lookup_insert_eq. }
    split; [done|]. split.
    { apply (is_vector_release s1 c vc xc (data_ptr_ vd) Hc1 Hdisj).
      by rewrite delete_insert_eq, lookup_delete_ne, lookup_insert_ne. }
    split.
    { intros a ->. cbn. apply lookup_delete_eq. }
    split; [exact Hfresh|].
    intros z Hz. destruct (decide (z = tmp)) as [->|Hzt].
    { by rewrite delete_insert_eq, lookup_delete_eq. }
    rewrite delete_insert_eq, lookup_delete_ne by done.
    assert (z ≠ d) by (intros ->; congruence).
    rewrite lookup_insert_ne by done.
    destruct Hfr as (Hobjs & _). by rewrite Hobjs.
  - intros Hsz Hfail. unfold assign_copy, bind, fresh_object.
    rewrite bool_decide_true by done. fold tmp.
    by rewrite (SimpleVector_copy_bad_alloc s tmp c vc).
  - unfold assign_copy, bind. by rewrite bool_decide_false by (intros ?; done).
Qed.

(** ** Modifiers *)

(** X12: [PushBack] then [PopBack] is a round trip on the elements: after the
    push the new last element reads back as the pushed value, and after
    the pop the vector holds its former elements with its former size (the
    capacity may have grown, the elements are not moved back).  Either
    overload of [PushBack]. *)
Theorem PushBack_then_PopBack_restores rvalue s this v xs x :
  is_vector s this v xs →
  (size_ v = capacity_ v → alloc_ok (grown (capacity_ v)) = true) →
  ∃ s1 v1 s2 v2,
    push_back rvalue this x s = Ok () s1 ∧
    is_vector s1 this v1 (xs ++ [x]) ∧
    read_element this (size_ v) s1 = Ok x s1 ∧
    PopBack this s1 = Ok () s2 ∧
    is_vector s2 this v2 xs ∧
    size_ v2 = size_ v ∧
    capacity_ v2 = capacity_ v1 ∧
    capacity_ v ≤ capacity_ v2.
Proof.
  intros Hv Hok. pose proof Hv as (_ & Hsz & Hle & Hcap & _).
  destruct (push_back_run rvalue s this v xs x Hv Hok)
    as (s1 & v1 & Hrun1 & Hv1 & _ & Hc1 & _).
  pose proof Hv1 as (Ho1 & Hsz1 & _). rewrite length_app in Hsz1. cbn in Hsz1.
  assert (Hne : size_ v1 ≠ 0) by lia.
  destruct (PopBack_run s1 this v1 (xs ++ [x]) Hv1 Hne) as [Hrun2 Hv2].
  cbn zeta in Hrun2, Hv2.
  rewrite length_app, Nat.add_sub, take_app_length in Hv2.
  eexists s1, v1, _, _. split; [done|]. split; [done|].
  split.
  { unfold read_element, subscript, bind. rewrite (self_Ok _ _ _ Ho1).
    rewrite bool_decide_true by lia. cbn.
    replace (size_ v) with (N.of_nat (length xs)) at 1 by done.
    apply (load_value_live s1 this v1 (xs ++ [x]) _ x Hv1).
    rewrite Nat2N.id. by apply list_lookup_middle. }
  split; [done|]. split; [done|]. cbn.
  split; [lia|]. split; [done|].
  rewrite Hc1. case_bool_decide; [|lia].
  rewrite grown_small by done. case_bool_decide; lia.
Qed.

(** X14: [Insert] at [end()] is [PushBack]: [Insert(end(), std::move(x))]
    leaves the same elements, size and capacity as [PushBack] of [x] (either
    overload), and returns an iterator to the new last element. *)
Theorem Insert_at_end_is_PushBack rvalue s this v xs x :
  is_vector s this v xs →
  (size_ v = capacity_ v → alloc_ok (grown (capacity_ v)) = true) →
  ∃ e s1 v1 s2 v2,
    end_ this s = Ok e s ∧
    Insert_move this e x s = Ok (data_ptr_ v1, size_ v) s1 ∧
    push_back rvalue this x s = Ok () s2 ∧
    is_vector s1 this v1 (xs ++ [x]) ∧
    is_vector s2 this v2 (xs ++ [x]) ∧
    size_ v1 = size_ v2 ∧
    capacity_ v1 = capacity_ v2 ∧
    load_value (data_ptr_ v1, size_ v) s1 = Ok x s1.
Proof.
  intros Hv Hok. pose proof Hv as (Hobj & Hsz & _).
  destruct (Insert_move_run s this v xs (size_ v) x Hv)
    as (s1 & v1 & Hrun1 & Hv1 & _ & Hc1); [lia|done|].
  destruct (push_back_run rvalue s this v xs x Hv Hok)
    as (s2 & v2 & Hrun2 & Hv2 & _ & Hc2 & _).
  rewrite take_ge, drop_ge in Hv1 by lia.
  exists (data_ptr_ v, size_ v), s1, v1, s2, v2.
  split.
  { unfold end_, bind, ret, ptr_add. rewrite (self_Ok _ _ _ Hobj). cbn.
    by rewrite N.add_0_l. }
  split; [done|]. split; [done|]. split; [done|]. split; [done|].
  pose proof Hv1 as (_ & Hsz1 & _). pose proof Hv2 as (_ & Hsz2 & _).
  split; [congruence|]. split; [congruence|].
  apply (load_value_live s1 this v1 (xs ++ [x]) _ x Hv1).
  rewrite Hsz, Nat2N.id. by apply list_lookup_middle.
Qed.

(** X15: [Erase] at [begin() + n], [n < size], removes exactly that element:
    the ones before keep their index, the ones after move down by one,
    the size drops by one, the array and the capacity stay, nothing is
    allocated and nothing is thrown.  The returned iterator is
    [begin() + n]: it points to the element that followed the erased one,
    or is [end()] when the last element was erased. *)
Theorem Erase_removes_one_element s this v xs n :
  is_vector s this v xs → n < size_ v →
  ∃ s',
    Erase this (data_ptr_ v, n) s = Ok (data_ptr_ v, n) s' ∧
    is_vector s' this (mkSimpleVector (data_ptr_ v) (size_ v - 1) (capacity_ v))
      (take (N.to_nat n) xs ++ drop (S (N.to_nat n)) xs) ∧
    frame this s s' ∧
    (∀ i y, (i < N.to_nat n)%nat → xs !! i = Some y →
            read_element this (N.of_nat i) s' = Ok y s') ∧
    (∀ i y, (N.to_nat n < i)%nat → xs !! i = Some y →
            read_element this (N.of_nat (i - 1)) s' = Ok y s') ∧
    (n + 1 = size_ v → end_ this s' = Ok (data_ptr_ v, n) s').
Proof.
  intros Hv Hn. pose proof Hv as (_ & Hsz & _).
  destruct (Erase_run s this v xs n Hv Hn) as (s' & Hrun & Hv' & Hfr).
  cbn zeta in Hv'. set (v' := mkSimpleVector _ _ _) in *.
  set (ys := take (N.to_nat n) xs ++ drop (S (N.to_nat n)) xs) in *.
  pose proof Hv' as (Ho' & Hsz' & _).
  assert (Hread : ∀ j y, ys !! j = Some y → read_element this (N.of_nat j) s' = Ok y s').
  { intros j y Hy. apply lookup_lt_Some in Hy as Hlt.
    unfold read_element, subscript, bind. rewrite (self_Ok _ _ _ Ho').
    rewrite bool_decide_true by lia. cbn.
    apply (load_value_live s' this v' ys (N.of_nat j) y Hv'). by rewrite Nat2N.id. }
  exists s'. split; [done|]. split; [done|]. split; [done|].
  split; [|split].
  - intros i y Hi Hy. apply Hread. unfold ys.
    rewrite lookup_app_l by (rewrite length_take; lia).
    by rewrite lookup_take_lt.
  - intros i y Hi Hy. apply Hread. unfold ys.
    rewrite lookup_app_r by (rewrite length_take; lia).
    rewrite length_take, lookup_drop. rewrite <- Hy. f_equal. lia.
  - intros Hlast. unfold end_, bind, ret, ptr_add. rewrite (self_Ok _ _ _ Ho').
    cbn. do 2 f_equal. lia.
Qed.

Lemma Resize_fields this n s :
  wp (Resize this n)
     (λ _ s', ∀ v, objs s !! this = Some v → size_ v ≤ capacity_ v →
        ∃ v', objs s' !! this = Some v' ∧
              size_ v' = n ∧
              capacity_ v' =
                (if bool_decide (n ≤ capacity_ v) then capacity_ v
                 else enlarged (capacity_ v) n) ∧
              (n ≤ capacity_ v → data_ptr_ v' = data_ptr_ v))
     (λ _ _, True) s.
Proof.
  unfold Resize. wp_read this. rename w into v, Hw into Hv.
  case_bool_decide as Hshrink.
  { wp_set. intros v0 Hv0 Hle. replace v0 with v in * by congruence.
    eexists. rewrite lookup_insert_eq. split; [done|]. cbn.
    by rewrite bool_decide_true by lia. }
  destruct (bool_decide (size_ v < n) && bool_decide (n ≤ capacity_ v)) eqn:Hfits.
  { apply andb_prop in Hfits as [_ Hfits%bool_decide_eq_true].
    do 3 wp_quiet. wp_set. intros v0 Hv0 Hle. replace v0 with v in * by congruence.
    eexists. rewrite lookup_insert_eq. split; [done|]. cbn.
    by rewrite bool_decide_true by lia. }
  destruct (bool_decide (size_ v < n) && bool_decide (capacity_ v < n)) eqn:Hgrow.
  - apply andb_prop in Hgrow as [_ Hgrow%bool_decide_eq_true].
    apply wp_bind, wp_ArrayPtr_new; [|done]. intros p m1 Hp.
    do 4 wp_quiet. do 3 (apply wp_bind; wp_set).
    apply wp_ArrayPtr_delete. cbn [objs mem].
    intros v0 Hv0 Hle. replace v0 with v in * by congruence.
    eexists. rewrite lookup_insert_eq. split; [done|]. cbn.
    rewrite bool_decide_false by lia. split; [done|]. split; [done|]. lia.
  - apply wp_ret. intros v0 Hv0 Hle. replace v0 with v in * by congruence.
    exfalso.
    apply andb_false_iff in Hfits as [Hf|Hf]; apply bool_decide_eq_false in Hf;
      apply andb_false_iff in Hgrow as [Hg|Hg]; apply bool_decide_eq_false in Hg; lia.
Qed.

Lemma Resize_grow_exact s this v xs n :
  is_vector s this v xs → size_ v < n →
  (capacity_ v < n → alloc_ok (enlarged (capacity_ v) n) = true) →
  ∃ s' v',
    Resize this n s = Ok () s' ∧
    is_vector s' this v' (xs ++ replicate (N.to_nat n - length xs) default_value) ∧
    size_ v' = n ∧
    capacity_ v' =
      (if bool_decide (n ≤ capacity_ v) then capacity_ v
       else N.max (capacity_ v * 2) n) ∧
    (n ≤ capacity_ v → data_ptr_ v' = data_ptr_ v).
Proof.
  intros Hv Hn Hok. pose proof Hv as (Hobj & _ & Hle & Hcap & _).
  destruct (Resize_grow_run s this v xs n Hv Hn Hok) as (s' & v' & Hrun & Hv' & _ & Hsz').
  pose proof (Resize_fields this n s) as Hf. unfold wp in Hf. rewrite Hrun in Hf.
  destruct (Hf v Hobj Hle) as (w & Hw & _ & Hc & Hp).
  pose proof Hv' as (Ho' & _). replace w with v' in * by congruence.
  exists s', v'. split; [done|]. split; [done|]. split; [done|]. split; [|done].
  rewrite Hc. case_bool_decide; [done|]. unfold enlarged.
  rewrite size_t_twice_small by done. case_bool_decide; lia.
Qed.

(** X16: [Resize] to a larger size appends value-initialised elements after
    the existing ones.  Within the capacity, the array and the capacity
    stay and nothing is allocated; beyond it the elements move to a new
    array whose capacity is the larger of twice the old capacity and the
    new size. *)
Theorem Resize_grow_appends_defaults s this v xs n :
  is_vector s this v xs → size_ v < n →
  (capacity_ v < n → alloc_ok (enlarged (capacity_ v) n) = true) →
  ∃ s' v',
    Resize this n s = Ok () s' ∧
    is_vector s' this v' (xs ++ replicate (N.to_nat n - length xs) default_value) ∧
    GetSize this s' = Ok n s' ∧
    size_ v' = n ∧
    capacity_ v' =
      (if bool_decide (n ≤ capacity_ v) then capacity_ v
       else N.max (capacity_ v * 2) n) ∧
    (n ≤ capacity_ v → data_ptr_ v' = data_ptr_ v).
Proof.
  intros Hv Hn Hok.
  destruct (Resize_grow_exact s this v xs n Hv Hn Hok)
    as (s' & v' & Hrun & Hv' & Hsz & Hc & Hp).
  exists s', v'. split; [done|]. split; [done|]. split; [|done].
  pose proof Hv' as (Ho' & _).
  unfold GetSize, bind. rewrite (self_Ok _ _ _ Ho'). cbn. by rewrite Hsz.
Qed.

(** X17: Shrinking does not keep the dropped elements alive: after [Resize]
    down to [k] elements ([Clear] for [k = 0], [PopBack] for
    [k = size - 1]) and [Resize] back up to [n] within the capacity, the
    vector holds its first [k] elements followed by value-initialised
    ones, not the values that were there before; it is still on the same
    array with the same capacity. *)
Theorem shrink_then_grow_gives_defaults s this v xs k n :
  is_vector s this v xs → k ≤ size_ v → k < n → n ≤ capacity_ v →
  ∃ s1 s2,
    Resize this k s = Ok () s1 ∧
    (k = 0 → Clear this s = Ok () s1) ∧
    (k + 1 = size_ v → PopBack this s = Ok () s1) ∧
    Resize this n s1 = Ok () s2 ∧
    is_vector s2 this (mkSimpleVector (data_ptr_ v) n (capacity_ v))
      (take (N.to_nat k) xs ++ replicate (N.to_nat n - N.to_nat k) default_value).
Proof.
  intros Hv Hk Hkn Hn. pose proof Hv as (Hobj & Hsz & Hle & Hcap & _).
  destruct (Resize_shrink_run s this v xs k Hv Hk) as (Hrun1 & Hv1 & _).
  cbn zeta in Hrun1, Hv1.
  set (v1 := mkSimpleVector (data_ptr_ v) k (capacity_ v)) in *.
  set (s1 := mkState (<[this := v1]> (objs s)) (mem s)) in *.
  destruct (Resize_grow_exact s1 this v1 (take (N.to_nat k) xs) n Hv1)
    as (s2 & v2 & Hrun2 & Hv2 & Hsz2 & Hc2 & Hp2); [done|cbn; lia|].
  cbn [capacity_ data_ptr_ v1] in Hc2, Hp2.
  rewrite bool_decide_true in Hc2 by done. specialize (Hp2 Hn).
  rewrite length_take in Hv2.
  replace (N.to_nat k `min` length xs)%nat with (N.to_nat k) in Hv2 by lia.
  exists s1, s2. split; [done|]. split; [|split; [|split; [done|]]].
  - intros ->. by destruct (Clear_run s this v xs Hv) as (-> & _).
  - intros Hlast.
    destruct (PopBack_run s this v xs Hv) as [-> _]; [lia|].
    unfold s1, v1. do 4 f_equal. lia.
  - destruct v2 as [p2 sz2 c2]. cbn in *. by subst.
Qed.

(** X18: Assigning through [operator[]] or [At] within the size replaces that
    element and no other: afterwards index [i] reads the assigned value
    and every other index reads what it held, through either accessor;
    size, capacity and array are unchanged. *)
Theorem element_assignment_round_trip s this v xs i x :
  is_vector s this v xs → i < size_ v →
  ∃ s',
    assign_element this i x s = Ok () s' ∧
    assign_element_At this i x s = Ok () s' ∧
    is_vector s' this v (<[N.to_nat i := x]> xs) ∧
    read_element this i s' = Ok x s' ∧
    read_element_At this i s' = Ok x s' ∧
    ∀ j y, j ≠ N.to_nat i → xs !! j = Some y →
           read_element this (N.of_nat j) s' = Ok y s' ∧
           read_element_At this (N.of_nat j) s' = Ok y s'.
Proof.
  intros Hv Hi. pose proof Hv as (_ & Hsz & _).
  destruct (assign_element_run s this v xs i x Hv Hi) as (s' & Hrun & HrunAt & Hv' & _).
  pose proof Hv' as (Ho' & _).
  assert (Hread : ∀ j y, <[N.to_nat i := x]> xs !! N.to_nat j = Some y →
            read_element this j s' = Ok y s' ∧ read_element_At this j s' = Ok y s').
  { intros j y Hy. apply lookup_lt_Some in Hy as Hlt. rewrite length_insert in Hlt.
    unfold read_element, read_element_At, subscript, At, bind.
    rewrite (self_Ok _ _ _ Ho').
    rewrite bool_decide_true, bool_decide_false by lia. cbn.
    split; by apply (load_value_live s' this v _ j y Hv'). }
  exists s'. split; [done|]. split; [done|]. split; [done|].
  assert (Hx : <[N.to_nat i := x]> xs !! N.to_nat i = Some x).
  { apply list_lookup_insert_eq. lia. }
  split; [by apply Hread|]. split; [by apply Hread|].
  intros j y Hj Hy. apply Hread. rewrite Nat2N.id.
  by rewrite list_lookup_insert_ne.
Qed.

(** ** Construction followed by destruction *)

Lemma destroy_constructed s s' this v xs :
  frame this s s' → constructed this s s' → is_vector s' this v xs →
  destructor this s' = Ok () s.
Proof.
  intros (_ & Hmem & _) (Hnone & v' & Hobjs & Hcase) Hv.
  rewrite (destructor_run s' this v xs Hv).
  pose proof Hv as (Ho' & _). rewrite Hobjs, lookup_insert_eq in Ho'.
  injection Ho' as ->.
  assert (Hold : ∀ k, k ∈ dom (mem s) → mem s' !! k = mem s !! k).
  { intros k [blk Hk]%elem_of_dom. rewrite Hk. apply Hmem; [done|].
    intros v0 Hv0. congruence. }
  destruct s as [o m]. cbn [objs mem] in *. do 2 f_equal.
  { by rewrite Hobjs, delete_insert_id. }
  apply map_eq. intros k.
  destruct Hcase as [(-> & Hd)|(b & -> & Hb & Hd)]; cbn [release].
  - destruct (decide (k ∈ dom m)) as [Hk|Hk]; [by apply Hold|].
    rewrite (proj1 (not_elem_of_dom m k) Hk).
    apply not_elem_of_dom. by rewrite Hd.
  - destruct (decide (k = b)) as [->|Hkb]; [by rewrite lookup_delete_eq|].
    rewrite lookup_delete_ne by done.
    destruct (decide (k ∈ dom m)) as [Hk|Hk]; [by apply Hold|].
    rewrite (proj1 (not_elem_of_dom m k) Hk).
    apply not_elem_of_dom. rewrite Hd, elem_of_union, elem_of_singleton.
    by intros [?|?].
Qed.

Lemma SimpleVector_filled_effect this n x s :
  wp (SimpleVector_filled this n x)
     (λ _ s', constructed this s s') (λ e s', s' = s ∧ e = bad_alloc) s.
Proof. apply constructor_effect; [quiet_steps|done]. Qed.

Lemma SimpleVector_init_effect this init s :
  wp (SimpleVector_init this init)
     (λ _ s', constructed this s s') (λ e s', s' = s ∧ e = bad_alloc) s.
Proof. apply constructor_effect; [quiet_steps|done]. Qed.

(** X7: A vector that is constructed and then destroyed leaves no trace: the
    program state after [{ SimpleVector v(...); }] is exactly the state
    before, every object and every array, for the fill constructor, the
    initializer-list constructor and the copy constructor. *)
Theorem temporary_vector_leaves_no_trace s this :
  objs s !! this = None →
  (∀ n x, (n ≠ 0 → alloc_ok n = true) →
          (SimpleVector_filled this n x;;; destructor this) s = Ok () s) ∧
  (∀ init, (init ≠ [] → alloc_ok (N.of_nat (length init)) = true) →
           (SimpleVector_init this init;;; destructor this) s = Ok () s) ∧
  (∀ other vo xo,
     is_vector s other vo xo → (size_ vo ≠ 0 → alloc_ok (size_ vo) = true) →
     (SimpleVector_copy this other;;; destructor this) s = Ok () s).
Proof.
  intros Hnew. split; [|split].
  - intros n x Hok.
    destruct (SimpleVector_filled_run s this n x Hnew Hok) as (s' & p & Hrun & Hv & Hfr).
    pose proof (SimpleVector_filled_effect this n x s) as Hc. unfold wp in Hc.
    rewrite Hrun in Hc. unfold bind. rewrite Hrun.
    by apply (destroy_constructed s s' this _ _ Hfr Hc Hv).
  - intros init Hok.
    destruct (SimpleVector_init_run s this init Hnew Hok) as (s' & p & Hrun & Hv & Hfr).
    pose proof (SimpleVector_init_effect this init s) as Hc. unfold wp in Hc.
    rewrite Hrun in Hc. unfold bind. rewrite Hrun.
    by apply (destroy_constructed s s' this _ _ Hfr Hc Hv).
  - intros other vo xo Ho Hok.
    destruct (SimpleVector_copy_run s this other vo xo Hnew Ho Hok)
      as (s' & p & Hrun & Hv & Hfr).
    pose proof (SimpleVector_copy_effect this other s) as Hc. unfold wp in Hc.
    rewrite Hrun in Hc. unfold bind. rewrite Hrun.
    by apply (destroy_constructed s s' this _ _ Hfr Hc Hv).
Qed.

(** ** Arguments that refer to an element of the vector itself *)

Lemma ArrayPtr_new_inv n s p s1 :
  ArrayPtr_new n s = Ok p s1 → n ≠ 0 →
  p = Some (fresh (dom (mem s))) ∧
  s1 = mkState (objs s) (<[fresh (dom (mem s)) := replicate (N.to_nat n) None]> (mem s)).
Proof.
  unfold ArrayPtr_new. intros Hrun Hn.
  rewrite bool_decide_false in Hrun by done.
  destruct (alloc_ok n); [|done]. by injection Hrun as <- <-.
Qed.

Lemma block_lookup_live (A : list slot) (xs : list T) k y :
  take (length xs) A = Some <$> xs → xs !! k = Some y → A !! k = Some (Some y).
Proof.
  intros Htake Hy. apply lookup_lt_Some in Hy as Hk.
  rewrite <- (lookup_take_lt _ (length xs)) by done.
  by rewrite Htake, list_lookup_fmap, Hy.
Qed.

Lemma PushBack_ref_as_value s this v xs k y :
  is_vector s this v xs → xs !! k = Some y →
  PushBack_ref this (data_ptr_ v, N.of_nat k) s = PushBack this y s.
Proof.
  intros Hv Hy. pose proof Hv as (Hobj & Hsz & Hle & Hcap & Hblk).
  apply lookup_lt_Some in Hy as Hk.
  unfold PushBack_ref, PushBack. munfold. rewrite Hobj. mred.
  case_bool_decide as Hfree.
  { by rewrite (load_value_live s this v xs (N.of_nat k) y Hv) by (by rewrite Nat2N.id). }
  destruct (ArrayPtr_new (grown (capacity_ v)) s) as [p s1|e s1|] eqn:Hnew; [|done|done].
  apply ArrayPtr_new_inv in Hnew as [-> ->]; [|by apply grown_nonzero].
  set (b := fresh (dom (mem s))).
  assert (Hb : mem s !! b = None) by apply fresh_block.
  mrun Hobj.
  unfold array_holds in Hblk. destruct (data_ptr_ v) as [a|] eqn:Hp; [|lia].
  destruct Hblk as (Hc & A & HA & Hlen & Htake).
  assert (Hab : a ≠ b) by congruence.
  assert (Hg : size_ v + 1 ≤ grown (capacity_ v)).
  { rewrite grown_small by done. case_bool_decide; lia. }
  rewrite (std_copy_to_new a b _ A (N.to_nat (grown (capacity_ v))));
    [|done|by cbn; rewrite lookup_insert_ne|by cbn; rewrite lookup_insert_eq|lia|lia].
  mred. unfold load_value at 1. unfold bind at 1.
  rewrite (load_Ok _ a A (N.of_nat k) (Some y)); [done| |].
  - cbn. by rewrite !lookup_insert_ne.
  - rewrite Nat2N.id. by apply (block_lookup_live A xs).
Qed.

(** X23: [v.PushBack(v[k])] is safe: whether or not the vector has to grow,
    the value appended is the one [v[k]] held when the call was made, as
    if it had been passed from outside the vector. *)
Theorem PushBack_of_own_element s this v xs k y :
  is_vector s this v xs → xs !! k = Some y →
  (size_ v = capacity_ v → alloc_ok (grown (capacity_ v)) = true) →
  ∃ r s' v',
    subscript this (N.of_nat k) s = Ok r s ∧
    PushBack_ref this r s = Ok () s' ∧
    PushBack this y s = Ok () s' ∧
    is_vector s' this v' (xs ++ [y]).
Proof.
  intros Hv Hy Hok. pose proof Hv as (Hobj & _).
  apply lookup_lt_Some in Hy as Hk.
  destruct (PushBack_run s this v xs y Hv Hok) as (s' & v' & Hrun & Hv' & _).
  exists (data_ptr_ v, N.of_nat k), s', v'.
  split.
  { unfold subscript, bind. rewrite (self_Ok _ _ _ Hobj).
    destruct Hv as (_ & Hsz & _). by rewrite bool_decide_true by lia. }
  split; [|by split].
  by rewrite (PushBack_ref_as_value s this v xs k y Hv Hy).
Qed.

(** ** Iterators after a reallocation *)

(** X25: Growth invalidates iterators: when a modifier call that returned has
    changed the capacity, the array the vector was on before the call has
    been released, so that reading through an iterator taken before the
    call is undefined. *)
Theorem growth_invalidates_iterators this m s s' v xs v' :
  is_vector s this v xs → modify this m s = Ok () s' →
  objs s' !! this = Some v' → capacity_ v' ≠ capacity_ v →
  capacity_ v < capacity_ v' ∧
  ∀ a, data_ptr_ v = Some a →
       data_ptr_ v' ≠ Some a ∧
       mem s' !! a = None ∧
       ∀ i, load (Some a, i) s' = Undefined.
Proof.
  intros Hv Hrun Hv' Hcap.
  pose proof (modify_effect this m s) as Heff. unfold wp in Heff. rewrite Hrun in Heff.
  destruct (Heff v xs Hv) as [(w & Hobjs & _ & Hc & _)|(w & b & Hobjs & Hp & Hb & Hc & Hd)];
    rewrite Hobjs, lookup_insert_eq in Hv'; injection Hv' as ->; [done|].
  split; [done|]. intros a Ha.
  destruct Hv as (_ & _ & _ & _ & Hblk). unfold array_holds in Hblk.
  rewrite Ha in Hblk. destruct Hblk as (_ & blk & Hm & _).
  assert (Hab : a ≠ b) by congruence.
  assert (Hgone : mem s' !! a = None).
  { apply not_elem_of_dom. rewrite Hd, Ha, dom_release.
    rewrite elem_of_union, elem_of_singleton, elem_of_difference, elem_of_singleton.
    intros [?|[_ ?]]; done. }
  split; [congruence|]. split; [done|].
  intros i. unfold load. cbn. by rewrite Hgone.
Qed.

(** ** The modifiers as list operations *)

Lemma modify_refines this m s s' v xs :
  is_vector s this v xs → modify this m s = Ok () s' →
  ∃ v', is_vector s' this v' (list_after m xs).
Proof.
  intros Hv Hrun. pose proof Hv as (Hobj & Hsz & Hle & Hcap & Hblk).
  destruct m as [x|x| |pos x|pos|n|n| |i x|i x];
    cbn [modify list_after] in *.
  - destruct (decide (size_ v = capacity_ v)) as [Hfull|Hfree];
      [destruct (alloc_ok (grown (capacity_ v))) eqn:Hok|].
    + destruct (PushBack_run s this v xs x Hv) as (s1 & v1 & Hrun1 & Hv1 & _); [done|].
      rewrite Hrun1 in Hrun. injection Hrun as <-. by exists v1.
    + by rewrite (PushBack_bad_alloc s this v x) in Hrun.
    + destruct (PushBack_run s this v xs x Hv) as (s1 & v1 & Hrun1 & Hv1 & _); [done|].
      rewrite Hrun1 in Hrun. injection Hrun as <-. by exists v1.
  - destruct (decide (size_ v = capacity_ v)) as [Hfull|Hfree];
      [destruct (alloc_ok (grown (capacity_ v))) eqn:Hok|].
    + destruct (PushBack_move_run s this v xs x Hv) as (s1 & v1 & Hrun1 & Hv1 & _); [done|].
      rewrite Hrun1 in Hrun. injection Hrun as <-. by exists v1.
    + by rewrite (PushBack_move_bad_alloc s this v x) in Hrun.
    + destruct (PushBack_move_run s this v xs x Hv) as (s1 & v1 & Hrun1 & Hv1 & _); [done|].
      rewrite Hrun1 in Hrun. injection Hrun as <-. by exists v1.
  - destruct (decide (size_ v = 0)) as [H0|Hne].
    + by rewrite (PopBack_empty s this v) in Hrun.
    + destruct (PopBack_run s this v xs Hv Hne) as [Hrun1 Hv1].
      rewrite Hrun1 in Hrun. injection Hrun as <-. by eexists.
  - destruct (Insert_move_position s this v pos x Hobj) as [[Hp Hk]|Hbad].
    2: { unfold bind in Hrun. by rewrite Hbad in Hrun. }
    destruct pos as [p k]. cbn [fst snd] in *. subst p. unfold bind in Hrun.
    destruct (decide (size_ v = capacity_ v)) as [Hfull|Hfree];
      [destruct (alloc_ok (grown (capacity_ v))) eqn:Hok|].
    + destruct (Insert_move_run s this v xs k x Hv Hk) as (s1 & v1 & Hrun1 & Hv1 & _);
        [done|].
      rewrite Hrun1 in Hrun. injection Hrun as <-. by exists v1.
    + by rewrite (Insert_move_bad_alloc s this v k x) in Hrun.
    + destruct (Insert_move_run s this v xs k x Hv Hk) as (s1 & v1 & Hrun1 & Hv1 & _);
        [done|].
      rewrite Hrun1 in Hrun. injection Hrun as <-. by exists v1.
  - destruct (Erase_position s this v pos Hobj) as [[Hp Hk]|Hbad].
    2: { unfold bind in Hrun. by rewrite Hbad in Hrun. }
    destruct pos as [p k]. cbn [fst snd] in *. subst p. unfold bind in Hrun.
    destruct (Erase_run s this v xs k Hv Hk) as (s1 & Hrun1 & Hv1 & _).
    rewrite Hrun1 in Hrun. injection Hrun as <-. by eexists.
  - destruct (decide (n ≤ capacity_ v)) as [Hfit|Hbig].
    + rewrite (Reserve_noop s this v n) in Hrun by done.
      injection Hrun as <-. by exists v.
    + destruct (alloc_ok n) eqn:Hok.
      * destruct (Reserve_grow s this v xs n Hv) as (s1 & b & Hrun1 & Hv1 & _);
          [lia|done|].
        rewrite Hrun1 in Hrun. injection Hrun as <-. by eexists.
      * rewrite (Reserve_bad_alloc s this v n) in Hrun by (done || lia). done.
  - destruct (decide (n ≤ size_ v)) as [Hshrink|Hgrow].
    + destruct (Resize_shrink_run s this v xs n Hv Hshrink) as (Hrun1 & Hv1 & _).
      rewrite Hrun1 in Hrun. injection Hrun as <-. eexists.
      replace (N.to_nat n - length xs)%nat with 0%nat by lia.
      cbn [replicate]. rewrite app_nil_r. exact Hv1.
    + assert (Hok : (capacity_ v < n → alloc_ok (enlarged (capacity_ v) n) = true)
                    ∨ Resize this n s = Throw bad_alloc s).
      { destruct (decide (n ≤ capacity_ v)) as [Hfit|Hbig]; [left; lia|].
        destruct (alloc_ok (enlarged (capacity_ v) n)) eqn:Hok; [by left|].
        right. apply (Resize_bad_alloc s this v n); (done || lia). }
      destruct Hok as [Hok|Hthrow]; [|by rewrite Hthrow in Hrun].
      destruct (Resize_grow_run s this v xs n Hv) as (s1 & v1 & Hrun1 & Hv1 & _);
        [lia|done|].
      rewrite Hrun1 in Hrun. injection Hrun as <-. exists v1.
      by rewrite take_ge by lia.
  - destruct (Clear_run s this v xs Hv) as (Hrun1 & Hv1 & _).
    rewrite Hrun1 in Hrun. injection Hrun as <-. by eexists.
  - destruct (decide (i < size_ v)) as [Hi|Hi].
    + destruct (assign_element_run s this v xs i x Hv Hi) as (s1 & Hrun1 & _ & Hv1 & _).
      rewrite Hrun1 in Hrun. injection Hrun as <-. by exists v.
    + destruct (assign_element_out_of_range s this v i x Hobj) as [Hu _]; [lia|].
      by rewrite Hu in Hrun.
  - destruct (decide (i < size_ v)) as [Hi|Hi].
    + destruct (assign_element_run s this v xs i x Hv Hi) as (s1 & _ & Hrun1 & Hv1 & _).
      rewrite Hrun1 in Hrun. injection Hrun as <-. by exists v.
    + destruct (assign_element_out_of_range s this v i x Hobj) as [_ Ht]; [lia|].
      by rewrite Ht in Hrun.
Qed.

(** X26: The vector behaves as a list under its modifiers: whatever sequence
    of [PushBack], [PopBack], [Insert], [Erase], [Reserve], [Resize],
    [Clear] and element assignments returns, the elements the vector
    holds afterwards are those the same operations leave on the list of
    its former elements, and [GetSize] is their number. *)
Theorem modifiers_refine_list_operations this ms : ∀ s s' v xs,
  is_vector s this v xs → modify_all this ms s = Ok () s' →
  let ys := foldl (λ l m, list_after m l) xs ms in
  ∃ v', is_vector s' this v' ys ∧
        contents s' this = Some ys ∧
        GetSize this s' = Ok (N.of_nat (length ys)) s'.
Proof.
  induction ms as [|m ms IH]; intros s s' v xs Hv Hrun; cbn zeta.
  - injection Hrun as <-. exists v. cbn [foldl].
    split; [done|]. split; [by apply (is_vector_contents _ _ v)|].
    destruct Hv as (Hobj & Hsz & _).
    unfold GetSize, bind. rewrite (self_Ok _ _ _ Hobj). cbn. by rewrite Hsz.
  - cbn [modify_all foldl] in *. unfold bind in Hrun.
    destruct (modify this m s) as [[] s1|e s1|] eqn:Hstep; [|done|done].
    destruct (modify_refines this m s s1 v xs Hv Hstep) as (v1 & Hv1).
    exact (IH s1 s' v1 _ Hv1 Hrun).
Qed.

End SimpleVector.

(** * The theorems at concrete vectors of [nat] *)

(** Closes [is_vector] on a concrete state by evaluation. *)
Ltac concrete_vector :=
  split; [by vm_compute|];
  split; [by vm_compute|];
  split; [by vm_compute|];
  split; [by vm_compute|];
  first [ by vm_compute
        | split; [by vm_compute|];
          eexists; split; [by vm_compute|]; split; by vm_compute ].

(** Runs a concrete call whose resulting state is still to be named. *)
Ltac run_concrete :=
  match goal with
  | |- ?l = _ =>
      let r := eval vm_compute in l in
      transitivity r; [vm_compute; reflexivity | reflexivity]
  end.

(** The vector [{10, 20}] of capacity 2 as object 0. *)
Local Abbreviation pair_10_20 := (mkSimpleVector (Some 1%positive) 2 2).
Local Abbreviation state_10_20 :=
  (mkState (T:=nat) {[ 0%nat := pair_10_20 ]}
                    {[ 1%positive := [Some 10%nat; Some 20%nat] ]}).

(** The vector [{10, 20}] with room for four, as object 0. *)
Local Abbreviation roomy_10_20 := (mkSimpleVector (Some 1%positive) 2 4).
Local Abbreviation state_roomy :=
  (mkState (T:=nat) {[ 0%nat := roomy_10_20 ]}
                    {[ 1%positive := [Some 10%nat; Some 20%nat; None; None] ]}).

(** [D = {7}] as object 0 and [C = {9}] as object 1. *)
Local Abbreviation vector_D := (mkSimpleVector (Some 1%positive) 1 1).
Local Abbreviation vector_C := (mkSimpleVector (Some 2%positive) 1 1).
Local Abbreviation state_D_C :=
  (mkState (T:=nat) {[ 0%nat := vector_D; 1%nat := vector_C ]}
                    {[ 1%positive := [Some 7%nat]; 2%positive := [Some 9%nat] ]}).

(** C1, refuted as stated: [D = {7}] and [C = {9}] are built by the
    initializer-list constructor; after [D = std::move(C)] the source [C]
    has size 1, capacity 1 and holds [{7}]; it is not emptied. *)
Lemma move_assignment_leaves_source_nonempty :
  bind (SimpleVector_init 8 0%nat [7%nat]) (λ _, SimpleVector_init 8 1%nat [9%nat])
    (mkState ∅ ∅) = Ok () state_D_C ∧
  is_vector state_D_C 0%nat vector_D [7%nat] ∧
  is_vector state_D_C 1%nat vector_C [9%nat] ∧
  ∃ s', assign_move 0%nat 1%nat state_D_C = Ok 0%nat s' ∧
        GetSize 1%nat s' = Ok 1 s' ∧
        GetCapacity 1%nat s' = Ok 1 s' ∧
        contents s' 1%nat = Some [7%nat] ∧
        ¬ is_vector s' 1%nat (mkSimpleVector None 0 0) [].
Proof.
  split; [by vm_compute|]. split; [concrete_vector|]. split; [concrete_vector|].
  eexists. split; [by vm_compute|]. split; [by vm_compute|].
  split; [by vm_compute|]. split; [by vm_compute|].
  intros (Hobj & _). vm_compute in Hobj. discriminate.
Qed.

Lemma move_exchanges_state_witness :
  ∃ s', assign_move 0%nat 1%nat state_D_C = Ok 0%nat s' ∧
        is_vector s' 0%nat vector_C [9%nat] ∧
        is_vector s' 1%nat vector_D [7%nat].
Proof.
  destruct (move_exchanges_state state_D_C 0%nat 1%nat vector_D vector_C [7%nat] [9%nat])
    as [(s' & Hrun & Hd & Hc & _) _].
  - done.
  - concrete_vector.
  - concrete_vector.
  - exists s'. split; [done|]. by split.
Defined.

(** After [SimpleVector<nat> v{7}; v.PushBack(8);] the size, 2, is within
    the capacity. *)
Lemma size_within_capacity_invariant_witness :
  ∃ s v, reachable 0%nat id 8 s ∧
         objs s !! 0%nat = Some v ∧
         size_ v = 2 ∧ 0 ≤ size_ v ∧ size_ v ≤ capacity_ v.
Proof.
  assert (Hreach : ∃ s, reachable 0%nat id 8 s ∧
                        ∃ v, objs s !! 0%nat = Some v ∧ size_ v = 2).
  { eexists. split.
    - eapply (reachable_return _ _ _ (call_modifier 0%nat (call_PushBack 8%nat)));
        [eapply (reachable_return _ _ _ (declare_init 0%nat [7%nat]));
           [apply reachable_start|]|]; run_concrete.
    - eexists. split; [run_concrete|reflexivity]. }
  destruct Hreach as (s & Hreach & v & Hv & Hsz).
  exists s, v. split; [done|]. split; [done|]. split; [done|].
  exact (proj1 (size_within_capacity_invariant 0%nat id 8 s Hreach) 0%nat v Hv).
Defined.

(** Pushing 10, 20, 30 onto a default-constructed vector: size 3,
    capacity 4. *)
Lemma PushBack_doubles_to_first_power_of_two_witness :
  ∃ s' v',
    bind (SimpleVector_default 0%nat)
         (λ _, push_all id 8 false 0%nat [10%nat; 20%nat; 30%nat])
      (mkState ∅ ∅) = Ok () s' ∧
    contents s' 0%nat = Some [10%nat; 20%nat; 30%nat] ∧
    size_ v' = 3 ∧ capacity_ v' = 4.
Proof.
  destruct (PushBack_doubles_to_first_power_of_two id 8 false (mkState ∅ ∅) 0%nat
              [10%nat; 20%nat; 30%nat])
    as (s' & v' & Hrun & _ & Hc & Hsz & Hcap & _).
  - by vm_compute.
  - done.
  - by vm_compute.
  - exists s', v'. by repeat split.
Defined.

(** [Reserve(4)] on [{10, 20}] of capacity 2. *)
Lemma Reserve_is_non_destructive_witness :
  ∃ s' v', Reserve 8 0%nat 4 state_10_20 = Ok () s' ∧
           is_vector s' 0%nat v' [10%nat; 20%nat] ∧
           size_ v' = 2 ∧ capacity_ v' = 4.
Proof.
  destruct (Reserve_is_non_destructive 8 state_10_20 0%nat pair_10_20 [10%nat; 20%nat] 4)
    as (s' & v' & Hrun & Hv & _ & Hsz & _ & Hgrow).
  - concrete_vector.
  - intros _. by vm_compute.
  - exists s', v'. split; [done|]. split; [done|]. split; [done|].
    by apply Hgrow.
Defined.

(** [Resize(1)] on [{10, 20}]. *)
Lemma Resize_shrink_keeps_prefix_witness :
  ∃ s' v', Resize 0%nat id 8 0%nat 1 state_10_20 = Ok () s' ∧
           contents s' 0%nat = Some [10%nat] ∧
           size_ v' = 1 ∧ capacity_ v' = 2.
Proof.
  destruct (Resize_shrink_keeps_prefix 0%nat id 8 state_10_20 0%nat pair_10_20
              [10%nat; 20%nat] 1)
    as (s' & v' & Hrun & _ & Hc & Hsz & Hcap & _).
  - concrete_vector.
  - by vm_compute.
  - exists s', v'. by repeat split.
Defined.

(** [At] on [{10, 20}]: [At(2)] and [At(3)] throw, [At(1)] is the last
    element. *)
Lemma At_checks_bounds_witness :
  At 0%nat 2 state_10_20 = Throw out_of_range state_10_20 ∧
  At 0%nat 3 state_10_20 = Throw out_of_range state_10_20 ∧
  At 0%nat 1 state_10_20 = Ok (Some 1%positive, 1) state_10_20.
Proof.
  destruct (At_checks_bounds state_10_20 0%nat pair_10_20 [10%nat; 20%nat] 1)
    as (_ & Hin & _ & Hsize & Hnext & _).
  - concrete_vector.
  - split; [exact Hsize|]. split; [exact Hnext|]. by apply Hin.
Defined.

(** Inserting 15 in the middle of [{10, 20}] (capacity 4) and erasing it. *)
Lemma Insert_then_Erase_restores_witness :
  ∃ s1 v1 s2 v2,
    Insert_move id 8 0%nat (Some 1%positive, 1) 15%nat state_roomy
      = Ok (data_ptr_ v1, 1) s1 ∧
    is_vector s1 0%nat v1 [10%nat; 15%nat; 20%nat] ∧
    Erase id 0%nat (data_ptr_ v1, 1) s1 = Ok (data_ptr_ v2, 1) s2 ∧
    is_vector s2 0%nat v2 [10%nat; 20%nat].
Proof.
  destruct (Insert_then_Erase_restores id 8 state_roomy 0%nat roomy_10_20
              [10%nat; 20%nat] 1 15%nat)
    as (s1 & v1 & s2 & v2 & Hins & Hv1 & _ & Hers & Hv2 & _).
  - concrete_vector.
  - by vm_compute.
  - by vm_compute.
  - exists s1, v1, s2, v2. split; [done|]. split; [done|]. by split.
Defined.

(** Copying [{10, 20}] into object 1. *)
Lemma copy_is_equal_and_independent_witness :
  ∃ s1 vd,
    SimpleVector_copy 8 1%nat 0%nat state_10_20 = Ok () s1 ∧
    is_vector s1 1%nat vd [10%nat; 20%nat] ∧
    capacity_ vd = 2 ∧
    equal Nat.eqb 1%nat 0%nat s1 = Ok true s1 ∧
    safe_outcome (λ s2, is_vector s2 0%nat pair_10_20 [10%nat; 20%nat]
                        ∧ contents s2 0%nat = Some [10%nat; 20%nat])
      (modify_all 0%nat id 8 1%nat
         [call_PushBack 30%nat; call_assign_element 0 11%nat; call_Erase (Some 3%positive, 1)]
         s1).
Proof.
  destruct (copy_is_equal_and_independent 0%nat id 8 Nat.eqb state_10_20 0%nat pair_10_20
              [10%nat; 20%nat] 1%nat)
    as (s1 & vd & Hrun & Hd & _ & Hcap & _ & Heq & Hind).
  - intros x. apply Nat.eqb_refl.
  - by vm_compute.
  - concrete_vector.
  - intros _. by vm_compute.
  - exists s1, vd. split; [done|]. split; [done|]. split; [done|]. split; [done|].
    apply Hind.
Defined.

(** [Erase(end() - 1)] on [{10, 20}]. *)
Lemma Erase_last_returns_end_witness :
  ∃ r s', Erase id 0%nat (Some 1%positive, 1) state_10_20 = Ok r s' ∧
          end_ 0%nat s' = Ok r s' ∧
          contents s' 0%nat = Some [10%nat].
Proof.
  destruct (Erase_last_returns_end id state_10_20 0%nat pair_10_20 [10%nat; 20%nat])
    as (e & r & s' & v' & Hend & Hers & Hend' & _ & Hc & _).
  - concrete_vector.
  - by vm_compute.
  - exists r, s'. split; [|by split].
    assert (He : e = (Some 1%positive, 2)) by (vm_compute in Hend; congruence).
    by rewrite He in Hers.
Defined.

(** [{10, 20}] with capacity 2, then [PopBack]: [{10}]. *)
Lemma PopBack_drops_last_witness :
  ∃ s', PopBack 0%nat state_10_20 = Ok () s' ∧ contents s' 0%nat = Some [10%nat].
Proof.
  destruct (PopBack_drops_last state_10_20 0%nat pair_10_20 [10%nat; 20%nat])
    as (s' & v' & Hrun & _ & Hc & _).
  - concrete_vector.
  - by vm_compute.
  - exists s'. by split.
Defined.

(** * The further properties at concrete vectors of [nat] *)

(** [{7} == {9}] is false. *)
Lemma equal_decides_same_elements_witness :
  equal Nat.eqb 0%nat 1%nat state_D_C = Ok false state_D_C.
Proof.
  destruct (equal_decides_same_elements Nat.eqb state_D_C 0%nat vector_D [7%nat]
              1%nat vector_C [9%nat]) as (r & Hrun & _ & Hiff).
  - intros a b. apply Nat.eqb_eq.
  - concrete_vector.
  - concrete_vector.
  - destruct r; [|exact Hrun].
    pose proof (proj1 Hiff eq_refl) as E. discriminate E.
Defined.

(** [{7} < {9}] is true: the vectors differ at index 0 and [7 < 9]. *)
Lemma less_is_lexicographic_witness :
  less Nat.ltb 0%nat 1%nat state_D_C = Ok true state_D_C.
Proof.
  destruct (less_is_lexicographic Nat.ltb state_D_C 0%nat vector_D [7%nat]
              1%nat vector_C [9%nat]) as (r & Hrun & Hdiff & _).
  - intros a. apply Nat.ltb_irrefl.
  - concrete_vector.
  - concrete_vector.
  - destruct (Hdiff [] 7%nat 9%nat [] [] eq_refl eq_refl) as [Ht _].
    rewrite (Ht eq_refl) in Hrun. exact Hrun.
Defined.

(** The six operators on [{7}] and [{9}]. *)
Lemma comparison_trichotomy_witness :
  ∃ lt eq gt,
    less Nat.ltb 0%nat 1%nat state_D_C = Ok lt state_D_C ∧
    equal Nat.eqb 0%nat 1%nat state_D_C = Ok eq state_D_C ∧
    greater Nat.ltb 0%nat 1%nat state_D_C = Ok gt state_D_C ∧
    less_equal Nat.ltb 0%nat 1%nat state_D_C = Ok (lt || eq) state_D_C ∧
    greater_equal Nat.ltb 0%nat 1%nat state_D_C = Ok (gt || eq) state_D_C ∧
    not_equal Nat.eqb 0%nat 1%nat state_D_C = Ok (lt || gt) state_D_C.
Proof.
  destruct (comparison_trichotomy Nat.eqb Nat.ltb state_D_C 0%nat vector_D [7%nat]
              1%nat vector_C [9%nat])
    as (lt & eq & gt & Hlt & Heq & Hgt & _ & Hle & Hge & Hne).
  - intros a b. apply Nat.eqb_eq.
  - intros a b Hab. apply Nat.ltb_lt in Hab. apply Nat.ltb_ge. lia.
  - intros a b Hab.
    destruct (Nat.lt_total a b) as [Hlt|[Heq|Hgt]];
      [left; by apply Nat.ltb_lt|done|right; by apply Nat.ltb_lt].
  - concrete_vector.
  - concrete_vector.
  - exists lt, eq, gt. split; [done|]. split; [done|]. split; [done|].
    split; [done|]. by split.
Defined.

(** With an allocator of one slot, [PushBack] on the full vector [{7}]
    throws [bad_alloc] and the state is the one before. *)
Lemma throwing_operation_changes_nothing_witness :
  ∃ e s',
    perform 0%nat id 1 (call_modifier 0%nat (call_PushBack 8%nat)) state_D_C = Throw e s' ∧
    s' = state_D_C ∧ e = bad_alloc.
Proof.
  assert (Hrun : perform 0%nat id 1 (call_modifier 0%nat (call_PushBack 8%nat)) state_D_C
                 = Throw bad_alloc state_D_C) by (by vm_compute).
  exists bad_alloc, state_D_C. split; [exact Hrun|].
  exact (throwing_operation_changes_nothing 0%nat id 1 _ _ _ _ Hrun).
Defined.

(** [PushBack(30); PopBack(); Clear();] on [{10, 20}]: the capacity went
    from 2 to 4 and stays there. *)
Lemma modifiers_never_shrink_capacity_witness :
  ∃ s' v' xs',
    modify_all 0%nat id 8 0%nat [call_PushBack 30%nat; call_PopBack; call_Clear]
      state_10_20 = Ok () s' ∧
    is_vector s' 0%nat v' xs' ∧
    2 ≤ capacity_ v'.
Proof.
  assert (Hrun : ∃ s', modify_all 0%nat id 8 0%nat
                         [call_PushBack 30%nat; call_PopBack; call_Clear]
                         state_10_20 = Ok () s') by (eexists; run_concrete).
  destruct Hrun as (s' & Hrun).
  destruct (modifiers_never_shrink_capacity 0%nat id 8 0%nat
              [call_PushBack 30%nat; call_PopBack; call_Clear] state_10_20 s'
              pair_10_20 [10%nat; 20%nat])
    as (v' & xs' & Hv' & _ & _ & Hcap & _).
  - concrete_vector.
  - exact Hrun.
  - exists s', v', xs'. split; [done|]. by split.
Defined.

(** [{ SimpleVector<nat> v{7}; v.PushBack(8); }]: once [v] is destroyed
    no array is left. *)
Lemma no_array_is_leaked_witness :
  ∃ s, reachable 0%nat id 8 s ∧ objs s = ∅ ∧ mem s = ∅.
Proof.
  assert (Hreach : ∃ s, reachable 0%nat id 8 s ∧ objs s = ∅).
  { eexists. split.
    - eapply (reachable_return _ _ _ (end_of_life 0%nat));
        [eapply (reachable_return _ _ _ (call_modifier 0%nat (call_PushBack 8%nat)));
           [eapply (reachable_return _ _ _ (declare_init 0%nat [7%nat]));
              [apply reachable_start|]|]|]; run_concrete.
    - reflexivity. }
  destruct Hreach as (s & Hreach & Hobjs).
  exists s. split; [done|]. split; [done|].
  exact (proj2 (no_array_is_leaked 0%nat id 8 s Hreach) Hobjs).
Defined.

(** On [{10, 20}]: [Erase] at index 5 is undefined, [PopBack] returns. *)
Lemma modifier_outcome_witness :
  modify 0%nat id 8 0%nat (call_Erase (Some 1%positive, 5)) state_10_20 = Undefined ∧
  ∃ s', modify 0%nat id 8 0%nat call_PopBack state_10_20 = Ok () s'.
Proof.
  assert (Hv : is_vector state_10_20 0%nat pair_10_20 [10%nat; 20%nat])
    by concrete_vector.
  split.
  - apply (proj1 (modifier_outcome 0%nat id 8 0%nat (call_Erase (Some 1%positive, 5))
                    state_10_20 pair_10_20 [10%nat; 20%nat] Hv)).
    intros [_ Hlt]. by vm_compute in Hlt.
  - apply (proj2 (proj2 (modifier_outcome 0%nat id 8 0%nat call_PopBack
                           state_10_20 pair_10_20 [10%nat; 20%nat] Hv))).
    split; [by vm_compute|reflexivity].
Defined.

(** The observers on [{10, 20}]. *)
Lemma observers_agree_witness :
  ∃ b e,
    begin 0%nat state_10_20 = Ok b state_10_20 ∧
    end_ 0%nat state_10_20 = Ok e state_10_20 ∧
    GetSize 0%nat state_10_20 = Ok 2 state_10_20 ∧
    std_distance b e = 2.
Proof.
  destruct (observers_agree state_10_20 0%nat pair_10_20 [10%nat; 20%nat])
    as (b & e & Hb & He & _ & _ & Hsz & _ & Hdist & _).
  - concrete_vector.
  - exists b, e. split; [done|]. split; [done|]. by split.
Defined.

(** [SimpleVector<nat> v(2);] holds two zeros. *)
Lemma sized_constructors_fill_witness :
  ∃ s' p,
    SimpleVector_sized 0%nat 8 0%nat 2 (mkState ∅ ∅) = Ok () s' ∧
    is_vector s' 0%nat (mkSimpleVector p 2 2) [0%nat; 0%nat].
Proof.
  destruct (sized_constructors_fill 0%nat 8 (mkState ∅ ∅) 0%nat 2 5%nat)
    as [Hruns _]; [done|].
  destruct Hruns as [(s' & p & Hrun & Hv & _) _]; [intros _; by vm_compute|].
  exists s', p. by split.
Defined.

(** [SimpleVector<nat> v(3, std::move(x))] with [x = 5], for a type whose
    moved-from state is 0: the elements are 5, 0, 0. *)
Lemma rvalue_fill_constructor_moves_repeatedly_witness :
  ∃ s' p xs,
    SimpleVector_filled_move (λ _, 0%nat) 8 0%nat 3 5%nat (mkState ∅ ∅) = Ok () s' ∧
    is_vector s' 0%nat (mkSimpleVector p 3 3) xs ∧
    xs !! 0%nat = Some 5%nat ∧ xs !! 1%nat = Some 0%nat ∧ xs !! 2%nat = Some 0%nat.
Proof.
  destruct (rvalue_fill_constructor_moves_repeatedly (λ _, 0%nat) 8 (mkState ∅ ∅)
              0%nat 3 5%nat)
    as (s' & p & xs & Hrun & Hv & _ & Hlook & _); [done|intros _; by vm_compute|].
  assert (H0 : (0 < N.to_nat 3)%nat) by (vm_compute; lia).
  assert (H1 : (1 < N.to_nat 3)%nat) by (vm_compute; lia).
  assert (H2 : (2 < N.to_nat 3)%nat) by (vm_compute; lia).
  exists s', p, xs. split; [done|]. split; [done|].
  split; [exact (Hlook 0%nat H0)|]. split; [exact (Hlook 1%nat H1)|exact (Hlook 2%nat H2)].
Defined.

(** [SimpleVector<nat> v{7, 8};] *)
Lemma initializer_list_constructor_holds_list_witness :
  ∃ s' v,
    SimpleVector_init 8 0%nat [7%nat; 8%nat] (mkState ∅ ∅) = Ok () s' ∧
    contents s' 0%nat = Some [7%nat; 8%nat] ∧
    capacity_ v = 2 ∧
    read_element 0%nat 1 s' = Ok 8%nat s'.
Proof.
  destruct (initializer_list_constructor_holds_list 8 (mkState ∅ ∅) 0%nat [7%nat; 8%nat])
    as (s' & v & Hrun & _ & Hc & _ & Hcap & Hread); [done|intros _; by vm_compute|].
  exists s', v. split; [done|]. split; [done|]. split; [done|].
  exact (Hread 1%nat 8%nat eq_refl).
Defined.

(** [SimpleVector<nat> v(Reserve(3));] and three calls of [PushBack]. *)
Lemma reserved_capacity_absorbs_pushes_witness :
  ∃ s1 p s2,
    SimpleVector_reserved 8 0%nat (Reserve_proxy 3) (mkState ∅ ∅) = Ok () s1 ∧
    push_all id 8 false 0%nat [1%nat; 2%nat; 3%nat] s1 = Ok () s2 ∧
    is_vector s2 0%nat (mkSimpleVector p 3 3) [1%nat; 2%nat; 3%nat].
Proof.
  destruct (proj2 (reserved_capacity_absorbs_pushes id 8 false (mkState ∅ ∅) 0%nat 3
                     [1%nat; 2%nat; 3%nat]))
    as (s1 & p & s2 & Hrun1 & _ & Hrun2 & Hv2);
    [done|intros _; by vm_compute|by vm_compute|].
  exists s1, p, s2. split; [done|]. by split.
Defined.

(** [D.swap(C)] on [D = {7}], [C = {9}], and back. *)
Lemma swap_exchanges_and_undoes_witness :
  ∃ s', swap 0%nat 1%nat state_D_C = Ok () s' ∧
        is_vector s' 0%nat vector_C [9%nat] ∧
        is_vector s' 1%nat vector_D [7%nat] ∧
        swap 0%nat 1%nat s' = Ok () state_D_C.
Proof.
  destruct (swap_exchanges_and_undoes state_D_C 0%nat 1%nat vector_D [7%nat]
              vector_C [9%nat])
    as (s' & Hrun & Hd & Hc & _ & _ & _ & Hback).
  - done.
  - concrete_vector.
  - concrete_vector.
  - exists s'. split; [done|]. split; [done|]. by split.
Defined.

(** [D = C] on [D = {7}], [C = {9}]: [D] holds [{9}] on a new array, its
    former array is released. *)
Lemma copy_assignment_replaces_witness :
  ∃ s' v',
    assign_copy 8 0%nat 1%nat state_D_C = Ok 0%nat s' ∧
    is_vector s' 0%nat v' [9%nat] ∧
    is_vector s' 1%nat vector_C [9%nat] ∧
    mem s' !! 1%positive = None.
Proof.
  destruct (copy_assignment_replaces 8 state_D_C 0%nat 1%nat vector_D [7%nat]
              vector_C [9%nat]) as [Hruns _].
  - done.
  - concrete_vector.
  - concrete_vector.
  - intros a [= <-] [=].
  - destruct Hruns as (s' & v' & Hrun & Hd & _ & Hc & Hold & _);
      [intros _; by vm_compute|].
    exists s', v'. split; [done|]. split; [done|]. split; [done|].
    exact (Hold 1%positive eq_refl).
Defined.

(** [PushBack(30); PopBack();] on [{10, 20}]. *)
Lemma PushBack_then_PopBack_restores_witness :
  ∃ s1 s2 v2,
    push_back id 8 false 0%nat 30%nat state_10_20 = Ok () s1 ∧
    read_element 0%nat 2 s1 = Ok 30%nat s1 ∧
    PopBack 0%nat s1 = Ok () s2 ∧
    is_vector s2 0%nat v2 [10%nat; 20%nat].
Proof.
  destruct (PushBack_then_PopBack_restores id 8 false state_10_20 0%nat pair_10_20
              [10%nat; 20%nat] 30%nat)
    as (s1 & v1 & s2 & v2 & Hrun1 & _ & Hread & Hrun2 & Hv2 & _).
  - concrete_vector.
  - intros _. by vm_compute.
  - exists s1, s2, v2. split; [done|]. split; [done|]. by split.
Defined.

(** [Insert(end(), 30)] and [PushBack(30)], both with a temporary, on the
    full vector [{10, 20}]. *)
Lemma Insert_at_end_is_PushBack_witness :
  ∃ s1 v1 s2 v2,
    Insert_move id 8 0%nat (Some 1%positive, 2) 30%nat state_10_20
      = Ok (data_ptr_ v1, 2) s1 ∧
    push_back id 8 true 0%nat 30%nat state_10_20 = Ok () s2 ∧
    is_vector s1 0%nat v1 [10%nat; 20%nat; 30%nat] ∧
    is_vector s2 0%nat v2 [10%nat; 20%nat; 30%nat] ∧
    capacity_ v1 = capacity_ v2.
Proof.
  destruct (Insert_at_end_is_PushBack id 8 true state_10_20 0%nat pair_10_20
              [10%nat; 20%nat] 30%nat)
    as (e & s1 & v1 & s2 & v2 & Hend & Hrun1 & Hrun2 & Hv1 & Hv2 & _ & Hcap & _).
  - concrete_vector.
  - intros _. by vm_compute.
  - assert (He : e = (Some 1%positive, 2)) by (vm_compute in Hend; congruence).
    rewrite He in Hrun1.
    exists s1, v1, s2, v2. split; [done|]. split; [done|]. split; [done|]. by split.
Defined.

(** [Erase(begin())] on [{10, 20}] leaves [{20}]. *)
Lemma Erase_removes_one_element_witness :
  ∃ s', Erase id 0%nat (Some 1%positive, 0) state_10_20 = Ok (Some 1%positive, 0) s' ∧
        is_vector s' 0%nat (mkSimpleVector (Some 1%positive) 1 2) [20%nat] ∧
        read_element 0%nat 0 s' = Ok 20%nat s'.
Proof.
  destruct (Erase_removes_one_element id state_10_20 0%nat pair_10_20
              [10%nat; 20%nat] 0)
    as (s' & Hrun & Hv' & _ & _ & Hafter & _).
  - concrete_vector.
  - by vm_compute.
  - exists s'. split; [done|]. split; [done|].
    refine (Hafter 1%nat 20%nat _ eq_refl). vm_compute. lia.
Defined.

(** [Resize(5)] on [{10, 20}] of capacity 2. *)
Lemma Resize_grow_appends_defaults_witness :
  ∃ s' v',
    Resize 0%nat id 8 0%nat 5 state_10_20 = Ok () s' ∧
    is_vector s' 0%nat v' [10%nat; 20%nat; 0%nat; 0%nat; 0%nat] ∧
    capacity_ v' = 5.
Proof.
  destruct (Resize_grow_appends_defaults 0%nat id 8 state_10_20 0%nat pair_10_20
              [10%nat; 20%nat] 5)
    as (s' & v' & Hrun & Hv' & _ & _ & Hcap & _).
  - concrete_vector.
  - by vm_compute.
  - intros _. by vm_compute.
  - exists s', v'. split; [done|]. by split.
Defined.

(** [PopBack(); Resize(2);] on [{10, 20}] gives [{10, 0}]. *)
Lemma shrink_then_grow_gives_defaults_witness :
  ∃ s1 s2,
    PopBack 0%nat state_10_20 = Ok () s1 ∧
    Resize 0%nat id 8 0%nat 2 s1 = Ok () s2 ∧
    is_vector s2 0%nat pair_10_20 [10%nat; 0%nat].
Proof.
  destruct (shrink_then_grow_gives_defaults 0%nat id 8 state_10_20 0%nat pair_10_20
              [10%nat; 20%nat] 1 2)
    as (s1 & s2 & _ & _ & Hpop & Hrun2 & Hv2).
  - concrete_vector.
  - by vm_compute.
  - by vm_compute.
  - by vm_compute.
  - exists s1, s2. split; [by apply Hpop|]. by split.
Defined.

(** [v[1] = 99;] on [{10, 20}]. *)
Lemma element_assignment_round_trip_witness :
  ∃ s',
    assign_element 0%nat 1 99%nat state_10_20 = Ok () s' ∧
    read_element 0%nat 1 s' = Ok 99%nat s' ∧
    read_element 0%nat 0 s' = Ok 10%nat s'.
Proof.
  destruct (element_assignment_round_trip state_10_20 0%nat pair_10_20
              [10%nat; 20%nat] 1 99%nat)
    as (s' & Hrun & _ & _ & Hread & _ & Hother).
  - concrete_vector.
  - by vm_compute.
  - exists s'. split; [done|]. split; [done|].
    refine (proj1 (Hother 0%nat 10%nat _ eq_refl)). by vm_compute.
Defined.

(** [{ SimpleVector<nat> v{7, 8}; }] *)
Lemma temporary_vector_leaves_no_trace_witness :
  bind (SimpleVector_init 8 0%nat [7%nat; 8%nat]) (λ _, destructor 0%nat) (mkState ∅ ∅)
    = Ok () (mkState ∅ ∅).
Proof.
  destruct (temporary_vector_leaves_no_trace (T:=nat) 8 (mkState ∅ ∅) 0%nat) as (_ & Hinit & _);
    [done|].
  apply Hinit. intros _. by vm_compute.
Defined.

(** [v.PushBack(v[0])] on the full vector [{10, 20}] gives [{10, 20, 10}]. *)
Lemma PushBack_of_own_element_witness :
  ∃ s' v',
    PushBack_ref 8 0%nat (Some 1%positive, 0) state_10_20 = Ok () s' ∧
    is_vector s' 0%nat v' [10%nat; 20%nat; 10%nat].
Proof.
  destruct (PushBack_of_own_element 8 state_10_20 0%nat pair_10_20 [10%nat; 20%nat]
              0%nat 10%nat)
    as (r & s' & v' & Hsub & Hrun & _ & Hv').
  - concrete_vector.
  - done.
  - intros _. by vm_compute.
  - assert (Hr : r = (Some 1%positive, 0)) by (vm_compute in Hsub; congruence).
    rewrite Hr in Hrun. exists s', v'. by split.
Defined.

(** After [PushBack(30)] on the full vector [{10, 20}], reading through
    the former [begin()] is undefined. *)
Lemma growth_invalidates_iterators_witness :
  ∃ s', modify 0%nat id 8 0%nat (call_PushBack 30%nat) state_10_20 = Ok () s' ∧
        load (T:=nat) (Some 1%positive, 0) s' = Undefined.
Proof.
  assert (Hrun : ∃ s' v',
            modify 0%nat id 8 0%nat (call_PushBack 30%nat) state_10_20 = Ok () s' ∧
            objs s' !! 0%nat = Some v' ∧ capacity_ v' = 4).
  { eexists _, _. split; [run_concrete|]. split; reflexivity. }
  destruct Hrun as (s' & v' & Hrun & Hv' & Hcap).
  destruct (growth_invalidates_iterators 0%nat id 8 0%nat (call_PushBack 30%nat)
              state_10_20 s' pair_10_20 [10%nat; 20%nat] v') as [_ Hgone].
  - concrete_vector.
  - exact Hrun.
  - exact Hv'.
  - rewrite Hcap. by vm_compute.
  - exists s'. split; [done|].
    exact (proj2 (proj2 (Hgone 1%positive eq_refl)) 0).
Defined.

(** [PushBack(30); PopBack(); v[0] = 11; Resize(3);] on [{10, 20}] gives
    [{11, 20, 0}]. *)
Lemma modifiers_refine_list_operations_witness :
  ∃ s' v',
    modify_all 0%nat id 8 0%nat
      [call_PushBack 30%nat; call_PopBack; call_assign_element 0 11%nat; call_Resize 3]
      state_10_20 = Ok () s' ∧
    is_vector s' 0%nat v' [11%nat; 20%nat; 0%nat] ∧
    contents s' 0%nat = Some [11%nat; 20%nat; 0%nat].
Proof.
  assert (Hrun : ∃ s', modify_all 0%nat id 8 0%nat
                         [call_PushBack 30%nat; call_PopBack;
                          call_assign_element 0 11%nat; call_Resize 3]
                         state_10_20 = Ok () s') by (eexists; run_concrete).
  destruct Hrun as (s' & Hrun).
  destruct (modifiers_refine_list_operations 0%nat id 8 0%nat
              [call_PushBack 30%nat; call_PopBack;
               call_assign_element 0 11%nat; call_Resize 3]
              state_10_20 s' pair_10_20 [10%nat; 20%nat])
    as (v' & Hv' & Hc & _).
  - concrete_vector.
  - exact Hrun.
  - exists s', v'. split; [done|]. by split.
Defined.
